(** * UpgradedElement: the string-template differ and the component lifecycle

    A shallow embedding of the two source modules of the component
    runtime:

    - the virtual DOM ([stringToHTML], [createDOMMap], [diffDOM] and the
      attribute, style and node helpers around them), in [Module Vdom],
      running against a model of the browser DOM in [Module Dom];
    - the custom-element class [UpgradedElement] (its callbacks, the
      render entry points and [getDOMString]), in [Module Element].

    JavaScript objects with identity (DOM nodes) live in a store indexed
    by references; functions that touch the DOM are computations in a
    state-and-exception monad over that store.

    The definitions come first. The facts follow in modules: lemmas on
    the differ and the lifecycle ([VdomFacts], [ElementFacts]) with the
    claims of the specification ([ReconcileClaims], [LifecycleClaims]),
    then further lemmas ([StyleFacts], [MapFacts], [NodeFacts],
    [MoveFacts], [DifferFacts], [LifecycleFacts]) with the properties
    read off the code itself ([StyleProperties], [MapProperties],
    [NodeProperties], [DifferProperties], [RenderProperties],
    [LifecycleProperties]). *)

From Stdlib Require Import ZArith Ascii String List Bool Lia.
From stdpp Require Import base option list gmap strings.

Open Scope string_scope.
Open Scope Z_scope.
Open Scope list_scope.

(** ** JavaScript strings *)

Module Js.

(** [String.prototype.toLowerCase], on the ASCII range. *)
Definition lowerAscii (c : ascii) : ascii :=
  let n := nat_of_ascii c in
  if (65 <=? n)%nat && (n <=? 90)%nat then ascii_of_nat (n + 32) else c.

Fixpoint toLowerCase (s : string) : string :=
  match s with
  | EmptyString => EmptyString
  | String c r => String (lowerAscii c) (toLowerCase r)
  end.

(** White space as removed by [String.prototype.trim] (ASCII range):
    tab, line feed, vertical tab, form feed, carriage return, space. *)
Definition isWhite (c : ascii) : bool :=
  let n := nat_of_ascii c in
  ((9 <=? n)%nat && (n <=? 13)%nat) || (n =? 32)%nat.

Fixpoint trimStart (s : string) : string :=
  match s with
  | EmptyString => EmptyString
  | String c r => if isWhite c then trimStart r else s
  end.

(** [trimEnd] keeps a character when something that is not white space
    follows it, or when it is not white space itself. *)
Fixpoint trimEnd (s : string) : string :=
  match s with
  | EmptyString => EmptyString
  | String c r =>
      match trimEnd r with
      | EmptyString => if isWhite c then EmptyString else String c EmptyString
      | r' => String c r'
      end
  end.

Definition trim (s : string) : string := trimEnd (trimStart s).

(** [s.split(sep)] for a one-character separator: always at least one
    piece, the pieces between consecutive separators. *)
Fixpoint split (sep : ascii) (s : string) : list string :=
  match s with
  | EmptyString => [EmptyString]
  | String c r =>
      if Ascii.eqb c sep then EmptyString :: split sep r
      else match split sep r with
           | [] => [String c EmptyString]
           | p :: ps => String c p :: ps
           end
  end.

(** [s.indexOf(c)] for a one-character needle, [-1] when absent. *)
Fixpoint indexOf (c : ascii) (s : string) : Z :=
  match s with
  | EmptyString => -1
  | String d r =>
      if Ascii.eqb d c then 0
      else let i := indexOf c r in if i <? 0 then -1 else i + 1
  end.

(** Truthiness of a string: only the empty string is falsy. *)
Definition truthy (s : string) : bool :=
  match s with EmptyString => false | _ => true end.

End Js.

(** ** The browser DOM

    Nodes are records in a store; a reference is a key of the store.
    Every write is also appended to a mutation journal, so that "this
    pass wrote nothing" is a statement about the journal.

    Modelling conventions, where the platform is richer than the model:
    element and attribute names are taken in the form the HTML parser
    produces (valid, no case folding); inline style declarations are kept
    verbatim as name/value pairs (the CSS engine's validation and
    normalisation are not modelled); the insertion primitives do not
    check that the inserted node is no ancestor of its new parent (the
    differ inserts nodes it has just created). *)

Module Dom.

Definition ELEMENT_NODE : Z := 1.
Definition TEXT_NODE : Z := 3.
Definition COMMENT_NODE : Z := 8.
Definition DOCUMENT_FRAGMENT_NODE : Z := 11.

Record liveNode := LiveNode {
  nodeType : Z;
  localName : string;
  svgNamespace : bool;
  attrList : list (string * string);
  styleDecls : list (string * string);
  data : string;
  childRefs : list nat;
  parentRef : option nat
}.

Inductive mutation :=
| Created (n : nat)
| SetAttribute (n : nat) (name value : string)
| RemoveAttribute (n : nat) (name : string)
| SetStyle (n : nat) (name value : string)
| AppendChild (parent child : nat)
| RemoveChild (parent child : nat)
| ReplaceChild (parent newChild oldChild : nat)
| SetTextContent (n : nat) (text : string)
| SetInnerHTML (n : nat) (html : string).

Record document := Document {
  store : gmap nat liveNode;
  nextRef : nat;
  journal : list mutation
}.

Inductive jsError :=
| TypeError
| ReferenceError
| HierarchyRequestError
| NotFoundError.

Inductive outcome (A : Type) :=
| Ok (a : A)
| Throw (e : jsError).
Arguments Ok {A} a.
Arguments Throw {A} e.

(** A computation runs on a document and leaves a document behind, also
    when it throws: writes made before the exception stay. *)
Definition M (A : Type) : Type := document -> outcome A * document.

Definition ret {A} (a : A) : M A := fun d => (Ok a, d).
Definition throw {A} (e : jsError) : M A := fun d => (Throw e, d).
Definition bind {A B} (m : M A) (k : A -> M B) : M B :=
  fun d => match m d with
           | (Ok a, d') => k a d'
           | (Throw e, d') => (Throw e, d')
           end.

#[global] Instance M_ret : MRet M := @ret.
#[global] Instance M_bind : MBind M := fun A B k m => bind m k.

(** [Array.prototype.forEach] with an effectful callback. *)
Fixpoint forEach {A} (f : A -> M unit) (l : list A) : M unit :=
  match l with
  | [] => ret tt
  | x :: r => f x ;; forEach f r
  end.

(** *** Store access *)

Definition record (m : mutation) : M unit :=
  fun d => (Ok tt, Document (store d) (nextRef d) (journal d ++ [m])).

Definition getNode (n : nat) : M liveNode :=
  fun d => match store d !! n with
           | Some x => (Ok x, d)
           | None => (Throw TypeError, d)
           end.

Definition modify (n : nat) (f : liveNode -> liveNode) : M unit :=
  fun d => (Ok tt, Document (alter f n (store d)) (nextRef d) (journal d)).

Definition alloc (x : liveNode) : M nat :=
  fun d => let n := nextRef d in
           (Ok n, Document (<[n := x]> (store d)) (S n) (journal d ++ [Created n])).

Definition withAttrs (l : list (string * string)) (x : liveNode) : liveNode :=
  LiveNode (nodeType x) (localName x) (svgNamespace x) l (styleDecls x)
           (data x) (childRefs x) (parentRef x).
Definition withStyle (l : list (string * string)) (x : liveNode) : liveNode :=
  LiveNode (nodeType x) (localName x) (svgNamespace x) (attrList x) l
           (data x) (childRefs x) (parentRef x).
Definition withData (s : string) (x : liveNode) : liveNode :=
  LiveNode (nodeType x) (localName x) (svgNamespace x) (attrList x) (styleDecls x)
           s (childRefs x) (parentRef x).
Definition withChildren (l : list nat) (x : liveNode) : liveNode :=
  LiveNode (nodeType x) (localName x) (svgNamespace x) (attrList x) (styleDecls x)
           (data x) l (parentRef x).
Definition withParent (p : option nat) (x : liveNode) : liveNode :=
  LiveNode (nodeType x) (localName x) (svgNamespace x) (attrList x) (styleDecls x)
           (data x) (childRefs x) p.

(** *** Association lists of attributes and declarations *)

Fixpoint assocSet (k v : string) (l : list (string * string)) : list (string * string) :=
  match l with
  | [] => [(k, v)]
  | (k', v') :: r => if String.eqb k' k then (k, v) :: r else (k', v') :: assocSet k v r
  end.

Definition assocRemove (k : string) (l : list (string * string)) : list (string * string) :=
  List.filter (fun kv => negb (String.eqb (fst kv) k)) l.

Fixpoint assocGet (k : string) (l : list (string * string)) : option string :=
  match l with
  | [] => None
  | (k', v') :: r => if String.eqb k' k then Some v' else assocGet k r
  end.

(** *** Node creation *)

Definition freshNode (ty : Z) (tag : string) (svg : bool) (s : string) : liveNode :=
  LiveNode ty tag svg [] [] s [] None.

(** A [null] argument is converted to the string ["null"]. *)
Definition domString (v : option string) : string :=
  match v with Some s => s | None => "null" end.

Definition createTextNode (v : option string) : M nat :=
  alloc (freshNode TEXT_NODE "" false (domString v)).
Definition createComment (v : option string) : M nat :=
  alloc (freshNode COMMENT_NODE "" false (domString v)).
Definition createElement (tag : string) : M nat :=
  alloc (freshNode ELEMENT_NODE tag false "").
Definition createElementNS_svg (tag : string) : M nat :=
  alloc (freshNode ELEMENT_NODE tag true "").
Definition createDocumentFragment : M nat :=
  alloc (freshNode DOCUMENT_FRAGMENT_NODE "" false "").

(** *** Attributes, class and inline style *)

Definition isElement (x : liveNode) : bool := nodeType x =? ELEMENT_NODE.

(** Only elements have [setAttribute] and [removeAttribute]; on any other
    node the method is undefined and the call is a [TypeError]. *)
Definition setAttribute (n : nat) (name value : string) : M unit :=
  x ← getNode n;
  if isElement x then
    modify n (fun y => withAttrs (assocSet name value (attrList y)) y) ;;
    record (SetAttribute n name value)
  else throw TypeError.

Definition removeAttribute (n : nat) (name : string) : M unit :=
  x ← getNode n;
  if isElement x then
    modify n (fun y => withAttrs (assocRemove name (attrList y)) y) ;;
    record (RemoveAttribute n name)
  else throw TypeError.

(** [element.className = v] reflects the [class] attribute of an HTML
    element. On an SVG element [className] is a read-only animated
    string, and assigning to it in strict code is a [TypeError]; on a
    node that is no element the assignment only creates a plain
    JavaScript property. *)
Definition setClassName (n : nat) (v : string) : M unit :=
  x ← getNode n;
  if isElement x then
    if svgNamespace x then throw TypeError
    else
      modify n (fun y => withAttrs (assocSet "class" v (attrList y)) y) ;;
      record (SetAttribute n "class" v)
  else ret tt.

(** [element.style]: the declaration block of an element, [undefined] on
    other nodes (so that indexing it throws). *)
Definition getStyle (n : nat) : M (list (string * string)) :=
  x ← getNode n;
  if isElement x then ret (styleDecls x) else throw TypeError.

(** [element.style[name] = value]; the empty string removes the
    declaration. *)
Definition setStyleProperty (n : nat) (name value : string) : M unit :=
  _ ← getStyle n;
  modify n (fun y =>
    withStyle (if Js.truthy value then assocSet name value (styleDecls y)
               else assocRemove name (styleDecls y)) y) ;;
  record (SetStyle n name value).

(** [element.style[undefined] = ""]: the key ["undefined"] names no CSS
    property, so the declaration block is left as it is; the access to
    [element.style] itself still has to succeed. *)
Definition setStyleUndefined (n : nat) : M unit :=
  _ ← getStyle n; ret tt.

(** *** Tree surgery *)

Definition canHaveChildren (x : liveNode) : bool :=
  (nodeType x =? ELEMENT_NODE) || (nodeType x =? DOCUMENT_FRAGMENT_NODE).

Definition removeRef (c : nat) (l : list nat) : list nat :=
  List.filter (fun k => negb (Nat.eqb k c)) l.

(** Take [c] out of the child list of its parent, if it has one. *)
Definition detach (c : nat) : M unit :=
  x ← getNode c;
  match parentRef x with
  | None => ret tt
  | Some p =>
      modify p (fun y => withChildren (removeRef c (childRefs y)) y) ;;
      modify c (withParent None)
  end.

(** The nodes an insertion really inserts: the children of a document
    fragment, or the node itself. *)
Definition insertedNodes (c : nat) : M (list nat) :=
  x ← getNode c;
  if nodeType x =? DOCUMENT_FRAGMENT_NODE then ret (childRefs x) else ret [c].

Definition parentNode (n : nat) : M (option nat) :=
  x ← getNode n; ret (parentRef x).

Definition appendChild (p c : nat) : M unit :=
  x ← getNode p;
  if canHaveChildren x then
    cs ← insertedNodes c;
    forEach detach cs ;;
    modify p (fun y => withChildren (childRefs y ++ cs) y) ;;
    forEach (fun k => modify k (withParent (Some p))) cs ;;
    record (AppendChild p c)
  else throw HierarchyRequestError.

Definition removeChild (p c : nat) : M unit :=
  _ ← getNode p;
  x ← getNode c;
  if decide (parentRef x = Some p) then
    detach c ;; record (RemoveChild p c)
  else throw NotFoundError.

Fixpoint spliceAt (old : nat) (news : list nat) (l : list nat) : list nat :=
  match l with
  | [] => []
  | k :: r => if Nat.eqb k old then news ++ r else k :: spliceAt old news r
  end.

Definition replaceChild (p newChild oldChild : nat) : M unit :=
  _ ← getNode p;
  x ← getNode oldChild;
  if decide (parentRef x = Some p) then
    cs ← insertedNodes newChild;
    forEach detach cs ;;
    modify p (fun y => withChildren (spliceAt oldChild cs (childRefs y)) y) ;;
    modify oldChild (withParent None) ;;
    forEach (fun k => modify k (withParent (Some p))) cs ;;
    record (ReplaceChild p newChild oldChild)
  else throw NotFoundError.

(** Remove every child of [n] (each one loses its parent). *)
Definition removeAllChildren (n : nat) : M unit :=
  x ← getNode n;
  forEach (fun k => modify k (withParent None)) (childRefs x) ;;
  modify n (withChildren []).

(** The text node that the [textContent] setter puts under an emptied
    element. It is part of that one write: no journal entry of its own. *)
Definition insertTextChild (n : nat) (s : string) : M unit :=
  fun d =>
    let t := nextRef d in
    (Ok tt, Document (<[t := LiveNode TEXT_NODE "" false [] [] s [] (Some n)]>
                        (alter (withChildren [t]) n (store d)))
                     (S t) (journal d)).

(** [node.textContent = v]: [null] counts as the empty string; an element
    or fragment has its children replaced by one text node (none for the
    empty string), character data has its data overwritten. *)
Definition setTextContent (n : nat) (v : option string) : M unit :=
  let s := match v with Some s => s | None => "" end in
  x ← getNode n;
  (if canHaveChildren x then
     removeAllChildren n ;;
     if Js.truthy s then insertTextChild n s else ret tt
   else modify n (withData s)) ;;
  record (SetTextContent n s).

(** [element.innerHTML = ""]: an element loses all its children; other
    nodes have no such attribute and only get a plain property. *)
Definition clearInnerHTML (n : nat) : M unit :=
  x ← getNode n;
  if isElement x then
    removeAllChildren n ;; record (SetInnerHTML n "")
  else ret tt.

End Dom.

(** ** The virtual DOM: [createDOMMap], the patch helpers and [diffDOM] *)

Module Vdom.
Import Dom.

(** *** Parsed markup

    What [DOMParser] hands back below [doc.body]: a finite tree of
    elements, text and comments. [ref] is the identity of the node. *)

Inductive nodeKind := Element | Text | Comment.

Definition nodeTypeOf (k : nodeKind) : Z :=
  match k with Element => 1 | Text => 3 | Comment => 8 end.

#[local] Unset Elimination Schemes.

Inductive domNode :=
  DomNode (ref : nat) (kind : nodeKind) (tagName : string)
          (attrs : list (string * string)) (nodeValue : string)
          (childNodes : list domNode).

Definition ref (n : domNode) : nat := let 'DomNode r _ _ _ _ _ := n in r.
Definition nodeType (n : domNode) : Z := let 'DomNode _ k _ _ _ _ := n in nodeTypeOf k.
Definition tagName (n : domNode) : string := let 'DomNode _ _ t _ _ _ := n in t.
Definition attrs (n : domNode) : list (string * string) :=
  let 'DomNode _ _ _ a _ _ := n in a.
Definition childNodes (n : domNode) : list domNode :=
  let 'DomNode _ _ _ _ _ c := n in c.

(** [node.textContent]: the data of a text or comment node; for an
    element, the text of its descendants in document order, comments
    left out. *)
Fixpoint textContent (n : domNode) : string :=
  match n with
  | DomNode _ Element _ _ _ kids =>
      (fix go (l : list domNode) : string :=
         match l with
         | [] => ""
         | DomNode _ Comment _ _ _ _ :: r => go r
         | k :: r => textContent k +:+ go r
         end) kids
  | DomNode _ _ _ _ d _ => d
  end.

(** [stringToHTML]: the body of the document that the platform's
    [DOMParser] makes of the markup. The parser is the browser's; it is a
    parameter here. It accepts every string. *)
Definition stringToHTML (parseFromString : string -> domNode) (domString : string)
  : domNode :=
  parseFromString domString.

(** *** The intermediate tree *)

Record attribute := Attribute { name : string; value : option string }.

Inductive details := Details {
  node : nat;
  content : option string;
  attributes : list attribute;
  type : string;
  isSVG : bool;
  children : list details
}.

#[local] Set Elimination Schemes.

#[global] Instance attribute_eq_dec : EqDecision attribute.
Proof. solve_decision. Defined.

Definition getAttributes (attributes : list (string * string)) : list attribute :=
  List.map (fun attribute => Attribute (fst attribute) (Some (snd attribute))) attributes.

Fixpoint createDOMMapNode (isSVG : bool) (node : domNode) : details :=
  match node with
  | DomNode r k tag atts _ kids =>
      let type :=
        if nodeType node =? 3 then "text"
        else if nodeType node =? 8 then "comment"
        else Js.toLowerCase tag in
      let attributes := if nodeType node =? 1 then getAttributes atts else [] in
      let content :=
        if (0 <? length kids)%nat then None else Some (textContent node) in
      let isSVG' := isSVG || String.eqb type "svg" in
      Details r content attributes type isSVG' (List.map (createDOMMapNode isSVG') kids)
  end.

Definition createDOMMap (element : domNode) (isSVG : bool) : list details :=
  List.map (createDOMMapNode isSVG) (childNodes element).

(** *** Inline styles *)

(** One step of the [reduce] in [getStyleMap]. *)
Definition styleEntry (map : list (string * string)) (style : string)
  : list (string * string) :=
  let entry := Js.trim style in
  if Js.indexOf ":" entry >? 0 then
    match Js.split ":" entry with
    | name :: value :: _ =>
        map ++ [(if Js.truthy name then Js.trim name else "",
                 if Js.truthy value then Js.trim value else "")]
    | [name] => map ++ [(if Js.truthy name then Js.trim name else "", "")]
    | [] => map
    end
  else map.

Definition getStyleMap (styles : string) : list (string * string) :=
  fold_left styleEntry (Js.split ";" styles) [].

(** Both callers pass the property names themselves (strings), so
    [style.name] is [undefined] for every item. *)
Definition removeStyles (element : nat) (styles : list string) : M unit :=
  forEach (fun _ => setStyleUndefined element) styles.

Definition changeStyles (element : nat) (styles : list (string * string)) : M unit :=
  forEach (fun style => setStyleProperty element (fst style) (snd style)) styles.

(** [styles] is the attribute value; [null.split] is a [TypeError]. *)
Definition diffStyles (element : nat) (styles : option string) : M unit :=
  match styles with
  | None => throw TypeError
  | Some styles =>
      let styleMap := getStyleMap styles in
      current ← getStyle element;
      let remove :=
        List.filter (fun style =>
          match List.find (fun newStyle =>
                  String.eqb (fst newStyle) (fst style)
                  && String.eqb (snd newStyle) (snd style)) styleMap with
          | None => true
          | Some _ => false
          end) current in
      removeStyles element (List.map fst remove) ;;
      changeStyles element styleMap
  end.

(** *** Attributes *)

Definition removeAttributes (element : nat) (attributes : list attribute) : M unit :=
  forEach (fun attribute =>
    if String.eqb (name attribute) "class" then setClassName element ""
    else if String.eqb (name attribute) "style" then
      current ← getStyle element;
      removeStyles element (List.map fst current)
    else removeAttribute element (name attribute)) attributes.

(** [attribute.value || true], as [setAttribute] serialises it. *)
Definition valueOrTrue (v : option string) : string :=
  match v with
  | Some s => if Js.truthy s then s else "true"
  | None => "true"
  end.

Definition addAttributes (element : nat) (attributes : list attribute) : M unit :=
  forEach (fun attribute =>
    if String.eqb (name attribute) "class" then
      setClassName element (domString (value attribute))
    else if String.eqb (name attribute) "style" then
      diffStyles element (value attribute)
    else setAttribute element (name attribute) (valueOrTrue (value attribute)))
    attributes.

(** [find]: the name is neither defined nor imported by the module, so
    the call in [diffAttributes] goes to the global object. In a browser
    that is [window.find], which looks for a string on the page and
    answers with a boolean: its first argument is converted to a string,
    the callback is taken for the flag [aCaseSensitive]. Where the
    global object has no [find], evaluating the name is a
    [ReferenceError]. *)
Inductive globalObject :=
| Window (find : string -> bool)
| NoFind.

(** [String(arr)] for an array of attribute items: each item reads
    ["[object Object]"], joined by commas. *)
Definition arrayToString (arr : list attribute) : string :=
  String.concat "," (List.map (fun _ => "[object Object]") arr).

Definition find (global : globalObject) (arr : list attribute)
    (callback : attribute -> bool) : M bool :=
  match global with
  | Window find => ret (find (arrayToString arr))
  | NoFind => throw ReferenceError
  end.

(** What [x.value] evaluates to: the value of an attribute item, or
    [undefined] where [x] is a primitive without such a property. *)
Inductive valueProperty :=
| Undefined
| ValueOf (v : option string).

#[global] Instance valueProperty_eq_dec : EqDecision valueProperty.
Proof. solve_decision. Defined.

Definition valueOfBoolean (b : bool) : valueProperty := Undefined.

(** [Array.prototype.filter] with a callback that may throw. *)
Fixpoint filterM {A} (f : A -> M bool) (l : list A) : M (list A) :=
  match l with
  | [] => ret []
  | x :: r =>
      keep ← f x;
      rest ← filterM f r;
      ret (if keep : bool then x :: rest else rest)
  end.

Definition getRemovedAttributes (template existing : details) : list attribute :=
  List.filter (fun attribute =>
    match List.find (fun newAttribute =>
            String.eqb (name attribute) (name newAttribute)) (attributes template) with
    | None => true
    | Some _ => false
    end) (attributes existing).

(** [x === undefined] for a boolean [x]. *)
Definition isUndefined (b : bool) : bool := false.

(** [newAttributes] is what the global [find] returned, a boolean: it
    is not [undefined], and its [value] is. *)
Definition getChangingAttributes (global : globalObject) (template existing : details)
  : M (list attribute) :=
  filterM (fun attribute =>
    newAttributes ← find global (attributes existing) (fun existingAttribute =>
      String.eqb (name attribute) (name existingAttribute));
    ret (isUndefined newAttributes
         || negb (bool_decide (valueOfBoolean newAttributes
                               = ValueOf (value attribute)))))
    (attributes template).

Definition diffAttributes (global : globalObject) (template existing : details)
  : M unit :=
  let getRemovedAttributes := getRemovedAttributes template existing in
  getChangingAttributes ← getChangingAttributes global template existing;
  addAttributes (node existing) getChangingAttributes ;;
  removeAttributes (node existing) getRemovedAttributes.

(** *** Building live nodes *)

Fixpoint createNode (element : details) : M nat :=
  node ← (if String.eqb (type element) "text" then createTextNode (content element)
          else if String.eqb (type element) "comment" then createComment (content element)
          else if isSVG element then createElementNS_svg (type element)
          else createElement (type element));
  addAttributes node (attributes element) ;;
  (if (0 <? length (children element))%nat then
     forEach (fun childElement =>
       child ← createNode childElement; appendChild node child) (children element)
   else if negb (String.eqb (type element) "text") then
     setTextContent node (content element)
   else ret tt) ;;
  ret node.

(** *** The differ *)

(** [x.parentNode.method(...)]: a detached [x] has a [null] parent, and
    the method lookup on it is a [TypeError]. *)
Definition parentOf (n : nat) : M nat :=
  p ← parentNode n;
  match p with
  | Some p => ret p
  | None => throw TypeError
  end.

(** The loop [for (; count > 0; count--)] over the trailing handles. *)
Fixpoint removeExcess (domMap : list details) (count : nat) : M unit :=
  match count with
  | O => ret tt
  | S count' =>
      match domMap !! (length domMap - count)%nat with
      | None => throw TypeError
      | Some child =>
          p ← parentOf (node child);
          removeChild p (node child) ;;
          removeExcess domMap count'
      end
  end.

Fixpoint forEachIndexed {A} (f : A -> nat -> M unit) (l : list A) (index : nat) : M unit :=
  match l with
  | [] => ret tt
  | x :: r => f x index ;; forEachIndexed f r (S index)
  end.

(** [diffDOM], with the callback of its [forEach] as a parameter. *)
Definition diffDOMWith (visit : details -> option details -> nat -> M unit)
    (templateMap domMap : list details) (element : nat) : M unit :=
  let count := Z.of_nat (length domMap) - Z.of_nat (length templateMap) in
  (if count >? 0 then removeExcess domMap (Z.to_nat count) else ret tt) ;;
  forEachIndexed (fun node index => visit node (domMap !! index) element) templateMap 0%nat.

(** The callback: one template node against the handle at its index. *)
Fixpoint diffChild (global : globalObject) (templateChildNode : details)
    (existingChildNode : option details) (element : nat) : M unit :=
  match existingChildNode with
  | None =>
      (* 1. nothing at this index yet *)
      fresh ← createNode templateChildNode;
      appendChild element fresh
  | Some existingChildNode =>
      if negb (String.eqb (type templateChildNode) (type existingChildNode)) then
        (* 2. another type: replace *)
        p ← parentOf (node existingChildNode);
        fresh ← createNode templateChildNode;
        replaceChild p fresh (node existingChildNode)
      else
        (* 3. attributes *)
        diffAttributes global templateChildNode existingChildNode ;;
        (* 4. content *)
        if negb (bool_decide (content templateChildNode = content existingChildNode)) then
          setTextContent (node existingChildNode) (content templateChildNode)
        (* 5a. children gone *)
        else if (0 <? length (children existingChildNode))%nat
                && (length (children templateChildNode) <? 1)%nat then
          clearInnerHTML (node existingChildNode)
        (* 5b. children where there were none *)
        else if (length (children existingChildNode) <? 1)%nat
                && (0 <? length (children templateChildNode))%nat then
          fragment ← createDocumentFragment;
          diffDOMWith (diffChild global) (children templateChildNode)
                      (children existingChildNode) fragment ;;
          appendChild element fragment
        (* 5c. children on both sides *)
        else if (0 <? length (children templateChildNode))%nat then
          diffDOMWith (diffChild global) (children templateChildNode)
                      (children existingChildNode) (node existingChildNode)
        else ret tt
  end.

Definition diffDOM (global : globalObject) (templateMap domMap : list details)
    (element : nat) : M unit :=
  diffDOMWith (diffChild global) templateMap domMap element.

Definition renderMapToDOM (templateMap : list details) (root : nat) : M unit :=
  forEach (fun element => appendChild root (node element)) templateMap.

End Vdom.

(** ** Vocabulary for the properties of the virtual DOM *)

Module VdomSpec.
Import Dom Vdom.

(** [within d l]: [d] occurs in the forest [l], at any depth. *)
Inductive within : details -> list details -> Prop :=
| within_here d l : In d l -> within d l
| within_below d e l : In e l -> within d (children e) -> within d l.

(** [descendantOf n e]: the parsed node [n] lies below [e]. *)
Inductive descendantOf : domNode -> domNode -> Prop :=
| descendant_child n e : In n (childNodes e) -> descendantOf n e
| descendant_below n m e :
    In m (childNodes e) -> descendantOf n m -> descendantOf n e.

#[local] Unset Elimination Schemes.

(** Two intermediate trees with the same types, attributes, content and
    children at every position; the node references and the SVG flag,
    which the differ never compares, are free. *)
Inductive sameShape : details -> details -> Prop :=
| sameShape_intro t e :
    type t = type e ->
    attributes t = attributes e ->
    content t = content e ->
    Forall2 sameShape (children t) (children e) ->
    sameShape t e.

(** Two parsed trees of the same markup: equal but for the identity of
    their nodes. *)
Inductive sameMarkup : domNode -> domNode -> Prop :=
| sameMarkup_intro r r' k tag atts v kids kids' :
    Forall2 sameMarkup kids kids' ->
    sameMarkup (DomNode r k tag atts v kids) (DomNode r' k tag atts v kids').

#[local] Set Elimination Schemes.

(** A tree without attributes, at any depth. *)
Fixpoint bare (t : details) : bool :=
  match attributes t with [] => true | _ => false end
  && forallb bare (children t).

(** Attributes that go through [setAttribute] and [removeAttribute]
    (neither [class] nor [style]). *)
Definition plainName (a : attribute) : bool :=
  negb (String.eqb (name a) "class") && negb (String.eqb (name a) "style").

(** The attribute list after [setAttribute] for each of [l], and after
    [removeAttribute] for each of [l]. *)
Definition applied (l : list attribute) (atts : list (string * string))
  : list (string * string) :=
  fold_left (fun acc a => assocSet (name a) (valueOrTrue (value a)) acc) l atts.

Definition dropped (l : list attribute) (atts : list (string * string))
  : list (string * string) :=
  fold_left (fun acc a => assocRemove (name a) acc) l atts.

(** The value [addAttributes] writes for an attribute: [className] takes
    the value as it is, [setAttribute] gets [value || true]. *)
Definition writtenValue (a : attribute) : string :=
  if String.eqb (name a) "class" then domString (value a)
  else valueOrTrue (value a).

Definition writeOf (n : nat) (a : attribute) : mutation :=
  SetAttribute n (name a) (writtenValue a).

(** The attribute list after [addAttributes] for each of [l], none of
    them [style]. *)
Definition assigned (l : list attribute) (atts : list (string * string))
  : list (string * string) :=
  fold_left (fun acc a => assocSet (name a) (writtenValue a) acc) l atts.

Definition writtenIn (k : string) (l : list attribute) : option string :=
  writtenValue <$> List.find (fun a => String.eqb (name a) k) l.

Definition notStyle (a : attribute) : bool := negb (String.eqb (name a) "style").

(** The attribute list after [removeAttributes] for each of [l], none
    of them [style], on an HTML element: [class] is set to the empty
    string, any other name is removed. *)
Definition cleared (l : list attribute) (atts : list (string * string))
  : list (string * string) :=
  fold_left (fun acc a => if String.eqb (name a) "class" then assocSet "class" "" acc
                          else assocRemove (name a) acc) l atts.

(** The attributes that [removeAttributes] can take from an element: no
    [style], and no [class] on an SVG element. *)
Definition clearable (svg : bool) (a : attribute) : bool :=
  notStyle a && negb (svg && String.eqb (name a) "class").

(** The write that [removeAttributes] makes for such an attribute. *)
Definition removalOf (n : nat) (a : attribute) : mutation :=
  if String.eqb (name a) "class" then SetAttribute n "class" ""
  else RemoveAttribute n (name a).

Definition hasName (k : string) (l : list attribute) : bool :=
  existsb (fun a => String.eqb (name a) k) l.

(** The value a list of attributes gives to a name ([null] counts as no
    value). *)
Definition valueIn (k : string) (l : list attribute) : option string :=
  a ← List.find (fun a => String.eqb (name a) k) l; value a.

Definition nonEmptyValue (a : attribute) : bool :=
  match value a with
  | Some s => Js.truthy s
  | None => false
  end.

Definition attributeOf (k : nat) (name : string) (d : document) : option string :=
  x ← store d !! k; assocGet name (attrList x).

Definition childrenOf (k : nat) (d : document) : list nat :=
  match store d !! k with
  | Some x => childRefs x
  | None => []
  end.

Definition parentIn (k : nat) (d : document) : option nat :=
  x ← store d !! k; parentRef x.

(** The list without the references in [ks]. *)
Definition without (ks : list nat) (l : list nat) : list nat :=
  List.filter (fun k => negb (existsb (Nat.eqb k) ks)) l.

(** The node a journal entry writes to. *)
Definition subject (m : mutation) : nat :=
  match m with
  | Created n | SetAttribute n _ _ | RemoveAttribute n _ | SetStyle n _ _
  | SetTextContent n _ | SetInnerHTML n _ => n
  | AppendChild p _ | RemoveChild p _ | ReplaceChild p _ _ => p
  end.

(** *** Writes that leave the tree alone

    [skeleton x]: the node without its attributes and declarations.
    [sameTree d d']: the two documents have the same nodes, with the
    same kind, name, data, children and parent. [attributesOnly m]:
    whether it returns or throws, the computation [m] keeps the tree
    and journals nothing but attribute and style writes. *)
Definition skeleton (x : liveNode) : liveNode := withStyle [] (withAttrs [] x).

Definition sameTree (d d' : document) : Prop :=
  nextRef d' = nextRef d
  /\ forall k, (skeleton <$> store d' !! k) = (skeleton <$> store d !! k).

Definition isAttributeWrite (m : mutation) : bool :=
  match m with
  | SetAttribute _ _ _ | RemoveAttribute _ _ | SetStyle _ _ _ => true
  | _ => false
  end.

Definition attributesOnly {A} (m : M A) : Prop :=
  forall d r d', m d = (r, d') ->
    sameTree d d'
    /\ exists js, journal d' = journal d ++ js /\ forallb isAttributeWrite js = true.

(** *** Leaves

    [leafPair t e]: two handles of one type, without attributes and
    without children, as the parser makes them of text and comments.
    [leafWrite t e]: what the visit of such a pair writes. *)
(** The text a childless template gives its node. *)
Definition leafText (t : details) : string :=
  match content t with Some s => s | None => "" end.




(** *** What [createNode] builds *)

Definition isCharacterData (t : details) : bool :=
  String.eqb (type t) "text" || String.eqb (type t) "comment".

(** The attributes that [addAttributes] can write on an element: no
    [class] on an SVG element, no [null] for [style]. *)
Definition writable (svg : bool) (a : attribute) : bool :=
  if String.eqb (name a) "class" then negb svg
  else if String.eqb (name a) "style" then
    match value a with Some _ => true | None => false end
  else true.

(** The templates [createNode] builds without an exception: text and
    comment nodes carry no attributes and no children (as the parser
    makes them), and the attributes of elements are writable. *)
Fixpoint buildable (t : details) : bool :=
  (if isCharacterData t then
     match attributes t, children t with
     | [], [] => true
     | _, _ => false
     end
   else forallb (writable (isSVG t)) (attributes t))
  && forallb buildable (children t).

Definition afterStyle (styles : string) (decls : list (string * string))
  : list (string * string) :=
  fold_left (fun acc style =>
               if Js.truthy (snd style) then assocSet (fst style) (snd style) acc
               else assocRemove (fst style) acc)
            (getStyleMap styles) decls.

(** One attribute of the template, written on an element. *)
Definition writeAttribute (x : liveNode) (a : attribute) : liveNode :=
  if String.eqb (name a) "class" then
    withAttrs (assocSet "class" (domString (value a)) (attrList x)) x
  else if String.eqb (name a) "style" then
    match value a with
    | Some styles => withStyle (afterStyle styles (styleDecls x)) x
    | None => x
    end
  else withAttrs (assocSet (name a) (valueOrTrue (value a)) (attrList x)) x.

Definition written (l : list attribute) (x : liveNode) : liveNode :=
  fold_left writeAttribute l x.

(** The node of [t] itself, before it gets children and a parent. *)
Definition builtNode (t : details) : liveNode :=
  if String.eqb (type t) "text" then freshNode TEXT_NODE "" false (domString (content t))
  else if String.eqb (type t) "comment" then freshNode COMMENT_NODE "" false (leafText t)
  else written (attributes t) (freshNode ELEMENT_NODE (type t) (isSVG t) "").

(** The children of the node built for a childless template: none, or
    for an element with text, the one text node holding it. *)
Definition leafChildren (hi : nat) (d : document) (r : nat) (t : details)
    (kids : list nat) : Prop :=
  if isCharacterData t || negb (Js.truthy (leafText t)) then kids = []
  else exists tx, kids = [tx] /\ (r < tx < hi)%nat
         /\ store d !! tx = Some (LiveNode TEXT_NODE "" false [] [] (leafText t) []
                                          (Some r)).

#[local] Unset Elimination Schemes.

(** [materialises hi d parent r t]: in [d], the node [r] with parent
    [parent] is the live subtree of the template [t]: the node of [t]
    with its attributes as [addAttributes] writes them, and below it one
    subtree per child of [t], in order, each pointing back to its parent.
    All of it lies between [r] and [hi]. *)
Inductive materialises (hi : nat) (d : document)
  : option nat -> nat -> details -> Prop :=
| materialises_node parent r t kids :
    (r < hi)%nat ->
    store d !! r = Some (withParent parent (withChildren kids (builtNode t))) ->
    (children t <> [] ->
     Forall2 (fun c tc => (r < c)%nat /\ materialises hi d (Some r) c tc)
             kids (children t)) ->
    (children t = [] -> leafChildren hi d r t kids) ->
    materialises hi d parent r t.

#[local] Set Elimination Schemes.

(** [builds t]: from any document, [createNode t] returns the next free
    reference, leaves every older node as it was, and has put the live
    subtree of [t] there, detached, writing to new nodes only. *)
Definition builds (t : details) : Prop :=
  forall d, exists d',
    createNode t d = (Ok (nextRef d), d')
    /\ (nextRef d < nextRef d')%nat
    /\ (forall k, (k < nextRef d)%nat -> store d' !! k = store d !! k)
    /\ materialises (nextRef d') d' None (nextRef d) t
    /\ exists js, journal d' = journal d ++ js
         /\ Forall (fun m => (nextRef d <= subject m)%nat) js.

(** A sample page: the root [0] with one [div] child [1] carrying the
    attributes [a="1"] and [b="2"]. *)
Definition sampleDiv (atts : list (string * string)) (kids : list nat)
    (parent : option nat) : liveNode :=
  LiveNode 1 "div" false atts [] "" kids parent.

Definition samplePage : document :=
  Document (<[0%nat := sampleDiv [] [1%nat] None]>
            (<[1%nat := sampleDiv [("a", "1"); ("b", "2")] [] (Some 0%nat)]> ∅))
           2 [].

(** The handles of the attribute example: the live [div] with [a], [b]
    and the next [div] with [b], [c]. *)
Definition currentAB : details :=
  Details 1 (Some "") [Attribute "a" (Some "1"); Attribute "b" (Some "2")] "div" false [].
Definition nextBC : details :=
  Details 100 (Some "") [Attribute "b" (Some "3"); Attribute "c" (Some "4")] "div" false [].

(** A next [div] with [b] and a class. *)
Definition nextWithClass : details :=
  Details 100 (Some "") [Attribute "b" (Some "3"); Attribute "class" (Some "y")]
          "div" false [].

(** A live [div] with a class, its handle, and a next [div] without. *)
Definition classPage : document :=
  Document (<[0%nat := sampleDiv [] [1%nat] None]>
            (<[1%nat := sampleDiv [("class", "x")] [] (Some 0%nat)]> ∅))
           2 [].

Definition classedDiv : details :=
  Details 1 (Some "") [Attribute "class" (Some "x")] "div" false [].

Definition bareDiv : details := Details 100 (Some "") [] "div" false [].

(** A live [input] whose [disabled] has been written as ["true"], and
    the handle a fresh reading of that node gives. *)
Definition inputPage : document :=
  Document (<[0%nat := sampleDiv [] [1%nat] None]>
            (<[1%nat := LiveNode 1 "input" false [("disabled", "true")] [] "" []
                                 (Some 0%nat)]> ∅))
           2 [].

Definition inputHandle : details :=
  Details 1 (Some "") [Attribute "disabled" (Some "true")] "input" false [].

(** Parsed markup for [<ul><li>one</li><li></li></ul><!--c-->]. *)
Definition sampleBody : domNode :=
  DomNode 10 Element "BODY" [] ""
    [DomNode 11 Element "UL" [("class", "list")] ""
       [DomNode 12 Element "LI" [] "" [DomNode 13 Text "" [] "one" []];
        DomNode 14 Element "LI" [] "" []];
     DomNode 15 Comment "" [] "c" []].

(** A list of five items under the root [0], their handles, and a next
    tree with the first two of them. *)
Definition item (k : nat) : details := Details k (Some "") [] "li" false [].

Definition fiveHandles : list details := [item 1; item 2; item 3; item 4; item 5].

Definition twoItems : list details := [item 101; item 102].

Definition liveItem : liveNode := LiveNode 1 "li" false [] [] "" [] (Some 0%nat).

Definition fiveItems : document :=
  Document (<[0%nat := LiveNode 1 "ul" false [] [] "" [1; 2; 3; 4; 5]%nat None]>
            (<[1%nat := liveItem]> (<[2%nat := liveItem]> (<[3%nat := liveItem]>
            (<[4%nat := liveItem]> (<[5%nat := liveItem]> ∅))))))
           6 [].

(** A page with one empty [div] (node [1]) under the root [0]; the
    handle of that [div] with a content that already equals the one of
    the next tree; and the next tree [<div>hi</div>]. *)
Definition emptyDivPage : document :=
  Document (<[0%nat := sampleDiv [] [1%nat] None]>
            (<[1%nat := sampleDiv [] [] (Some 0%nat)]> ∅))
           2 [].

Definition emptyDivHandle : details := Details 1 None [] "div" false [].

Definition divWithText : details :=
  Details 100 None [] "div" false [Details 101 (Some "hi") [] "text" false []].

(** Every reference in use is below the allocation counter. *)
Definition allocated (d : document) : Prop :=
  forall k, is_Some (store d !! k) -> (k < nextRef d)%nat.

Definition emptyItem : details := Details 14 (Some "") [] "li" false [].

Definition emptyDocument : document := Document ∅ 0 [].

(** A browser whose page does not show the text [window.find] is asked
    for. *)
Definition browser : globalObject := Window (fun _ => false).

(** Two passes in a row with the same next tree and the same handles. *)
Definition firstPass : outcome unit * document :=
  diffDOM browser [nextBC] [currentAB] 0%nat samplePage.
Definition secondPass : outcome unit * document :=
  diffDOM browser [nextBC] [currentAB] 0%nat (snd firstPass).

(** [<input disabled>]: the parser gives the attribute the empty value. *)
Definition disabledInput : details :=
  Details 20 (Some "") [Attribute "disabled" (Some "")] "input" false [].

(** *** What no operation of the differ does

    [grows d d']: every node of [d] is still a node of [d'], of the same
    kind, and every reference of [d'] is below its allocation counter.
    [steady m]: run on a document whose references are all allocated,
    the computation [m] leaves such a document, whether it returns or
    throws. *)
Definition grows (d d' : document) : Prop :=
  allocated d'
  /\ (nextRef d <= nextRef d')%nat
  /\ forall k x, store d !! k = Some x ->
       exists x', store d' !! k = Some x' /\ Dom.nodeType x' = Dom.nodeType x.

Definition steady {A} (m : M A) : Prop :=
  forall d r d', allocated d -> m d = (r, d') -> grows d d'.

(** [differsOnlyAt t' e' next retained element p]: the two lists have
    the same shape everywhere but at one position, at any depth, where
    the next tree has [t'] and the retained tree has [e'], and outside
    that position no node has attributes; [p] is the node under which
    that pair is visited when the pass over the lists is called with
    [element]: [element] itself at the top, the live node of the
    enclosing handle below. *)
Inductive differsOnlyAt (t' e' : details)
  : list details -> list details -> nat -> nat -> Prop :=
| differs_here front back front' back' element :
    Forall2 sameShape front front' ->
    Forall2 sameShape back back' ->
    forallb bare front = true ->
    forallb bare back = true ->
    differsOnlyAt t' e' (front ++ t' :: back) (front' ++ e' :: back') element element
| differs_below front back front' back' t e element p :
    Forall2 sameShape front front' ->
    Forall2 sameShape back back' ->
    forallb bare front = true ->
    forallb bare back = true ->
    type t = type e ->
    attributes t = [] ->
    attributes e = [] ->
    content t = content e ->
    differsOnlyAt t' e' (children t) (children e) (node e) p ->
    differsOnlyAt t' e' (front ++ t :: back) (front' ++ e :: back') element p.

(** The next tree without the references to its own parsed nodes. *)
Fixpoint forgetNode (t : details) : details :=
  match t with
  | Details _ content attributes type isSVG children =>
      Details 0 content attributes type isSVG (List.map forgetNode children)
  end.

(** A document whose child lists and parent pointers agree: every
    child of a node names that node as its parent. *)
Definition consistent (d : document) : Prop :=
  forall k x c, store d !! k = Some x -> In c (childRefs x) -> parentIn c d = Some k.

(** *** Parsed trees that [createNode] can build again

    No element is named [text] or [comment] (its type would be the one
    of a text or comment node), text and comment nodes have no child
    nodes, and no element inside [svg] has a [class] attribute. *)
Fixpoint rebuildable (isSVG : bool) (n : domNode) : bool :=
  match n with
  | DomNode _ Element tag atts _ kids =>
      let type := Js.toLowerCase tag in
      let isSVG' := isSVG || String.eqb type "svg" in
      negb (String.eqb type "text") && negb (String.eqb type "comment")
      && forallb (fun a => negb (String.eqb (fst a) "class" && isSVG')) atts
      && forallb (rebuildable isSVG') kids
  | DomNode _ _ _ _ _ kids =>
      match kids with [] => true | _ => false end
  end.

(** The parsed [<text x="10">hi</text>] of an SVG drawing. *)
Definition svgText : domNode :=
  DomNode 31 Element "text" [("x", "10")] "" [DomNode 32 Text "" [] "hi" []].

(** The handle of the first item of [sampleBody], [<li>one</li>]. *)
Definition filledItem : details :=
  Details 12 None [] "li" false [Details 13 (Some "one") [] "text" false []].

(** A page with a text node [1] under the root. *)
Definition textPage : document :=
  Document (<[0%nat := sampleDiv [] [1%nat] None]>
            (<[1%nat := LiveNode 3 "" false [] [] "old" [] (Some 0%nat)]> ∅))
           2 [].

(** A page with a [div] [1] under the root that holds a [div] [2]. *)
Definition nestedPage : document :=
  Document (<[0%nat := sampleDiv [] [1%nat] None]>
            (<[1%nat := sampleDiv [] [2%nat] (Some 0%nat)]>
            (<[2%nat := sampleDiv [] [] (Some 1%nat)]> ∅)))
           3 [].

(** A root without children, and an item [1] that has no parent. *)
Definition detachedPage : document :=
  Document (<[0%nat := sampleDiv [] [] None]>
            (<[1%nat := LiveNode 1 "li" false [] [] "" [] None]> ∅))
           2 [].

(** An empty root [0], and beside it a parsed body [1] with the two
    items [2] and [3]. *)
Definition importPage : document :=
  Document (<[0%nat := sampleDiv [] [] None]>
            (<[1%nat := sampleDiv [] [2; 3]%nat None]>
            (<[2%nat := LiveNode 1 "li" false [] [] "" [] (Some 1%nat)]>
            (<[3%nat := LiveNode 1 "li" false [] [] "" [] (Some 1%nat)]> ∅))))
           4 [].

(** A page with a list [1] under the root that holds one item [2]. *)
Definition listPage : document :=
  Document (<[0%nat := sampleDiv [] [1%nat] None]>
            (<[1%nat := LiveNode 1 "ul" false [] [] "" [2%nat] (Some 0%nat)]>
            (<[2%nat := LiveNode 1 "li" false [] [] "" [] (Some 1%nat)]> ∅)))
           3 [].

(** A page with the list [1], its item [2] and the text [3] of the
    item; the retained tree of the root's children, and a next tree
    that differs from it in that text only. *)
Definition deepPage : document :=
  Document (<[0%nat := sampleDiv [] [1%nat] None]>
            (<[1%nat := LiveNode 1 "ul" false [] [] "" [2%nat] (Some 0%nat)]>
            (<[2%nat := LiveNode 1 "li" false [] [] "" [3%nat] (Some 1%nat)]>
            (<[3%nat := LiveNode 3 "" false [] [] "old" [] (Some 2%nat)]> ∅))))
           4 [].

Definition oldText : details := Details 3 (Some "old") [] "text" false [].
Definition newText : details := Details 103 (Some "new") [] "text" false [].

Definition retainedList : list details :=
  [Details 1 None [] "ul" false [Details 2 None [] "li" false [oldText]]].
Definition nextList : list details :=
  [Details 101 None [] "ul" false [Details 102 None [] "li" false [newText]]].










(** A list of five items with their texts, as the parser reads it (the
    item [k] holds the text node [k + 5]), the live page it was read
    from, and the parsed next markup with two items. *)
Definition parsedItem (k tx : nat) (text : string) : domNode :=
  DomNode k Element "LI" [] "" [DomNode tx Text "" [] text []].

Definition fiveItemsBody : domNode :=
  DomNode 0 Element "UL" [] ""
    [parsedItem 1 6 "1"; parsedItem 2 7 "2"; parsedItem 3 8 "3"; parsedItem 4 9 "4";
     parsedItem 5 10 "5"].

Definition twoItemsBody : domNode :=
  DomNode 100 Element "BODY" [] "" [parsedItem 101 103 "one"; parsedItem 102 104 "two"].

Definition liveLi (tx : nat) : liveNode :=
  LiveNode 1 "li" false [] [] "" [tx] (Some 0%nat).

Definition liveTextIn (p : nat) (text : string) : liveNode :=
  LiveNode 3 "" false [] [] text [] (Some p).

Definition fiveItemsPage : document :=
  Document (<[0%nat := LiveNode 1 "ul" false [] [] "" [1; 2; 3; 4; 5]%nat None]>
            (<[1%nat := liveLi 6]> (<[2%nat := liveLi 7]> (<[3%nat := liveLi 8]>
            (<[4%nat := liveLi 9]> (<[5%nat := liveLi 10]>
            (<[6%nat := liveTextIn 1 "1"]> (<[7%nat := liveTextIn 2 "2"]>
            (<[8%nat := liveTextIn 3 "3"]> (<[9%nat := liveTextIn 4 "4"]>
            (<[10%nat := liveTextIn 5 "5"]> ∅)))))))))))
           11 [].



(** A page with one [div] (node [1]) that has the inline declaration
    [margin: 0]. *)
Definition styledPage : document :=
  Document (<[0%nat := sampleDiv [] [1%nat] None]>
            (<[1%nat := LiveNode 1 "div" false [] [("margin", "0")] "" []
                                 (Some 0%nat)]> ∅))
           2 [].

End VdomSpec.

(** ** The custom-element class [UpgradedElement] *)

Module Element.

(** What a user-supplied [render] may return. *)
Inductive jsValue :=
| JsUndefined
| JsNull
| JsBoolean (b : bool)
| JsNumber (z : Z)
| JsString (s : string)
| JsObject.

Definition isString (v : jsValue) : bool :=
  match v with JsString _ => true | _ => false end.

(** The lifecycle names of [external.js]. *)
Inductive lifecycle :=
| elementDidConnect
| elementDidMount
| elementDidUpdate
| elementPropertyChanged
| elementAttributeChanged
| elementWillUnmount.

#[global] Instance lifecycle_eq_dec : EqDecision lifecycle.
Proof. solve_decision. Defined.

(** The extender class: its name, which lifecycle methods it defines
    ([isFunction(this[name])]) and its static [styles] when they are a
    string. *)
Record extender := Extender {
  constructorName : string;
  defines : lifecycle -> bool;
  styles : option string
}.

(** What a pass can throw: an [Error] of the element itself, or what
    the library, the [render] method or a lifecycle method throws (the
    element has no [try]: the exception goes to the caller). *)
Inductive error :=
| Error (message : string)
| LibraryFailure
| RenderFailure
| HookFailure (name : lifecycle).

Definition noRenderMethod (class : extender) : error :=
  Error ("You must include a render method in element: '"
         +:+ constructorName class +:+ "'").
Definition nonStringTemplate (class : extender) : error :=
  Error ("You attempted to render a non-string template in element: '"
         +:+ constructorName class +:+ "'.").

(** The property [render] of the instance: no function, or a function
    whose call returns a value or throws. *)
Inductive method :=
| NotAFunction
| Returns (v : jsValue)
| Throws.

Section Runtime.

(** The library [omdomdom], which is not part of the sources: its
    virtual nodes, its parser [create] ([None] when the call throws),
    and whether a call of its [render] or [update] comes back
    normally. *)
Variable VNode : Type.
Variable create : string -> option VNode.

(** The field [vDOM]: the empty array of [initialize], a tree made
    by [create], or [null] after a disconnect. *)
Inductive vdomField :=
| EmptyArray
| Tree (v : VNode)
| Null.

Variable renderReturns : VNode -> bool.
Variable updateReturns : VNode -> vdomField -> bool.

(** Everything the element does to its surroundings, in order.
    [HookThrew name]: the call of the lifecycle method [name] that
    was just made ended in an exception. *)
Inductive effect :=
| Called (name : lifecycle)
| AttributeChangedCalled (name : string) (oldValue newValue : option string)
| HookThrew (name : lifecycle)
| StyleTagAppended (css : string)
| Scheduled
| Rendered (v : VNode)
| Updated (next : VNode) (current : vdomField).

Record instance := Instance {
  isFirstRender : bool;
  isDisconnected : bool;
  vDOM : vdomField;
  renderPending : bool;
  effects : list effect
}.

Inductive result :=
| Returned
| Threw (e : error).

Variable class : extender.

(** The lifecycle methods are the extender's code. Whether a call
    returns may depend on all that has happened to the element: the
    effects so far, the call itself included. *)
Variable hookReturns : lifecycle -> list effect -> bool.

Definition emit (e : effect) (this : instance) : instance :=
  Instance (isFirstRender this) (isDisconnected this) (vDOM this)
           (renderPending this) (effects this ++ [e]).

(** The statements after a call that threw are skipped. *)
Definition andThen (r : result * instance) (k : instance -> result * instance)
  : result * instance :=
  match r with
  | (Returned, this) => k this
  | (Threw e, this) => (Threw e, this)
  end.

(** [call] records the call with its arguments. *)
Definition runLifecycle (name : lifecycle) (call : effect) (this : instance)
  : result * instance :=
  if defines class name then
    let this := emit call this in
    if hookReturns name (effects this) then (Returned, this)
    else (Threw (HookFailure name), emit (HookThrew name) this)
  else (Returned, this).

(** What a call of [name], recorded as [call], leaves after the
    effects [before], and whether it throws. *)
Definition hookEffects (name : lifecycle) (call : effect) (before : list effect)
  : list effect :=
  if defines class name then
    call :: (if hookReturns name (before ++ [call]) then [] else [HookThrew name])
  else [].

Definition hookThrows (name : lifecycle) (call : effect) (before : list effect)
  : bool :=
  defines class name && negb (hookReturns name (before ++ [call])).

(** The state the constructor leaves ([initialize]); the two host
    attributes it sets and the property upgrade are not part of the
    render state. *)
Definition initialize : instance :=
  Instance true false EmptyArray false [].

(** Modelled from the spec: the scheduler (module [./scheduler] is not
    in the sources). A request sets the pending flag of this render
    function; any number of requests before the tick leave one pending
    render; the flag is cleared right before the render function runs. *)
Definition schedule (this : instance) : instance :=
  emit Scheduled
    (Instance (isFirstRender this) (isDisconnected this) (vDOM this)
              true (effects this)).

Definition requestRender (this : instance) : instance := schedule this.

Definition renderStyles (this : instance) : instance :=
  match styles class with
  | Some css => emit (StyleTagAppended css) this
  | None => this
  end.

Definition adoptedCallback (this : instance) : instance :=
  Instance (isFirstRender this) false (vDOM this)
           (renderPending this) (effects this).

Definition attributeChangedCallback (name : string)
    (oldValue newValue : option string) (this : instance) : result * instance :=
  if bool_decide (oldValue = newValue) then (Returned, this)
  else runLifecycle elementAttributeChanged
         (AttributeChangedCalled name oldValue newValue) this.

(** [isConnected] is the host's property of that name. *)
Definition connectedCallback (isConnected : bool) (this : instance)
  : result * instance :=
  if isConnected && negb (isDisconnected this) then
    andThen (runLifecycle elementDidConnect (Called elementDidConnect) this)
      (fun this => (Returned, requestRender (renderStyles this)))
  else (Returned, this).

Definition disconnectedCallback (this : instance) : result * instance :=
  andThen (runLifecycle elementWillUnmount (Called elementWillUnmount) this)
    (fun this =>
       (Returned,
        Instance (isFirstRender this) true Null (renderPending this) (effects this))).

Definition getDOMString (render : method) : error + string :=
  match render with
  | NotAFunction => inl (noRenderMethod class)
  | Throws => inl RenderFailure
  | Returns domString =>
      match domString with
      | JsString s => inr s
      | _ => inl (nonStringTemplate class)
      end
  end.

Definition getVDOM (render : method) : error + VNode :=
  match getDOMString render with
  | inl e => inl e
  | inr domString =>
      match create domString with
      | Some v => inr v
      | None => inl LibraryFailure
      end
  end.

Definition getInitialRenderState (render : method) (this : instance)
  : result * instance :=
  match getVDOM render with
  | inl e => (Threw e, this)
  | inr v =>
      let this := Instance (isFirstRender this) (isDisconnected this) (Tree v)
                           (renderPending this) (effects this) in
      if renderReturns v then
        andThen (runLifecycle elementDidMount (Called elementDidMount)
                              (emit (Rendered v) this))
          (fun this =>
             (Returned, Instance false (isDisconnected this) (vDOM this)
                                 (renderPending this) (effects this)))
      else (Threw LibraryFailure, this)
  end.

Definition getNextRenderState (render : method) (this : instance)
  : result * instance :=
  match getVDOM render with
  | inl e => (Threw e, this)
  | inr nextVDOM =>
      if updateReturns nextVDOM (vDOM this) then
        runLifecycle elementDidUpdate (Called elementDidUpdate)
                     (emit (Updated nextVDOM (vDOM this)) this)
      else (Threw LibraryFailure, this)
  end.

Definition renderDOM (render : method) (this : instance) : result * instance :=
  if isFirstRender this then getInitialRenderState render this
  else getNextRenderState render this.

(** A pass in words: the library call it makes for the tree [v], the
    effect of that call, and the lifecycle method it runs after it. *)
Definition libraryReturns (v : VNode) (this : instance) : bool :=
  if isFirstRender this then renderReturns v else updateReturns v (vDOM this).

Definition passEffect (v : VNode) (this : instance) : effect :=
  if isFirstRender this then Rendered v else Updated v (vDOM this).

Definition passHook (this : instance) : lifecycle :=
  if isFirstRender this then elementDidMount else elementDidUpdate.

(** What reaches the element from outside. [Frame render] is the tick
    of the scheduler, with the [render] method as it is at that time. *)
Inductive notification :=
| Attach (isConnected : bool)
| Detach
| Adopt
| AttributeChanged (name : string) (oldValue newValue : option string)
| RequestRender
| Frame (render : method).

Definition flush (render : method) (this : instance) : result * instance :=
  if renderPending this then
    renderDOM render
      (Instance (isFirstRender this) (isDisconnected this) (vDOM this)
                false (effects this))
  else (Returned, this).

Definition notify (n : notification) (this : instance) : result * instance :=
  match n with
  | Attach isConnected => connectedCallback isConnected this
  | Detach => disconnectedCallback this
  | Adopt => (Returned, adoptedCallback this)
  | AttributeChanged name oldValue newValue =>
      attributeChangedCallback name oldValue newValue this
  | RequestRender => (Returned, requestRender this)
  | Frame render => flush render this
  end.

(** An exception of one notification goes to the host; the element
    stays as the exception left it and the next notification runs. *)
Definition run (ns : list notification) (this : instance) : instance :=
  fold_left (fun this n => snd (notify n this)) ns this.

(** The part of the effects that reconciliation passes leave. *)
Definition isPassHook (name : lifecycle) : bool :=
  bool_decide (name = elementDidMount) || bool_decide (name = elementDidUpdate).

Definition ofPass (e : effect) : bool :=
  match e with
  | Rendered _ | Updated _ _ => true
  | Called name | HookThrew name => isPassHook name
  | _ => false
  end.

Definition passLog (this : instance) : list effect :=
  List.filter ofPass (effects this).

(** An initial render whose [elementDidMount] threw; an update pass,
    with whether its [elementDidUpdate] returned. *)
Definition failedMount (v : VNode) : list effect :=
  [Rendered v; Called elementDidMount; HookThrew elementDidMount].

Definition updatePass (p : VNode * vdomField * bool) : list effect :=
  Updated (fst (fst p)) (snd (fst p))
  :: Called elementDidUpdate
  :: (if snd p then [] else [HookThrew elementDidUpdate]).


(** The pass log of an instance: initial renders whose mount call
    threw ([vs], none when [elementDidMount] never throws); then, once
    [isFirstRender] is false, one render with the mount call that
    returned, and update passes after it. *)
Definition passInvariant (this : instance) : Prop :=
  exists vs,
    ((forall h, hookReturns elementDidMount h = true) -> vs = [])
    /\ ((isFirstRender this = true /\ passLog this = flat_map failedMount vs)
        \/ (isFirstRender this = false
            /\ exists v ps, passLog this
                 = flat_map failedMount vs
                   ++ Rendered v :: Called elementDidMount
                      :: flat_map updatePass ps)).

(** The trees of the passes: [noUpdate e] for an effect that is no
    update, [givenTree v e] for one that is no update or an update
    against [v] or against [null]. *)
Definition noUpdate (e : effect) : Prop :=
  match e with
  | Updated _ _ => False
  | _ => True
  end.

Definition givenTree (v : VNode) (e : effect) : Prop :=
  match e with
  | Updated _ current => current = Tree v \/ current = Null
  | _ => True
  end.

Definition isRendered (e : effect) : bool :=
  match e with Rendered _ => true | _ => false end.

(** No initial render has completed yet and there was no update; or
    the last initial render, the one that completed, has rendered [v],
    the field [vDOM] holds [v] or [null], and every update was
    against one of the two. *)
Definition treeInvariant (this : instance) : Prop :=
  (isFirstRender this = true /\ Forall noUpdate (effects this))
  \/ (isFirstRender this = false
      /\ exists v before after,
           (vDOM this = Tree v \/ vDOM this = Null)
           /\ effects this = before ++ Rendered v :: after
           /\ forallb (fun e => negb (isRendered e)) after = true
           /\ Forall noUpdate before
           /\ Forall (givenTree v) after).

(** Counting the connect flows. *)
Definition isStyleTag (e : effect) : bool :=
  match e with StyleTagAppended _ => true | _ => false end.

Definition isScheduled (e : effect) : bool :=
  match e with Scheduled => true | _ => false end.

Definition isConnectCall (e : effect) : bool :=
  match e with
  | Called name => bool_decide (name = elementDidConnect)
  | _ => false
  end.

Definition isConnectThrow (e : effect) : bool :=
  match e with
  | HookThrew name => bool_decide (name = elementDidConnect)
  | _ => false
  end.

Definition isRequest (n : notification) : bool :=
  match n with RequestRender => true | _ => false end.

End Runtime.

Arguments noUpdate {VNode} e.
Arguments givenTree {VNode} v e.
Arguments isRendered {VNode} e.
Arguments treeInvariant {VNode} this.
Arguments isStyleTag {VNode} e.
Arguments isScheduled {VNode} e.
Arguments isConnectCall {VNode} e.
Arguments isConnectThrow {VNode} e.

Arguments EmptyArray {VNode}.
Arguments Tree {VNode} v.
Arguments Null {VNode}.
Arguments Called {VNode} name.
Arguments AttributeChangedCalled {VNode} name oldValue newValue.
Arguments HookThrew {VNode} name.
Arguments StyleTagAppended {VNode} css.
Arguments Scheduled {VNode}.
Arguments Rendered {VNode} v.
Arguments Updated {VNode} next current.
Arguments Instance {VNode} _ _ _ _ _.
Arguments isFirstRender {VNode} _.
Arguments isDisconnected {VNode} _.
Arguments vDOM {VNode} _.
Arguments renderPending {VNode} _.
Arguments effects {VNode} _.
Arguments emit {VNode} e this.
Arguments andThen {VNode} r k.
Arguments runLifecycle {VNode} class hookReturns name call this.
Arguments hookEffects {VNode} class hookReturns name call before.
Arguments hookThrows {VNode} class hookReturns name call before.
Arguments libraryReturns {VNode} renderReturns updateReturns v this.
Arguments passEffect {VNode} v this.
Arguments passHook {VNode} this.
Arguments initialize {VNode}.
Arguments schedule {VNode} this.
Arguments requestRender {VNode} this.
Arguments renderStyles {VNode} class this.
Arguments adoptedCallback {VNode} this.
Arguments attributeChangedCallback {VNode} class hookReturns name oldValue newValue this.
Arguments connectedCallback {VNode} class hookReturns isConnected this.
Arguments disconnectedCallback {VNode} class hookReturns this.
Arguments getVDOM {VNode} create class render.
Arguments getInitialRenderState {VNode} create renderReturns class hookReturns render this.
Arguments getNextRenderState {VNode} create updateReturns class hookReturns render this.
Arguments renderDOM {VNode} create renderReturns updateReturns class hookReturns render
  this.
Arguments flush {VNode} create renderReturns updateReturns class hookReturns render this.
Arguments notify {VNode} create renderReturns updateReturns class hookReturns n this.
Arguments run {VNode} create renderReturns updateReturns class hookReturns ns this.
Arguments ofPass {VNode} e.
Arguments passLog {VNode} this.
Arguments failedMount {VNode} v.
Arguments updatePass {VNode} p.
Arguments passInvariant {VNode} hookReturns this.

(** A class with every lifecycle method, used for the concrete runs; its
    virtual nodes are the markup itself, and no call throws. *)
Definition everyHook : extender := Extender "HelloElement" (fun _ => true) None.
Definition always {A} (_ : A) : bool := true.
Definition always2 {A B} (_ : A) (_ : B) : bool := true.
Definition markupOf (s : string) : option string := Some s.
Definition hello : method := Returns (JsString "<p>hello</p>").

(** An [elementDidMount] that throws (as one that reaches for a node
    the template does not have), every other method returning; and a
    library whose [create] throws on a template with two roots. *)
Definition mountThrows (name : lifecycle) (_ : list (effect string)) : bool :=
  negb (bool_decide (name = elementDidMount)).

Definition twoRoots : string := "<p>a</p><p>b</p>".

Definition oneRootOnly (s : string) : option string :=
  if String.eqb s twoRoots then None else Some s.

(** An [elementDidMount] that throws the first time it is called, and
    three passes of an instance with it. *)
Definition isMountCall (e : effect string) : bool :=
  match e with
  | Called name => bool_decide (name = elementDidMount)
  | _ => false
  end.

Definition mountThrowsOnce (name : lifecycle) (h : list (effect string)) : bool :=
  negb (bool_decide (name = elementDidMount)
        && (length (List.filter isMountCall h) =? 1)%nat).

Definition goodbye : method := Returns (JsString "<p>goodbye</p>").

Definition mountedAtSecondTry : list notification :=
  [RequestRender; Frame hello; RequestRender; Frame goodbye; RequestRender; Frame hello].

(** An [elementDidConnect] that throws the first time it is called. *)
Definition connectThrowsOnce (name : lifecycle) (h : list (effect string)) : bool :=
  negb (bool_decide (name = elementDidConnect)
        && (length (List.filter isConnectCall h) =? 1)%nat).



(** An instance whose first render runs after it was detached, and
    which is then adopted, attached again and rendered again. *)
Definition secondAttachment : instance string :=
  run markupOf always always2 everyHook always2
    [Attach true; Detach; Frame hello; Adopt; Attach true; Frame hello]
    initialize.

Definition threeFrames : list notification :=
  [Attach true; Frame hello; RequestRender; RequestRender; Frame hello;
   RequestRender; Frame hello].

(** A class with styles, and an instance of it that is attached,
    detached, adopted and attached again. *)
Definition styledHooks : extender :=
  Extender "StyledElement" (fun _ => true) (Some ":host { display: block; }").

Definition adoptedTwice : list notification :=
  [Attach true; Frame hello; Detach; Adopt; Attach true; RequestRender; Frame hello].


End Element.

(** * Properties of the virtual DOM *)

Module VdomFacts.
Import Dom Vdom VdomSpec.

(** Closed decidable facts (distinct names, distinct references). *)
Ltac by_computation := apply (bool_decide_unpack _); vm_compute; exact I.

(** *** Induction over the nested trees *)

Lemma domNode_ind (P : domNode -> Prop) :
  (forall r k tag atts v kids, Forall P kids -> P (DomNode r k tag atts v kids)) ->
  forall n, P n.
Proof.
  intros step. fix IH 1. intros [r k tag atts v kids]. apply step.
  induction kids as [|c kids IHkids]; constructor; [apply IH | exact IHkids].
Qed.

Lemma details_ind (P : details -> Prop) :
  (forall n c atts ty svg kids, Forall P kids -> P (Details n c atts ty svg kids)) ->
  forall d, P d.
Proof.
  intros step. fix IH 1. intros [n c atts ty svg kids]. apply step.
  induction kids as [|k kids IHkids]; constructor; [apply IH | exact IHkids].
Qed.

(** *** [createDOMMap] *)

Lemma createDOMMapNode_children (svg : bool) (n : domNode) :
  exists svg', children (createDOMMapNode svg n) = createDOMMap n svg'.
Proof. destruct n as [r k tag atts v kids]. simpl. eexists. reflexivity. Qed.

Lemma createDOMMapNode_local (svg : bool) (n : domNode) :
  let d := createDOMMapNode svg n in
  node d = ref n
  /\ length (children d) = length (childNodes n)
  /\ content d = (if (0 <? length (childNodes n))%nat then None
                  else Some (textContent n)).
Proof.
  destruct n as [r k tag atts v kids]. simpl.
  rewrite length_map. repeat split.
Qed.

Lemma createDOMMap_within (element : domNode) :
  forall isSVG d, within d (createDOMMap element isSVG) ->
  exists n svg, descendantOf n element /\ d = createDOMMapNode svg n.
Proof.
  induction element as [r k tag atts v kids IH] using domNode_ind.
  intros isSVG d Hin. unfold createDOMMap in Hin. simpl in Hin.
  remember (List.map (createDOMMapNode isSVG) kids) as l eqn:El.
  destruct Hin as [d l Hd | d e l He Hbelow]; subst l.
  - apply in_map_iff in Hd as (n & <- & Hn).
    exists n, isSVG. split; [now constructor | reflexivity].
  - apply in_map_iff in He as (m & <- & Hm).
    destruct (createDOMMapNode_children isSVG m) as [svg' Hc].
    rewrite Hc in Hbelow.
    rewrite Forall_forall in IH.
    destruct (IH m (proj2 (list_elem_of_In _ _) Hm) svg' d Hbelow) as (n & svg & Hn & ->).
    exists n, svg. split; [|reflexivity].
    now apply descendant_below with m.
Qed.

(** *** Running computations *)

Lemma bind_ok {A B} (m : M A) (k : A -> M B) d a d1 :
  m d = (Ok a, d1) -> (m ≫= k) d = k a d1.
Proof. intros H. unfold mbind, M_bind, bind. now rewrite H. Qed.

Lemma bind_inv {A B} (m : M A) (k : A -> M B) d b d2 :
  (m ≫= k) d = (Ok b, d2) -> exists a d1, m d = (Ok a, d1) /\ k a d1 = (Ok b, d2).
Proof.
  unfold mbind, M_bind, bind. destruct (m d) as [[a|e] d1]; [eauto|discriminate].
Qed.

(** *** The equations of the differ *)

Lemma diffChild_eq (global : globalObject) (t : details) (ex : option details)
    (element : nat) :
  diffChild global t ex element =
  match ex with
  | None => fresh ← createNode t; appendChild element fresh
  | Some e =>
      if negb (String.eqb (type t) (type e)) then
        p ← parentOf (node e);
        fresh ← createNode t;
        replaceChild p fresh (node e)
      else
        diffAttributes global t e ;;
        if negb (bool_decide (content t = content e)) then
          setTextContent (node e) (content t)
        else if (0 <? length (children e))%nat && (length (children t) <? 1)%nat then
          clearInnerHTML (node e)
        else if (length (children e) <? 1)%nat && (0 <? length (children t))%nat then
          fragment ← createDocumentFragment;
          diffDOM global (children t) (children e) fragment ;;
          appendChild element fragment
        else if (0 <? length (children t))%nat then
          diffDOM global (children t) (children e) (node e)
        else ret tt
  end.
Proof. destruct t; reflexivity. Qed.

Lemma createNode_eq (element : details) :
  createNode element =
  (node ← (if String.eqb (type element) "text" then createTextNode (content element)
           else if String.eqb (type element) "comment"
                then createComment (content element)
           else if isSVG element then createElementNS_svg (type element)
           else createElement (type element));
   addAttributes node (attributes element) ;;
   (if (0 <? length (children element))%nat then
      forEach (fun childElement =>
        child ← createNode childElement; appendChild node child) (children element)
    else if negb (String.eqb (type element) "text") then
      setTextContent node (content element)
    else ret tt) ;;
   ret node).
Proof. destruct element; reflexivity. Qed.

(** *** Attribute selection *)

Lemma unique_by_name (l : list attribute) (a b : attribute) :
  NoDup (List.map name l) -> In a l -> In b l -> name a = name b -> a = b.
Proof.
  induction l as [|c l IH]; intros Hnd Ha Hb Hn; [contradiction|].
  simpl in Hnd. rewrite NoDup_cons in Hnd. destruct Hnd as [Hc Hnd].
  assert (Hmem : forall x, In x l -> name x ∈ List.map name l).
  { intros x Hx. apply list_elem_of_In, in_map. exact Hx. }
  destruct Ha as [->|Ha], Hb as [->|Hb]; auto.
  - exfalso. apply Hc. rewrite Hn. auto.
  - exfalso. apply Hc. rewrite <- Hn. auto.
Qed.

Lemma find_by_name (l : list attribute) (a : attribute) :
  NoDup (List.map name l) -> In a l ->
  List.find (fun b => String.eqb (name a) (name b)) l = Some a.
Proof.
  intros Hnd Ha.
  destruct (List.find _ l) as [b|] eqn:E.
  - apply find_some in E as [Hb Hn]. apply String.eqb_eq in Hn.
    f_equal. symmetry. now apply (unique_by_name l).
  - apply (find_none _ _ E) in Ha. now rewrite String.eqb_refl in Ha.
Qed.

Lemma filterM_ok {A} (f : A -> M bool) (g : A -> bool) (l : list A) d :
  (forall x, In x l -> f x d = (Ok (g x), d)) ->
  filterM f l d = (Ok (List.filter g l), d).
Proof.
  induction l as [|a l IH]; intros H; [reflexivity|]. simpl.
  rewrite (bind_ok _ _ d (g a) d) by (apply H; now left).
  rewrite (bind_ok _ _ d (List.filter g l) d)
    by (apply IH; intros x Hx; apply H; now right).
  destruct (g a); reflexivity.
Qed.

Lemma filter_all {A} (l : list A) : List.filter (fun _ => true) l = l.
Proof. induction l as [|a l IH]; [reflexivity|]. simpl. now rewrite IH. Qed.

(** In a browser every attribute of the next node is selected. *)
Lemma getChangingAttributes_window (find : string -> bool) (t e : details) d :
  getChangingAttributes (Window find) t e d = (Ok (attributes t), d).
Proof.
  unfold getChangingAttributes.
  rewrite (filterM_ok _ (fun _ => true)); [now rewrite filter_all|].
  intros x _. reflexivity.
Qed.

(** Without attributes on the next node, [find] is not called. *)
Lemma getChangingAttributes_nil (global : globalObject) (t e : details) d :
  attributes t = [] -> getChangingAttributes global t e d = (Ok [], d).
Proof. intros H. unfold getChangingAttributes. now rewrite H. Qed.


Lemma getRemovedAttributes_same (t e : details) :
  attributes t = attributes e -> getRemovedAttributes t e = [].
Proof.
  intros Heq. unfold getRemovedAttributes. rewrite Heq.
  assert (H : forall l, (forall a, In a l -> In a (attributes e)) ->
    List.filter (fun a =>
      match List.find (fun b => String.eqb (name a) (name b)) (attributes e) with
      | Some _ => false
      | None => true
      end) l = []).
  { induction l as [|a l IH]; intros Hsub; [reflexivity|]. simpl.
    destruct (List.find _ (attributes e)) eqn:E.
    - apply IH. intros b Hb. apply Hsub. now right.
    - exfalso. pose proof (find_none _ _ E a (Hsub a (or_introl eq_refl))) as Hf.
      simpl in Hf. now rewrite String.eqb_refl in Hf. }
  apply H. auto.
Qed.

Lemma diffAttributes_bare (global : globalObject) (t e : details) d :
  attributes t = [] -> attributes e = [] -> diffAttributes global t e d = (Ok tt, d).
Proof.
  intros Ht He. unfold diffAttributes, getRemovedAttributes, getChangingAttributes.
  rewrite Ht, He. reflexivity.
Qed.

(** *** A pass over a tree of the same shape, without attributes *)

Lemma bare_eq (t : details) :
  bare t = match attributes t with [] => true | _ => false end
           && forallb bare (children t).
Proof. destruct t; reflexivity. Qed.

Lemma bare_attributes (t : details) : bare t = true -> attributes t = [].
Proof.
  rewrite bare_eq. intros H. apply andb_true_iff in H as [H _].
  now destruct (attributes t).
Qed.

Lemma bare_children (t : details) : bare t = true -> forallb bare (children t) = true.
Proof. rewrite bare_eq. intros H. now apply andb_true_iff in H as [_ H]. Qed.

Lemma sameShape_forEachIndexed (global : globalObject) (element : nat)
    (ts es : list details) :
  Forall2 sameShape ts es ->
  Forall (fun t => forall e el d, sameShape t e -> bare t = true ->
                   diffChild global t (Some e) el d = (Ok tt, d)) ts ->
  forallb bare ts = true ->
  forall pre d,
    forEachIndexed (fun nd index => diffChild global nd ((pre ++ es) !! index) element)
                   ts (length pre) d = (Ok tt, d).
Proof.
  induction 1 as [|t e ts es Hte Hrest IH]; intros Hall Hbare pre d; [reflexivity|].
  rewrite Forall_cons in Hall. destruct Hall as [Ht Hall]. simpl.
  simpl in Hbare. apply andb_true_iff in Hbare as [Hb Hbare].
  assert (Hlook : (pre ++ e :: es) !! length pre = Some e).
  { rewrite lookup_app_r by lia. now rewrite Nat.sub_diag. }
  rewrite (bind_ok _ _ d tt d) by (rewrite Hlook; now apply Ht).
  specialize (IH Hall Hbare (pre ++ [e]) d).
  rewrite length_app, Nat.add_1_r, <- app_assoc in IH. exact IH.
Qed.

Lemma diffChild_sameShape (global : globalObject) (t : details) :
  forall e element d, sameShape t e -> bare t = true ->
  diffChild global t (Some e) element d = (Ok tt, d).
Proof.
  induction t as [n c atts ty svg kids IH] using details_ind.
  intros e element d Hs Hb. inversion Hs as [t' e' Hty Hat Hco Hch]; subst t' e'.
  pose proof (bare_attributes _ Hb) as Hnil.
  pose proof (bare_children _ Hb) as Hkids.
  rewrite diffChild_eq. rewrite Hty, String.eqb_refl. cbn [negb].
  rewrite (bind_ok _ _ d tt d)
    by (apply diffAttributes_bare; [exact Hnil | now rewrite <- Hat]).
  rewrite Hco, bool_decide_eq_true_2 by reflexivity.
  pose proof (Forall2_length _ _ _ Hch) as Hlen. simpl in Hlen, Hkids |- *.
  rewrite <- Hlen.
  destruct kids as [|k kids].
  - reflexivity.
  - simpl length. simpl.
    unfold diffDOM, diffDOMWith.
    replace (Z.of_nat (length (children e)) - Z.of_nat (length (k :: kids)))
      with 0 by (rewrite <- Hlen; simpl length; lia).
    simpl. unfold mbind, M_bind, bind, ret. simpl.
    apply (sameShape_forEachIndexed global (node e) (k :: kids) (children e) Hch IH
             Hkids []).
Qed.

Lemma diffDOM_sameShape (global : globalObject) (templateMap domMap : list details)
    (element : nat) d :
  Forall2 sameShape templateMap domMap ->
  forallb bare templateMap = true ->
  diffDOM global templateMap domMap element d = (Ok tt, d).
Proof.
  intros H Hb. unfold diffDOM, diffDOMWith.
  replace (Z.of_nat (length domMap) - Z.of_nat (length templateMap)) with 0
    by (apply Forall2_length in H; lia).
  simpl. unfold mbind, M_bind, bind, ret. simpl.
  apply (sameShape_forEachIndexed global element templateMap domMap H) with (pre := []);
    [|exact Hb].
  apply Forall_forall. intros t _. apply diffChild_sameShape.
Qed.

(** *** Parsing the same markup again *)

Lemma textContent_sameMarkup (n : domNode) :
  forall n', sameMarkup n n' -> textContent n = textContent n'.
Proof.
  induction n as [r k tag atts v kids IH] using domNode_ind.
  intros n' H. inversion H as [? r' ? ? ? ? ? kids' Hkids]; subst.
  destruct k; try reflexivity. simpl.
  clear H. induction Hkids as [|c c' kids kids' Hc Hkids IHkids]; [reflexivity|].
  rewrite Forall_cons in IH. destruct IH as [IHc IHrest].
  pose proof (IHc c' Hc) as Htext.
  inversion Hc as [? ? kc ? ? ? ? ? _]; subst.
  destruct kc; try (now apply IHkids); rewrite <- Htext; f_equal; now apply IHkids.
Qed.

Lemma createDOMMapNode_sameShape (n : domNode) :
  forall n' svg svg', sameMarkup n n' ->
  sameShape (createDOMMapNode svg n) (createDOMMapNode svg' n').
Proof.
  induction n as [r k tag atts v kids IH] using domNode_ind.
  intros n' svg svg' H. pose proof (textContent_sameMarkup _ _ H) as Htext.
  inversion H as [? r' ? ? ? ? ? kids' Hkids]; subst.
  apply sameShape_intro; cbn [createDOMMapNode type attributes content children].
  - reflexivity.
  - reflexivity.
  - rewrite (Forall2_length _ _ _ Hkids).
    destruct (0 <? length kids')%nat; [reflexivity|]. now rewrite Htext.
  - clear H Htext. induction Hkids as [|c c' kids kids' Hc Hkids IHkids]; [constructor|].
    rewrite Forall_cons in IH. destruct IH as [IHc IHrest].
    constructor; [now apply IHc | now apply IHkids].
Qed.

Lemma createDOMMap_sameShape (element element' : domNode) (isSVG isSVG' : bool) :
  sameMarkup element element' ->
  Forall2 sameShape (createDOMMap element isSVG) (createDOMMap element' isSVG').
Proof.
  intros H. inversion H as [? ? ? ? ? ? kids kids' Hkids]; subst.
  unfold createDOMMap. simpl.
  induction Hkids as [|c c' kids kids' Hc Hkids IHkids]; constructor.
  - now apply createDOMMapNode_sameShape.
  - apply IHkids. now constructor.
Qed.

(** *** Association lists *)

Lemma assocGet_assocSet k k' v l :
  assocGet k (assocSet k' v l) = if String.eqb k' k then Some v else assocGet k l.
Proof.
  induction l as [|[k0 v0] l IH]; simpl.
  - destruct (String.eqb k' k); reflexivity.
  - destruct (String.eqb k0 k') eqn:E0; simpl.
    + apply String.eqb_eq in E0. subst k0. destruct (String.eqb k' k); reflexivity.
    + rewrite IH. destruct (String.eqb k0 k) eqn:E1; [|reflexivity].
      apply String.eqb_eq in E1. subst k0. now rewrite String.eqb_sym, E0.
Qed.

Lemma assocGet_assocRemove k k' l :
  assocGet k (assocRemove k' l) = if String.eqb k' k then None else assocGet k l.
Proof.
  induction l as [|[k0 v0] l IH]; simpl.
  - destruct (String.eqb k' k); reflexivity.
  - destruct (String.eqb k0 k') eqn:E0; simpl.
    + apply String.eqb_eq in E0. subst k0. rewrite IH.
      destruct (String.eqb k' k); reflexivity.
    + rewrite IH. destruct (String.eqb k0 k) eqn:E1; [|reflexivity].
      apply String.eqb_eq in E1. subst k0. now rewrite String.eqb_sym, E0.
Qed.

Lemma find_name_none (k : string) (l : list attribute) :
  ~ In k (List.map name l) -> List.find (fun a => String.eqb (name a) k) l = None.
Proof.
  induction l as [|a l IH]; intros Hk; [reflexivity|]. simpl in *.
  destruct (String.eqb (name a) k) eqn:E.
  - apply String.eqb_eq in E. tauto.
  - apply IH. tauto.
Qed.

Lemma find_name_in (k : string) (l : list attribute) (a : attribute) :
  List.find (fun a => String.eqb (name a) k) l = Some a -> In a l /\ name a = k.
Proof.
  intros H. apply find_some in H as [H1 H2]. apply String.eqb_eq in H2. auto.
Qed.

Lemma assocGet_applied (k : string) (l : list attribute) :
  NoDup (List.map name l) -> forall atts,
  assocGet k (applied l atts)
  = match List.find (fun a => String.eqb (name a) k) l with
    | Some a => Some (valueOrTrue (value a))
    | None => assocGet k atts
    end.
Proof.
  induction l as [|a l IH]; intros Hnd atts; [reflexivity|].
  simpl in Hnd. rewrite NoDup_cons in Hnd. destruct Hnd as [Ha Hnd].
  unfold applied in *. simpl. rewrite (IH Hnd), assocGet_assocSet.
  destruct (String.eqb (name a) k) eqn:E; [|reflexivity].
  apply String.eqb_eq in E. subst k.
  rewrite find_name_none; [reflexivity|].
  intros Hin. apply Ha. now apply list_elem_of_In.
Qed.

Lemma assocGet_dropped (k : string) (l : list attribute) : forall atts,
  assocGet k (dropped l atts)
  = if existsb (fun a => String.eqb (name a) k) l then None else assocGet k atts.
Proof.
  induction l as [|a l IH]; intros atts; [reflexivity|].
  unfold dropped in *. simpl. rewrite IH, assocGet_assocRemove.
  destruct (String.eqb (name a) k), (existsb _ l); reflexivity.
Qed.

Lemma assocGet_getAttributes (k : string) (atts : list (string * string)) :
  assocGet k atts = valueIn k (getAttributes atts).
Proof.
  unfold valueIn. induction atts as [|[k0 v0] atts IH]; [reflexivity|]. simpl.
  destruct (String.eqb k0 k); [reflexivity | exact IH].
Qed.

(** *** Writing plain attributes *)

Lemma setAttribute_element (n : nat) (k v : string) d x :
  store d !! n = Some x -> isElement x = true ->
  setAttribute n k v d
  = (Ok tt, Document (alter (fun y => withAttrs (assocSet k v (attrList y)) y) n (store d))
                     (nextRef d) (journal d ++ [SetAttribute n k v])).
Proof.
  intros Hx He. unfold setAttribute, getNode, mbind, M_bind, bind, modify, record.
  rewrite Hx, He. reflexivity.
Qed.

Lemma removeAttribute_element (n : nat) (k : string) d x :
  store d !! n = Some x -> isElement x = true ->
  removeAttribute n k d
  = (Ok tt, Document (alter (fun y => withAttrs (assocRemove k (attrList y)) y) n (store d))
                     (nextRef d) (journal d ++ [RemoveAttribute n k])).
Proof.
  intros Hx He. unfold removeAttribute, getNode, mbind, M_bind, bind, modify, record.
  rewrite Hx, He. reflexivity.
Qed.

Lemma plainName_spec (a : attribute) :
  plainName a = true ->
  String.eqb (name a) "class" = false /\ String.eqb (name a) "style" = false.
Proof.
  unfold plainName. intros H. apply andb_true_iff in H as [H1 H2].
  now apply negb_true_iff in H1, H2.
Qed.

Lemma addAttributes_plain (n : nat) (l : list attribute) : forall d x,
  store d !! n = Some x -> isElement x = true -> forallb plainName l = true ->
  exists d',
    addAttributes n l d = (Ok tt, d')
    /\ store d' !! n = Some (withAttrs (applied l (attrList x)) x)
    /\ (forall k, k <> n -> store d' !! k = store d !! k)
    /\ nextRef d' = nextRef d
    /\ journal d'
       = journal d
         ++ List.map (fun a => SetAttribute n (name a) (valueOrTrue (value a))) l.
Proof.
  induction l as [|a l IH]; intros d x Hx He Hl.
  - exists d. simpl. rewrite app_nil_r. repeat split; auto.
    rewrite Hx. now destruct x.
  - simpl in Hl. apply andb_true_iff in Hl as [Ha Hl].
    destruct (plainName_spec a Ha) as [Hc Hs].
    set (d1 := Document (alter (fun y => withAttrs
                           (assocSet (name a) (valueOrTrue (value a)) (attrList y)) y)
                           n (store d))
                        (nextRef d)
                        (journal d ++ [SetAttribute n (name a) (valueOrTrue (value a))])).
    assert (Hx1 : store d1 !! n
                  = Some (withAttrs (assocSet (name a) (valueOrTrue (value a))
                                              (attrList x)) x)).
    { simpl. rewrite lookup_alter_eq, Hx. reflexivity. }
    destruct (IH d1 _ Hx1 He Hl) as (d' & Hrun & Hn & Hother & Hnext & Hj).
    exists d'. split; [|split; [|split; [|split]]].
    + unfold addAttributes in *. simpl. rewrite Hc, Hs.
      rewrite (bind_ok _ _ d tt d1); [exact Hrun|].
      now apply setAttribute_element with x.
    + rewrite Hn. reflexivity.
    + intros k Hk. rewrite (Hother k Hk). simpl. now rewrite lookup_alter_ne.
    + exact Hnext.
    + rewrite Hj. simpl. now rewrite <- app_assoc.
Qed.

Lemma removeAttributes_plain (n : nat) (l : list attribute) : forall d x,
  store d !! n = Some x -> isElement x = true -> forallb plainName l = true ->
  exists d',
    removeAttributes n l d = (Ok tt, d')
    /\ store d' !! n = Some (withAttrs (dropped l (attrList x)) x)
    /\ (forall k, k <> n -> store d' !! k = store d !! k)
    /\ nextRef d' = nextRef d
    /\ journal d' = journal d ++ List.map (fun a => RemoveAttribute n (name a)) l.
Proof.
  induction l as [|a l IH]; intros d x Hx He Hl.
  - exists d. simpl. rewrite app_nil_r. repeat split; auto.
    rewrite Hx. now destruct x.
  - simpl in Hl. apply andb_true_iff in Hl as [Ha Hl].
    destruct (plainName_spec a Ha) as [Hc Hs].
    set (d1 := Document (alter (fun y => withAttrs (assocRemove (name a) (attrList y)) y)
                           n (store d))
                        (nextRef d) (journal d ++ [RemoveAttribute n (name a)])).
    assert (Hx1 : store d1 !! n
                  = Some (withAttrs (assocRemove (name a) (attrList x)) x)).
    { simpl. rewrite lookup_alter_eq, Hx. reflexivity. }
    destruct (IH d1 _ Hx1 He Hl) as (d' & Hrun & Hn & Hother & Hnext & Hj).
    exists d'. split; [|split; [|split; [|split]]].
    + unfold removeAttributes in *. simpl. rewrite Hc, Hs.
      rewrite (bind_ok _ _ d tt d1); [exact Hrun|].
      now apply removeAttribute_element with x.
    + rewrite Hn. reflexivity.
    + intros k Hk. rewrite (Hother k Hk). simpl. now rewrite lookup_alter_ne.
    + exact Hnext.
    + rewrite Hj. simpl. now rewrite <- app_assoc.
Qed.

(** *** What [diffAttributes] selects *)

Lemma find_other_none (a : attribute) (l : list attribute) :
  List.find (fun b => String.eqb (name a) (name b)) l = None
  <-> ~ In (name a) (List.map name l).
Proof.
  split.
  - intros H Hin. apply in_map_iff in Hin as (b & Hb & Hin).
    pose proof (find_none _ _ H b Hin) as Hf. simpl in Hf.
    now rewrite Hb, String.eqb_refl in Hf.
  - intros H. destruct (List.find _ l) as [b|] eqn:E; [|reflexivity].
    apply find_some in E as [Hb Hn]. apply String.eqb_eq in Hn.
    exfalso. apply H. rewrite Hn. now apply in_map.
Qed.

Lemma removed_iff (t e : details) (a : attribute) :
  In a (getRemovedAttributes t e)
  <-> In a (attributes e) /\ ~ In (name a) (List.map name (attributes t)).
Proof.
  unfold getRemovedAttributes. rewrite filter_In.
  rewrite <- find_other_none.
  destruct (List.find _ (attributes t)); intuition congruence.
Qed.

Lemma forallb_filter {A} (p f : A -> bool) (l : list A) :
  forallb p l = true -> forallb p (List.filter f l) = true.
Proof.
  induction l as [|x l IH]; simpl; [auto|].
  intros H. apply andb_true_iff in H as [H1 H2].
  destruct (f x); simpl; [rewrite H1|]; auto.
Qed.

Lemma NoDup_names_filter (f : attribute -> bool) (l : list attribute) :
  NoDup (List.map name l) -> NoDup (List.map name (List.filter f l)).
Proof.
  induction l as [|x l IH]; simpl; [auto|].
  rewrite NoDup_cons. intros [Hx Hnd].
  destruct (f x); simpl; [|auto].
  apply NoDup_cons. split; [|auto].
  intros Hin. apply Hx.
  apply list_elem_of_In in Hin. apply list_elem_of_In.
  apply in_map_iff in Hin as (y & Hy & Hin). apply filter_In in Hin as [Hin _].
  rewrite <- Hy. now apply in_map.
Qed.

Lemma find_name_unique (l : list attribute) (a : attribute) :
  NoDup (List.map name l) -> In a l ->
  List.find (fun b => String.eqb (name b) (name a)) l = Some a.
Proof.
  intros Hnd Ha. destruct (List.find _ l) as [b|] eqn:E.
  - apply find_name_in in E as [Hb Hn]. f_equal. now apply (unique_by_name l).
  - pose proof (find_none _ _ E a Ha) as Hf. simpl in Hf.
    now rewrite String.eqb_refl in Hf.
Qed.

Lemma existsb_name_false (k : string) (l : list attribute) :
  (forall a, In a l -> name a <> k) ->
  existsb (fun a => String.eqb (name a) k) l = false.
Proof.
  intros H. destruct (existsb _ l) eqn:E; [|reflexivity].
  apply existsb_exists in E as (a & Ha & Hn). apply String.eqb_eq in Hn.
  now apply H in Ha.
Qed.

Lemma hasName_removed (t e : details) (k : string) :
  hasName k (getRemovedAttributes t e)
  = hasName k (attributes e) && negb (hasName k (attributes t)).
Proof.
  unfold hasName.
  destruct (existsb _ (getRemovedAttributes t e)) eqn:Er.
  - apply existsb_exists in Er as (a & Ha & Hk). apply removed_iff in Ha as [Ha Hn].
    symmetry. apply andb_true_iff. split.
    + apply existsb_exists. eauto.
    + apply negb_true_iff. apply existsb_name_false. intros b Hb Hbk.
      apply Hn. apply String.eqb_eq in Hk. rewrite Hk, <- Hbk. now apply in_map.
  - symmetry. apply not_true_iff_false. intros H.
    apply andb_true_iff in H as [H1 H2]. apply negb_true_iff in H2.
    apply existsb_exists in H1 as (a & Ha & Hk).
    assert (Hr : In a (getRemovedAttributes t e)).
    { apply removed_iff. split; [exact Ha|]. intros Hin.
      apply in_map_iff in Hin as (b & Hb & Hin).
      assert (Hex : existsb (fun a => String.eqb (name a) k) (attributes t) = true).
      { apply existsb_exists. exists b. split; [exact Hin|].
        apply String.eqb_eq in Hk. rewrite Hb, Hk. apply String.eqb_refl. }
      congruence. }
    assert (Hex : existsb (fun a => String.eqb (name a) k) (getRemovedAttributes t e)
                  = true).
    { apply existsb_exists. eauto. }
    congruence.
Qed.

Lemma assocGet_cleared (k : string) (l : list attribute) : forall atts,
  assocGet k (cleared l atts)
  = if hasName k l then (if String.eqb k "class" then Some "" else None)
    else assocGet k atts.
Proof.
  unfold hasName.
  induction l as [|a l IH]; intros atts; [reflexivity|].
  unfold cleared in *. simpl. rewrite IH.
  destruct (existsb _ l); simpl; [now rewrite orb_true_r|]. rewrite orb_false_r.
  destruct (String.eqb (name a) "class") eqn:Ec.
  - apply String.eqb_eq in Ec. rewrite Ec, assocGet_assocSet.
    rewrite (String.eqb_sym k "class"). now destruct (String.eqb "class" k).
  - rewrite assocGet_assocRemove.
    destruct (String.eqb (name a) k) eqn:Ek; [|reflexivity].
    apply String.eqb_eq in Ek. subst k. now rewrite Ec.
Qed.

Lemma hasName_find (k : string) (l : list attribute) :
  hasName k l = match List.find (fun a => String.eqb (name a) k) l with
                | Some _ => true
                | None => false
                end.
Proof.
  unfold hasName. induction l as [|a l IH]; [reflexivity|]. simpl.
  destruct (String.eqb (name a) k); [reflexivity | exact IH].
Qed.

(** *** The removal of the trailing handles *)




Lemma filter_both {A} (f g : A -> bool) (l : list A) :
  List.filter (fun x => f x && g x) l = List.filter g (List.filter f l).
Proof.
  induction l as [|x l IH]; [reflexivity|]. simpl.
  destruct (f x); simpl; [|exact IH]. destruct (g x); now rewrite IH.
Qed.

Lemma without_cons (c : nat) (ks l : list nat) :
  without (c :: ks) l = without ks (removeRef c l).
Proof.
  unfold without, removeRef. rewrite <- filter_both.
  apply List.filter_ext. intros k. simpl. now rewrite negb_orb.
Qed.

Lemma without_nil (l : list nat) : without [] l = l.
Proof.
  unfold without. induction l as [|k l IH]; [reflexivity|].
  cbn [List.filter existsb negb]. now f_equal.
Qed.


Lemma removeExcess_tail (domMap : list details) (count : nat) d :
  (count <= length domMap)%nat ->
  removeExcess domMap count d
  = forEach (fun child => p ← parentOf (node child); removeChild p (node child))
            (drop (length domMap - count) domMap) d.
Proof.
  revert d. induction count as [|count IH]; intros d Hle.
  - rewrite Nat.sub_0_r, drop_all. reflexivity.
  - simpl removeExcess.
    destruct (lookup_lt_is_Some_2 domMap (length domMap - S count)) as [child Hchild];
      [lia|].
    rewrite Hchild, (drop_S _ _ _ Hchild).
    replace (S (length domMap - S count)) with (length domMap - count)%nat by lia.
    simpl. unfold mbind, M_bind, bind.
    destruct (parentOf (node child) d) as [[p|e] d1]; [|reflexivity].
    destruct (removeChild p (node child) d1) as [[[]|e] d2]; [|reflexivity].
    apply IH. lia.
Qed.


Lemma forEachIndexed_ext {A} (f g : A -> nat -> M unit) (l : list A) :
  forall i d,
    (forall j x, l !! j = Some x -> f x (i + j)%nat = g x (i + j)%nat) ->
    forEachIndexed f l i d = forEachIndexed g l i d.
Proof.
  induction l as [|x l IH]; intros i d H; [reflexivity|]. simpl.
  pose proof (H 0%nat x eq_refl) as H0. rewrite Nat.add_0_r in H0. rewrite H0.
  unfold mbind, M_bind, bind. destruct (g x i d) as [[[]|e] d1]; [|reflexivity].
  apply IH. intros j y Hj. replace (S i + j)%nat with (i + S j)%nat by lia.
  now apply H.
Qed.

(** *** The patch primitives on known nodes *)

Lemma withParent_id (x : liveNode) (p : option nat) :
  parentRef x = p -> withParent p x = x.
Proof. intros <-. now destruct x. Qed.

Lemma withChildren_id (x : liveNode) (l : list nat) :
  childRefs x = l -> withChildren l x = x.
Proof. intros <-. now destruct x. Qed.

Lemma writeAttribute_frame (x : liveNode) (a : attribute) :
  Dom.nodeType (writeAttribute x a) = Dom.nodeType x
  /\ childRefs (writeAttribute x a) = childRefs x
  /\ parentRef (writeAttribute x a) = parentRef x
  /\ svgNamespace (writeAttribute x a) = svgNamespace x.
Proof.
  unfold writeAttribute.
  destruct (String.eqb (name a) "class"); [repeat split|].
  destruct (String.eqb (name a) "style"); [|repeat split].
  destruct (value a); repeat split.
Qed.

Lemma written_frame (l : list attribute) : forall x,
  Dom.nodeType (written l x) = Dom.nodeType x
  /\ childRefs (written l x) = childRefs x
  /\ parentRef (written l x) = parentRef x.
Proof.
  induction l as [|a l IH]; intros x; [repeat split|].
  unfold written in *. simpl.
  destruct (IH (writeAttribute x a)) as (H1 & H2 & H3).
  destruct (writeAttribute_frame x a) as (G1 & G2 & G3 & _).
  rewrite H1, H2, H3, G1, G2, G3. repeat split.
Qed.

Lemma removeStyles_element (n : nat) (l : list string) d x :
  store d !! n = Some x -> isElement x = true -> removeStyles n l d = (Ok tt, d).
Proof.
  intros Hx He. unfold removeStyles.
  induction l as [|s l IH]; [reflexivity|]. simpl.
  rewrite (bind_ok _ _ d tt d); [exact IH|].
  unfold setStyleUndefined, getStyle, getNode, mbind, M_bind, bind, ret.
  now rewrite Hx, He.
Qed.

Lemma changeStyles_element (n : nat) (l : list (string * string)) : forall d x,
  store d !! n = Some x -> isElement x = true ->
  exists d',
    changeStyles n l d = (Ok tt, d')
    /\ store d' !! n
       = Some (withStyle
                 (fold_left (fun acc style =>
                     if Js.truthy (snd style) then assocSet (fst style) (snd style) acc
                     else assocRemove (fst style) acc) l (styleDecls x)) x)
    /\ (forall k, k <> n -> store d' !! k = store d !! k)
    /\ nextRef d' = nextRef d
    /\ exists js, journal d' = journal d ++ js /\ Forall (fun m => subject m = n) js.
Proof.
  induction l as [|[k v] l IH]; intros d x Hx He.
  - exists d. simpl. repeat split; auto.
    + rewrite Hx. now destruct x.
    + exists []. split; [now rewrite app_nil_r | constructor].
  - set (decls := if Js.truthy v then assocSet k v (styleDecls x)
                  else assocRemove k (styleDecls x)).
    set (d1 := Document (alter (fun y => withStyle
                           (if Js.truthy v then assocSet k v (styleDecls y)
                            else assocRemove k (styleDecls y)) y) n (store d))
                        (nextRef d) (journal d ++ [SetStyle n k v])).
    assert (Hstep : setStyleProperty n k v d = (Ok tt, d1)).
    { unfold setStyleProperty, getStyle, getNode, mbind, M_bind, bind, ret,
        modify, record. now rewrite Hx, He. }
    assert (Hx1 : store d1 !! n = Some (withStyle decls x)).
    { simpl. now rewrite lookup_alter_eq, Hx. }
    destruct (IH d1 _ Hx1 He) as (d' & Hrun & Hn & Hother & Hnext & js & Hj & Hjs).
    exists d'. split; [|split; [|split; [|split]]].
    + unfold changeStyles in *. simpl. now rewrite (bind_ok _ _ d tt d1 Hstep).
    + rewrite Hn. reflexivity.
    + intros j Hjn. rewrite (Hother j Hjn). simpl. now rewrite lookup_alter_ne.
    + exact Hnext.
    + exists (SetStyle n k v :: js). split.
      * rewrite Hj. simpl. now rewrite <- app_assoc.
      * constructor; [reflexivity | exact Hjs].
Qed.

Lemma addAttributes_element (n : nat) (l : list attribute) : forall d x,
  store d !! n = Some x -> isElement x = true ->
  forallb (writable (svgNamespace x)) l = true ->
  exists d',
    addAttributes n l d = (Ok tt, d')
    /\ store d' !! n = Some (written l x)
    /\ (forall k, k <> n -> store d' !! k = store d !! k)
    /\ nextRef d' = nextRef d
    /\ exists js, journal d' = journal d ++ js /\ Forall (fun m => subject m = n) js.
Proof.
  induction l as [|a l IH]; intros d x Hx He Hl.
  - exists d. simpl. repeat split; auto.
    exists []. split; [now rewrite app_nil_r | constructor].
  - simpl in Hl. apply andb_true_iff in Hl as [Ha Hl].
    assert (Hstep : exists d1,
      (if String.eqb (name a) "class" then setClassName n (domString (value a))
       else if String.eqb (name a) "style" then diffStyles n (value a)
       else setAttribute n (name a) (valueOrTrue (value a))) d = (Ok tt, d1)
      /\ store d1 !! n = Some (writeAttribute x a)
      /\ (forall k, k <> n -> store d1 !! k = store d !! k)
      /\ nextRef d1 = nextRef d
      /\ exists js, journal d1 = journal d ++ js /\ Forall (fun m => subject m = n) js).
    { unfold writeAttribute, writable in *.
      destruct (String.eqb (name a) "class").
      - apply negb_true_iff in Ha.
        eexists. split; [|split; [|split; [|split]]].
        + unfold setClassName, getNode, mbind, M_bind, bind, modify, record.
          rewrite Hx, He, Ha. reflexivity.
        + simpl. now rewrite lookup_alter_eq, Hx.
        + intros k Hk. simpl. now rewrite lookup_alter_ne.
        + reflexivity.
        + eexists. split; [reflexivity|]. repeat constructor.
      - destruct (String.eqb (name a) "style").
        + destruct (value a) as [styles|]; [|discriminate].
          destruct (changeStyles_element n (getStyleMap styles) d x Hx He)
            as (d1 & Hrun & Hn & Hother & Hnext & Hjs).
          exists d1. split; [|auto].
          unfold diffStyles.
          rewrite (bind_ok _ _ d (styleDecls x) d).
          2:{ unfold getStyle, getNode, mbind, M_bind, bind, ret. now rewrite Hx, He. }
          rewrite (bind_ok _ _ d tt d); [exact Hrun|].
          now apply removeStyles_element with x.
        + eexists. split; [now apply setAttribute_element with x|].
          split; [|split; [|split]].
          * simpl. now rewrite lookup_alter_eq, Hx.
          * intros k Hk. simpl. now rewrite lookup_alter_ne.
          * reflexivity.
          * eexists. split; [reflexivity|]. repeat constructor. }
    destruct Hstep as (d1 & Hrun1 & Hn1 & Hother1 & Hnext1 & js1 & Hj1 & Hjs1).
    assert (He1 : isElement (writeAttribute x a) = true).
    { unfold isElement in *. now rewrite (proj1 (writeAttribute_frame x a)). }
    assert (Hl1 : forallb (writable (svgNamespace (writeAttribute x a))) l = true).
    { now rewrite (proj2 (proj2 (proj2 (writeAttribute_frame x a)))). }
    destruct (IH d1 _ Hn1 He1 Hl1) as (d' & Hrun & Hn & Hother & Hnext & js & Hj & Hjs).
    exists d'. split; [|split; [|split; [|split]]].
    + unfold addAttributes in *. simpl. now rewrite (bind_ok _ _ d tt d1 Hrun1).
    + rewrite Hn. reflexivity.
    + intros k Hk. now rewrite (Hother k Hk), (Hother1 k Hk).
    + now rewrite Hnext.
    + exists (js1 ++ js). split.
      * now rewrite Hj, Hj1, <- app_assoc.
      * apply Forall_app. auto.
Qed.

(** *** Moving a materialised subtree between documents *)

Lemma Forall2_impl_in {A B} (P : B -> Prop) (R R' : A -> B -> Prop) l k :
  Forall P k -> Forall2 R l k ->
  (forall a b, P b -> R a b -> R' a b) -> Forall2 R' l k.
Proof.
  intros HP HR Himp. induction HR as [|a b l k Hab HR IH]; constructor.
  - apply Himp; [|exact Hab]. now inversion HP.
  - apply IH. now inversion HP.
Qed.

Lemma materialises_move (t : details) :
  forall hi hi' d1 d2 par par' r,
    (hi <= hi')%nat ->
    (forall k, (r < k < hi)%nat -> store d2 !! k = store d1 !! k) ->
    (forall x, store d1 !! r = Some x -> store d2 !! r = Some (withParent par' x)) ->
    materialises hi d1 par r t -> materialises hi' d2 par' r t.
Proof.
  induction t as [n c atts ty svg kids IH] using details_ind.
  intros hi hi' d1 d2 par par' r Hhi Hsame Hroot Hm.
  inversion Hm as [par0 r0 t0 live Hr Hx Hkids Hleaf]; subst par0 r0 t0.
  apply materialises_node with live.
  - lia.
  - now rewrite (Hroot _ Hx).
  - intros Hne. specialize (Hkids Hne). simpl in *.
    apply (Forall2_impl_in _ _ _ _ _ IH Hkids).
    intros c' tc IHtc [Hlt Hmc]. split; [exact Hlt|].
    apply (IHtc hi hi' d1 d2 (Some r) (Some r) c'); auto.
    + intros k Hk. apply Hsame. lia.
    + intros x Hx'. inversion Hmc as [? ? ? ? Hc' Hxc]; subst.
      rewrite Hsame by lia. rewrite Hx'. rewrite Hx' in Hxc.
      inversion Hxc. reflexivity.
  - intros Hnil. specialize (Hleaf Hnil). unfold leafChildren in *.
    destruct (isCharacterData _ || negb _); [exact Hleaf|].
    destruct Hleaf as (tx & -> & Htx & Hstore).
    exists tx. split; [reflexivity|]. split; [lia|].
    now rewrite Hsame by lia.
Qed.

Lemma appendChild_fresh (r c : nat) d xr xc :
  store d !! r = Some xr -> canHaveChildren xr = true ->
  store d !! c = Some xc -> Dom.nodeType xc <> DOCUMENT_FRAGMENT_NODE ->
  parentRef xc = None ->
  appendChild r c d
  = (Ok tt, Document (alter (withParent (Some r)) c
                        (alter (fun y => withChildren (childRefs y ++ [c]) y) r (store d)))
                     (nextRef d) (journal d ++ [AppendChild r c])).
Proof.
  intros Hr Hcan Hc Hty Hpar.
  unfold appendChild, insertedNodes, detach, getNode, mbind, M_bind, bind, ret,
    modify, record. simpl.
  rewrite Hr, Hcan, Hc.
  replace (Dom.nodeType xc =? DOCUMENT_FRAGMENT_NODE) with false
    by (symmetry; now apply Z.eqb_neq).
  simpl. unfold getNode, mbind, M_bind, bind, ret, modify. simpl.
  rewrite Hc, Hpar. reflexivity.
Qed.

(** *** [createNode] builds the subtree of its template *)

Lemma builtNode_frame (t : details) :
  Dom.nodeType (builtNode t) <> DOCUMENT_FRAGMENT_NODE
  /\ childRefs (builtNode t) = []
  /\ parentRef (builtNode t) = None.
Proof.
  unfold builtNode.
  destruct (String.eqb (type t) "text"); [repeat split; discriminate|].
  destruct (String.eqb (type t) "comment"); [repeat split; discriminate|].
  destruct (written_frame (attributes t) (freshNode ELEMENT_NODE (type t) (isSVG t) ""))
    as (H1 & H2 & H3).
  rewrite H1, H2, H3. repeat split; discriminate.
Qed.

Lemma materialises_root hi d par r t :
  materialises hi d par r t ->
  (r < hi)%nat
  /\ exists x, store d !! r = Some x
       /\ parentRef x = par
       /\ Dom.nodeType x <> DOCUMENT_FRAGMENT_NODE.
Proof.
  intros Hm. inversion Hm as [? ? ? kids Hr Hx _ _]; subst.
  split; [exact Hr|]. eexists. split; [exact Hx|]. split; [reflexivity|].
  apply builtNode_frame.
Qed.

Lemma appendChildren_builds (r : nat) (cs : list details) :
  Forall (fun t => buildable t = true -> builds t) cs ->
  forallb buildable cs = true ->
  forall d kids0 x0,
    (r < nextRef d)%nat -> canHaveChildren x0 = true ->
    store d !! r = Some (withChildren kids0 x0) ->
    exists d' kids,
      forEach (fun c => child ← createNode c; appendChild r child) cs d = (Ok tt, d')
      /\ (nextRef d <= nextRef d')%nat
      /\ store d' !! r = Some (withChildren (kids0 ++ kids) x0)
      /\ (forall k, (k < nextRef d)%nat -> k <> r -> store d' !! k = store d !! k)
      /\ Forall2 (fun c tc => (nextRef d <= c)%nat
                              /\ materialises (nextRef d') d' (Some r) c tc) kids cs
      /\ exists js, journal d' = journal d ++ js
           /\ Forall (fun m => (r <= subject m)%nat) js.
Proof.
  induction cs as [|tc cs IH]; intros Hall Hb d kids0 x0 Hr Hcan Hx.
  - exists d, []. simpl. rewrite app_nil_r. repeat split; auto.
    exists []. split; [now rewrite app_nil_r | constructor].
  - simpl in Hb. apply andb_true_iff in Hb as [Hbt Hbs].
    rewrite Forall_cons in Hall. destruct Hall as [Htc Hall].
    destruct (Htc Hbt d) as (d1 & Hrun1 & Hnext1 & Hold1 & Hm1 & js1 & Hj1 & Hjs1).
    set (c := nextRef d) in *.
    destruct (materialises_root _ _ _ _ _ Hm1) as (_ & xc & Hxc & Hparc & Htyc).
    assert (Hxr1 : store d1 !! r = Some (withChildren kids0 x0))
      by (rewrite Hold1 by exact Hr; exact Hx).
    set (d2 := Document (alter (withParent (Some r)) c
                           (alter (fun y => withChildren (childRefs y ++ [c]) y) r
                                  (store d1)))
                        (nextRef d1) (journal d1 ++ [AppendChild r c])).
    assert (Hrun2 : appendChild r c d1 = (Ok tt, d2))
      by (now apply appendChild_fresh with (withChildren kids0 x0) xc).
    assert (Hrc : r <> c) by lia.
    assert (Hxr2 : store d2 !! r = Some (withChildren (kids0 ++ [c]) x0)).
    { simpl. rewrite lookup_alter_ne, lookup_alter_eq, Hxr1 by congruence. reflexivity. }
    assert (Hm2 : materialises (nextRef d2) d2 (Some r) c tc).
    { apply (materialises_move tc (nextRef d1) (nextRef d1) d1 d2 None (Some r) c);
        [lia | | | exact Hm1].
      - intros k Hk. simpl. rewrite !lookup_alter_ne by lia. reflexivity.
      - intros x Hx'. simpl. rewrite lookup_alter_eq, lookup_alter_ne, Hx' by congruence.
        reflexivity. }
    destruct (IH Hall Hbs d2 (kids0 ++ [c]) x0) as
      (d' & kids & Hrun & Hnext & Hxr' & Hold' & Hms & js & Hj & Hjs);
      [simpl; lia | exact Hcan | exact Hxr2 |].
    simpl in Hnext.
    exists d', (c :: kids). split; [|split; [|split; [|split; [|split]]]].
    + simpl. rewrite (bind_ok _ _ d tt d2); [exact Hrun|].
      now rewrite (bind_ok _ _ d c d1 Hrun1).
    + lia.
    + rewrite Hxr', <- app_assoc. reflexivity.
    + intros k Hk Hkr. rewrite Hold' by (simpl; lia).
      simpl. rewrite !lookup_alter_ne by lia. now apply Hold1.
    + constructor.
      * split; [lia|].
        destruct (materialises_root _ _ _ _ _ Hm2) as (Hc2 & x2 & Hx2 & Hpar2 & _).
        apply (materialises_move tc (nextRef d2) (nextRef d') d2 d' (Some r) (Some r) c);
          [exact Hnext | | | exact Hm2].
        -- intros k Hk. apply Hold'; lia.
        -- intros x Hx'. rewrite Hold' by (simpl in *; lia).
           rewrite Hx'. rewrite Hx' in Hx2. inversion Hx2; subst x2.
           now rewrite withParent_id.
      * apply (Forall2_impl _ _ _ _ Hms). intros c' tc' [Hle Hm]. split; [|exact Hm].
        simpl in Hle. lia.
    + exists (js1 ++ [AppendChild r c] ++ js). split.
      * rewrite Hj. simpl. rewrite Hj1, <- !app_assoc. reflexivity.
      * apply Forall_app. split.
        -- apply (Forall_impl _ _ _ Hjs1). intros m Hm. lia.
        -- constructor; [simpl; lia | exact Hjs].
Qed.

Lemma buildable_eq (t : details) :
  buildable t
  = (if isCharacterData t then
       match attributes t, children t with
       | [], [] => true
       | _, _ => false
       end
     else forallb (writable (isSVG t)) (attributes t))
    && forallb buildable (children t).
Proof. destruct t; reflexivity. Qed.

Lemma setTextContent_data (n : nat) (v : option string) d x :
  store d !! n = Some x -> canHaveChildren x = false ->
  setTextContent n v d
  = (Ok tt, Document (alter (withData (match v with Some s => s | None => "" end)) n
                            (store d))
                     (nextRef d)
                     (journal d
                      ++ [SetTextContent n (match v with Some s => s | None => "" end)])).
Proof.
  intros Hx Hcan.
  unfold setTextContent, getNode, mbind, M_bind, bind, modify, record.
  now rewrite Hx, Hcan.
Qed.

Lemma setTextContent_leaf (n : nat) (v : option string) d x :
  store d !! n = Some x -> canHaveChildren x = true -> childRefs x = [] ->
  setTextContent n v d
  = (let s := match v with Some s => s | None => "" end in
     (Ok tt,
      if Js.truthy s then
        Document (<[nextRef d := LiveNode TEXT_NODE "" false [] [] s [] (Some n)]>
                    (alter (withChildren [nextRef d]) n
                           (alter (withChildren []) n (store d))))
                 (S (nextRef d)) (journal d ++ [SetTextContent n s])
      else
        Document (alter (withChildren []) n (store d)) (nextRef d)
                 (journal d ++ [SetTextContent n s]))).
Proof.
  intros Hx Hcan Hkids.
  unfold setTextContent, removeAllChildren, insertTextChild, getNode,
    mbind, M_bind, bind, modify, record, ret.
  rewrite Hx, Hcan. simpl. unfold getNode. rewrite Hx, Hkids. simpl.
  destruct (Js.truthy _); reflexivity.
Qed.

Lemma createNode_builds (t : details) : buildable t = true -> builds t.
Proof.
  induction t as [n c atts ty svg kids IH] using details_ind.
  intros Hb d. rewrite buildable_eq in Hb. unfold isCharacterData in Hb.
  rewrite createNode_eq. cbn [type content attributes children isSVG] in *.
  destruct (String.eqb ty "text") eqn:E1; [|destruct (String.eqb ty "comment") eqn:E2].
  - (* a text node *)
    simpl in Hb. destruct atts; [|discriminate]. destruct kids; [|discriminate].
    eexists. split; [reflexivity|]. simpl.
    split; [lia|]. split; [|split].
    + intros k Hk. apply lookup_insert_ne. lia.
    + apply materialises_node with []; [lia | | intros Hne; now contradiction Hne |].
      * cbn [store]. rewrite lookup_insert_eq. unfold builtNode. simpl.
        now rewrite E1.
      * intros _. unfold leafChildren, isCharacterData. simpl. now rewrite E1.
    + eexists. split; [reflexivity|]. repeat constructor.
  - (* a comment *)
    simpl in Hb. destruct atts; [|discriminate]. destruct kids; [|discriminate].
    set (x0 := freshNode COMMENT_NODE "" false (domString c)).
    set (d0 := Document (<[nextRef d := x0]> (store d)) (S (nextRef d))
                        (journal d ++ [Created (nextRef d)])).
    assert (Hx0 : store d0 !! nextRef d = Some x0) by (simpl; apply lookup_insert_eq).
    eexists. split.
    + rewrite (bind_ok _ _ d (nextRef d) d0) by reflexivity.
      rewrite (bind_ok _ _ d0 tt d0) by reflexivity.
      simpl. erewrite bind_ok; [reflexivity|].
      now apply setTextContent_data with x0.
    + simpl. split; [lia|]. split; [|split].
      * intros k Hk. rewrite lookup_alter_ne, lookup_insert_ne by lia.
        reflexivity.
      * apply materialises_node with [];
          [lia | | intros Hne; now contradiction Hne |].
        -- simpl. rewrite lookup_alter_eq, lookup_insert_eq.
           unfold builtNode, leafText. simpl. rewrite E1, E2. reflexivity.
        -- intros _. unfold leafChildren, isCharacterData. simpl.
           now rewrite E1, E2.
      * eexists. split; [now rewrite <- app_assoc|]. repeat constructor.
  - (* an element *)
    simpl in Hb. apply andb_true_iff in Hb as [Hatts Hkids].
    set (x0 := freshNode ELEMENT_NODE ty svg "").
    set (d0 := Document (<[nextRef d := x0]> (store d)) (S (nextRef d))
                        (journal d ++ [Created (nextRef d)])).
    assert (Hcreate : (if svg then createElementNS_svg ty else createElement ty) d
                      = (Ok (nextRef d), d0)) by (destruct svg; reflexivity).
    assert (Hx0 : store d0 !! nextRef d = Some x0) by (simpl; apply lookup_insert_eq).
    destruct (addAttributes_element (nextRef d) atts d0 x0 Hx0 eq_refl Hatts)
      as (d1 & Hrun1 & Hx1 & Hold1 & Hnext1 & js1 & Hj1 & Hjs1).
    set (t := Details n c atts ty svg kids) in *.
    assert (Hbuilt : written atts x0 = builtNode t)
      by (unfold builtNode; simpl; now rewrite E1, E2).
    rewrite Hbuilt in Hx1.
    destruct (builtNode_frame t) as (Hty & Hnokids & Hnopar).
    assert (Hcan : canHaveChildren (builtNode t) = true).
    { rewrite <- Hbuilt. unfold canHaveChildren.
      now rewrite (proj1 (written_frame atts x0)). }
    rewrite (bind_ok _ _ d (nextRef d) d0 Hcreate), (bind_ok _ _ d0 tt d1 Hrun1).
    destruct kids as [|k kids].
    + (* no children: the text content *)
      change (0 <? length (@nil details))%nat with false. cbn [negb]. cbv iota.
      pose proof (setTextContent_leaf (nextRef d) c d1 _ Hx1 Hcan Hnokids) as Hset.
      cbv zeta in Hset. eexists. split.
      { erewrite bind_ok; [reflexivity | exact Hset]. }
      rewrite Hnext1. simpl nextRef.
      destruct (Js.truthy (match c with Some s => s | None => "" end)) eqn:Etext.
      * simpl. split; [lia|]. split; [|split].
        -- intros j Hj. rewrite lookup_insert_ne, !lookup_alter_ne by lia.
           rewrite Hold1 by lia. simpl. apply lookup_insert_ne. lia.
        -- apply materialises_node with [S (nextRef d)];
             [lia | | intros Hne; now contradiction Hne |].
           ++ simpl. rewrite lookup_insert_ne, !lookup_alter_eq, Hx1 by lia.
              simpl. f_equal. symmetry. now apply withParent_id.
           ++ intros _. unfold leafChildren, isCharacterData, leafText. simpl.
              rewrite E1, E2, Etext. simpl.
              exists (S (nextRef d)). split; [reflexivity|]. split; [lia|].
              simpl. now rewrite lookup_insert_eq.
        -- eexists. split; [rewrite Hj1; simpl; now rewrite <- !app_assoc|].
           apply Forall_app. split; [|apply Forall_app; split].
           ++ repeat constructor.
           ++ apply (Forall_impl _ _ _ Hjs1). intros m ->. lia.
           ++ repeat constructor.
      * simpl. split; [lia|]. split; [|split].
        -- intros j Hj. rewrite !lookup_alter_ne by lia.
           rewrite Hold1 by lia. simpl. apply lookup_insert_ne. lia.
        -- apply materialises_node with [];
             [lia | | intros Hne; now contradiction Hne |].
           ++ simpl. rewrite lookup_alter_eq, Hx1.
              simpl. f_equal. symmetry. now apply withParent_id.
           ++ intros _. unfold leafChildren, isCharacterData, leafText. simpl.
              now rewrite E1, E2, Etext.
        -- eexists. split; [rewrite Hj1; simpl; now rewrite <- !app_assoc|].
           apply Forall_app. split; [|apply Forall_app; split].
           ++ repeat constructor.
           ++ apply (Forall_impl _ _ _ Hjs1). intros m ->. lia.
           ++ repeat constructor.
    + (* children *)
      change (0 <? length (k :: kids))%nat with true. cbv iota.
      destruct (appendChildren_builds (nextRef d) (k :: kids) IH Hkids d1 []
                  (builtNode t))
        as (d2 & live & Hrun2 & Hnext2 & Hx2 & Hold2 & Hms & js2 & Hj2 & Hjs2).
      { rewrite Hnext1. simpl. lia. }
      { exact Hcan. }
      { rewrite Hx1. f_equal. symmetry. now apply withChildren_id. }
      rewrite Hnext1 in Hnext2. simpl in Hnext2, Hx2.
      exists d2. split; [|split; [|split; [|split]]].
      * now rewrite (bind_ok _ _ d1 tt d2 Hrun2).
      * lia.
      * intros j Hj. rewrite Hold2 by (rewrite ?Hnext1; simpl; lia).
        rewrite Hold1 by lia. simpl. apply lookup_insert_ne. lia.
      * apply materialises_node with live; [lia | | |].
        -- rewrite Hx2. f_equal. symmetry. now apply withParent_id.
        -- intros _. apply (Forall2_impl _ _ _ _ Hms).
           intros c' tc [Hle Hm]. split; [|exact Hm].
           rewrite Hnext1 in Hle. simpl in Hle. lia.
        -- discriminate.
      * exists ([Created (nextRef d)] ++ js1 ++ js2). split.
        -- rewrite Hj2, Hj1. simpl. now rewrite <- !app_assoc.
        -- apply Forall_app. split; [repeat constructor|].
           apply Forall_app. split; [|exact Hjs2].
           apply (Forall_impl _ _ _ Hjs1). intros m ->. lia.
Qed.


(** *** Step 5b *)

Lemma build_up_appends_to_parent (global : globalObject) (t e : details)
    (element : nat) d :
  type t = type e -> content t = content e ->
  children e = [] -> children t <> [] ->
  diffChild global t (Some e) element d
  = (diffAttributes global t e ;;
     fragment ← createDocumentFragment;
     diffDOM global (children t) [] fragment ;;
     appendChild element fragment) d.
Proof.
  intros Hty Hco He Ht. rewrite diffChild_eq.
  rewrite Hty, String.eqb_refl, Hco, bool_decide_eq_true_2, He by reflexivity.
  destruct (children t) as [|k kids]; [contradiction|]. reflexivity.
Qed.

(** On handles and next trees that come from [createDOMMap] (a content
    exactly on the nodes without children) step 5b is never reached: a
    handle without children has a content, a next node with children has
    none, and step 4 overwrites the text content instead. *)
Lemma parsed_leaf_takes_content_step (global : globalObject) (t e : details)
    (element : nat) d :
  (content t <> None <-> children t = []) ->
  (content e <> None <-> children e = []) ->
  type t = type e -> children e = [] -> children t <> [] ->
  content t = None
  /\ diffChild global t (Some e) element d
     = (diffAttributes global t e ;; setTextContent (node e) None) d.
Proof.
  intros Ht He Hty Hkids Hmore.
  assert (Hct : content t = None).
  { destruct (content t) as [s|]; [|reflexivity].
    exfalso. apply Hmore, Ht. discriminate. }
  assert (Hce : content e <> None) by (now apply He).
  split; [exact Hct|].
  rewrite diffChild_eq, Hty, String.eqb_refl, Hct.
  rewrite bool_decide_eq_false_2 by congruence. reflexivity.
Qed.

(** *** Clearing attributes *)

Lemma setClassName_html (n : nat) (v : string) d x :
  store d !! n = Some x -> isElement x = true -> svgNamespace x = false ->
  setClassName n v d
  = (Ok tt, Document (alter (fun y => withAttrs (assocSet "class" v (attrList y)) y) n
                            (store d))
                     (nextRef d) (journal d ++ [SetAttribute n "class" v])).
Proof.
  intros Hx He Hsvg. unfold setClassName, getNode, mbind, M_bind, bind, modify, record.
  rewrite Hx, He, Hsvg. reflexivity.
Qed.

Lemma removeAttributes_clearable (n : nat) (l : list attribute) : forall d x,
  store d !! n = Some x -> isElement x = true ->
  forallb (clearable (svgNamespace x)) l = true ->
  exists d',
    removeAttributes n l d = (Ok tt, d')
    /\ store d' !! n = Some (withAttrs (cleared l (attrList x)) x)
    /\ (forall k, k <> n -> store d' !! k = store d !! k)
    /\ nextRef d' = nextRef d
    /\ journal d' = journal d ++ List.map (removalOf n) l.
Proof.
  induction l as [|a l IH]; intros d x Hx He Hl.
  - exists d. simpl. rewrite app_nil_r. repeat split; auto.
    rewrite Hx. now destruct x.
  - simpl in Hl. apply andb_true_iff in Hl as [Ha Hl].
    unfold clearable, notStyle in Ha. apply andb_true_iff in Ha as [Hs Hc].
    apply negb_true_iff in Hs, Hc.
    set (step := if String.eqb (name a) "class" then assocSet "class" "" (attrList x)
                 else assocRemove (name a) (attrList x)).
    set (d1 := Document (alter (fun y => withAttrs
                           (if String.eqb (name a) "class"
                            then assocSet "class" "" (attrList y)
                            else assocRemove (name a) (attrList y)) y) n (store d))
                        (nextRef d) (journal d ++ [removalOf n a])).
    assert (Hstep : (if String.eqb (name a) "class" then setClassName n ""
                     else if String.eqb (name a) "style" then
                       current ← getStyle n; removeStyles n (List.map fst current)
                     else removeAttribute n (name a)) d = (Ok tt, d1)).
    { unfold d1, removalOf. destruct (String.eqb (name a) "class") eqn:Ec.
      - rewrite andb_true_r in Hc. now apply setClassName_html with x.
      - rewrite Hs. now apply removeAttribute_element with x. }
    assert (Hx1 : store d1 !! n = Some (withAttrs step x)).
    { unfold d1, step. simpl. rewrite lookup_alter_eq, Hx. reflexivity. }
    destruct (IH d1 _ Hx1 He Hl) as (d' & Hrun & Hn & Hother & Hnext & Hj).
    exists d'. split; [|split; [|split; [|split]]].
    + unfold removeAttributes in *. simpl.
      rewrite (bind_ok _ _ d tt d1 Hstep). exact Hrun.
    + rewrite Hn. unfold cleared, step. simpl.
      destruct (String.eqb (name a) "class"); reflexivity.
    + intros k Hk. rewrite (Hother k Hk). simpl. now rewrite lookup_alter_ne.
    + exact Hnext.
    + rewrite Hj. simpl. now rewrite <- app_assoc.
Qed.

Lemma addAttributes_clearable (n : nat) (l : list attribute) : forall d x,
  store d !! n = Some x -> isElement x = true ->
  forallb (clearable (svgNamespace x)) l = true ->
  exists d',
    addAttributes n l d = (Ok tt, d')
    /\ store d' !! n = Some (withAttrs (assigned l (attrList x)) x)
    /\ (forall k, k <> n -> store d' !! k = store d !! k)
    /\ nextRef d' = nextRef d
    /\ journal d' = journal d ++ List.map (writeOf n) l.
Proof.
  induction l as [|a l IH]; intros d x Hx He Hl.
  - exists d. simpl. rewrite app_nil_r. repeat split; auto.
    rewrite Hx. now destruct x.
  - simpl in Hl. apply andb_true_iff in Hl as [Ha Hl].
    unfold clearable, notStyle in Ha. apply andb_true_iff in Ha as [Hs Hc].
    apply negb_true_iff in Hs, Hc.
    set (d1 := Document (alter (fun y => withAttrs
                           (assocSet (name a) (writtenValue a) (attrList y)) y)
                           n (store d))
                        (nextRef d) (journal d ++ [writeOf n a])).
    assert (Hstep : (if String.eqb (name a) "class" then
                       setClassName n (domString (value a))
                     else if String.eqb (name a) "style" then
                       diffStyles n (value a)
                     else setAttribute n (name a) (valueOrTrue (value a))) d
                    = (Ok tt, d1)).
    { unfold d1, writeOf, writtenValue.
      destruct (String.eqb (name a) "class") eqn:Ec.
      - rewrite andb_true_r in Hc. apply String.eqb_eq in Ec. rewrite Ec.
        now apply setClassName_html with x.
      - rewrite Hs. now apply setAttribute_element with x. }
    assert (Hx1 : store d1 !! n
                  = Some (withAttrs (assocSet (name a) (writtenValue a) (attrList x)) x)).
    { unfold d1. simpl. rewrite lookup_alter_eq, Hx. reflexivity. }
    destruct (IH d1 _ Hx1 He Hl) as (d' & Hrun & Hn & Hother & Hnext & Hj).
    exists d'. split; [|split; [|split; [|split]]].
    + unfold addAttributes in *. simpl.
      rewrite (bind_ok _ _ d tt d1 Hstep). exact Hrun.
    + rewrite Hn. reflexivity.
    + intros k Hk. rewrite (Hother k Hk). simpl. now rewrite lookup_alter_ne.
    + exact Hnext.
    + rewrite Hj. simpl. now rewrite <- app_assoc.
Qed.

Lemma assocGet_assigned (k : string) (l : list attribute) :
  NoDup (List.map name l) -> forall atts,
  assocGet k (assigned l atts)
  = match writtenIn k l with
    | Some v => Some v
    | None => assocGet k atts
    end.
Proof.
  unfold writtenIn.
  induction l as [|a l IH]; intros Hnd atts; [reflexivity|].
  simpl in Hnd. rewrite NoDup_cons in Hnd. destruct Hnd as [Ha Hnd].
  unfold assigned in *. simpl. rewrite (IH Hnd), assocGet_assocSet.
  destruct (String.eqb (name a) k) eqn:E; [|reflexivity].
  apply String.eqb_eq in E. subst k.
  rewrite find_name_none; [reflexivity|].
  intros Hin. apply Ha. now apply list_elem_of_In.
Qed.

Lemma writtenIn_hasName (k : string) (l : list attribute) :
  hasName k l = match writtenIn k l with Some _ => true | None => false end.
Proof.
  rewrite hasName_find. unfold writtenIn.
  now destruct (List.find _ l).
Qed.

Lemma writtenIn_valueIn (k : string) (l : list attribute) :
  forallb nonEmptyValue l = true -> writtenIn k l = valueIn k l.
Proof.
  intros Hval. unfold writtenIn, valueIn.
  destruct (List.find _ l) as [a|] eqn:Ef; [|reflexivity].
  apply find_name_in in Ef as [Ha _].
  rewrite forallb_forall in Hval. specialize (Hval a Ha).
  unfold nonEmptyValue in Hval. unfold writtenValue, valueOrTrue. simpl.
  destruct (value a) as [v|]; [|discriminate]. rewrite Hval.
  now destruct (String.eqb (name a) "class").
Qed.

(** The attributes of the live node after the attributes of the next
    node were written and the missing ones were cleared. *)
Lemma reconciled_written (t e : details) (atts : list (string * string)) (k : string) :
  attributes e = getAttributes atts ->
  NoDup (List.map name (attributes t)) ->
  assocGet k (cleared (getRemovedAttributes t e) (assigned (attributes t) atts))
  = match writtenIn k (attributes t) with
    | Some v => Some v
    | None => if String.eqb k "class" && hasName "class" (attributes e)
              then Some "" else None
    end.
Proof.
  intros He Hndt.
  rewrite assocGet_cleared, hasName_removed, assocGet_assigned by assumption.
  rewrite (assocGet_getAttributes k atts), <- He.
  rewrite (writtenIn_hasName k (attributes t)).
  destruct (writtenIn k (attributes t)) as [v|].
  - now rewrite andb_false_r.
  - rewrite andb_true_r. simpl.
    destruct (hasName k (attributes e)) eqn:Hh.
    + destruct (String.eqb k "class") eqn:Ec; [|reflexivity].
      apply String.eqb_eq in Ec. subst k. now rewrite Hh.
    + rewrite hasName_find in Hh. unfold valueIn.
      destruct (List.find _ (attributes e)) eqn:Ee; [discriminate|]. simpl.
      destruct (String.eqb k "class") eqn:Ec; [|reflexivity].
      apply String.eqb_eq in Ec. subst k.
      rewrite hasName_find, Ee. reflexivity.
Qed.

(** *** Writes that leave the tree alone *)

Lemma sameTree_refl d : sameTree d d.
Proof. split; reflexivity. Qed.

Lemma sameTree_trans d1 d2 d3 : sameTree d1 d2 -> sameTree d2 d3 -> sameTree d1 d3.
Proof.
  intros [H1 K1] [H2 K2]. split; [congruence|]. intros k. now rewrite K2, K1.
Qed.

Lemma attributesOnly_ret {A} (a : A) : attributesOnly (ret a).
Proof.
  intros d r d' H. inversion H; subst. split; [apply sameTree_refl|].
  exists []. now rewrite app_nil_r.
Qed.

Lemma attributesOnly_throw {A} (e : jsError) : attributesOnly (@throw A e).
Proof.
  intros d r d' H. inversion H; subst. split; [apply sameTree_refl|].
  exists []. now rewrite app_nil_r.
Qed.

Lemma attributesOnly_bind {A B} (m : M A) (k : A -> M B) :
  attributesOnly m -> (forall a, attributesOnly (k a)) -> attributesOnly (m ≫= k).
Proof.
  intros Hm Hk d r d' H. unfold mbind, M_bind, bind in H.
  destruct (m d) as [[a|e] d1] eqn:E.
  - destruct (Hm _ _ _ E) as (T1 & js1 & J1 & F1).
    destruct (Hk a _ _ _ H) as (T2 & js2 & J2 & F2).
    split; [now apply sameTree_trans with d1|].
    exists (js1 ++ js2). rewrite J2, J1, <- app_assoc. split; [reflexivity|].
    rewrite forallb_app. now rewrite F1, F2.
  - inversion H; subst. exact (Hm _ _ _ E).
Qed.

Lemma attributesOnly_forEach {A} (f : A -> M unit) (l : list A) :
  (forall x, In x l -> attributesOnly (f x)) -> attributesOnly (forEach f l).
Proof.
  induction l as [|x l IH]; intros Hf; simpl; [apply attributesOnly_ret|].
  apply attributesOnly_bind; [apply Hf; now left|].
  intros _. apply IH. intros y Hy. apply Hf. now right.
Qed.

Lemma attributesOnly_filterM {A} (f : A -> M bool) (l : list A) :
  (forall x, attributesOnly (f x)) -> attributesOnly (filterM f l).
Proof.
  intros Hf. induction l as [|x l IH]; simpl; [apply attributesOnly_ret|].
  apply attributesOnly_bind; [apply Hf|]. intros keep.
  apply attributesOnly_bind; [exact IH|]. intros rest. apply attributesOnly_ret.
Qed.

Lemma attributesOnly_record (m : mutation) :
  isAttributeWrite m = true -> attributesOnly (record m).
Proof.
  intros Hm d r d' H. inversion H; subst. split; [split; reflexivity|].
  exists [m]. split; [reflexivity|]. simpl. now rewrite Hm.
Qed.

Lemma attributesOnly_getNode (n : nat) : attributesOnly (getNode n).
Proof.
  intros d r d' H. unfold getNode in H.
  destruct (store d !! n); inversion H; subst;
    (split; [apply sameTree_refl|]; exists []; now rewrite app_nil_r).
Qed.

Lemma attributesOnly_modify (n : nat) (f : liveNode -> liveNode) :
  (forall y, skeleton (f y) = skeleton y) -> attributesOnly (modify n f).
Proof.
  intros Hf d r d' H. inversion H; subst; clear H. split.
  - split; [reflexivity|]. intros k. simpl.
    destruct (decide (k = n)) as [->|Hne].
    + rewrite lookup_alter_eq. destruct (store d !! n); simpl; [|reflexivity].
      now rewrite Hf.
    + now rewrite lookup_alter_ne by congruence.
  - exists []. now rewrite app_nil_r.
Qed.

Create HintDb attributesOnly discriminated.

#[local] Hint Resolve attributesOnly_ret attributesOnly_throw attributesOnly_getNode
  : attributesOnly.

Ltac attributesOnly_step :=
  first
    [ solve [auto 1 with attributesOnly nocore]
    | apply attributesOnly_bind; [|intros ?]
    | apply attributesOnly_modify; intros []; reflexivity
    | apply attributesOnly_record; reflexivity
    | apply attributesOnly_forEach; intros ? _
    | match goal with
      | |- attributesOnly (if ?b then _ else _) => destruct b
      | |- attributesOnly (match ?x with _ => _ end) => destruct x
      end ].

Ltac attributesOnly := repeat attributesOnly_step.

Lemma attributesOnly_setAttribute n k v : attributesOnly (setAttribute n k v).
Proof. unfold setAttribute. attributesOnly. Qed.

Lemma attributesOnly_removeAttribute n k : attributesOnly (removeAttribute n k).
Proof. unfold removeAttribute. attributesOnly. Qed.

Lemma attributesOnly_setClassName n v : attributesOnly (setClassName n v).
Proof. unfold setClassName. attributesOnly. Qed.

Lemma attributesOnly_getStyle n : attributesOnly (getStyle n).
Proof. unfold getStyle. attributesOnly. Qed.

#[local] Hint Resolve attributesOnly_setAttribute attributesOnly_removeAttribute
  attributesOnly_setClassName attributesOnly_getStyle : attributesOnly.

Lemma attributesOnly_setStyleProperty n k v : attributesOnly (setStyleProperty n k v).
Proof. unfold setStyleProperty. attributesOnly. Qed.

Lemma attributesOnly_setStyleUndefined n : attributesOnly (setStyleUndefined n).
Proof. unfold setStyleUndefined. attributesOnly. Qed.

#[local] Hint Resolve attributesOnly_setStyleProperty attributesOnly_setStyleUndefined
  : attributesOnly.

Lemma attributesOnly_removeStyles n l : attributesOnly (removeStyles n l).
Proof. unfold removeStyles. attributesOnly. Qed.

Lemma attributesOnly_changeStyles n l : attributesOnly (changeStyles n l).
Proof. unfold changeStyles. attributesOnly. Qed.

#[local] Hint Resolve attributesOnly_removeStyles attributesOnly_changeStyles
  : attributesOnly.

Lemma attributesOnly_diffStyles n v : attributesOnly (diffStyles n v).
Proof. unfold diffStyles. attributesOnly. Qed.

#[local] Hint Resolve attributesOnly_diffStyles : attributesOnly.

Lemma attributesOnly_addAttributes n l : attributesOnly (addAttributes n l).
Proof. unfold addAttributes. attributesOnly. Qed.

Lemma attributesOnly_removeAttributes n l : attributesOnly (removeAttributes n l).
Proof. unfold removeAttributes. attributesOnly. Qed.

Lemma attributesOnly_find global arr callback :
  attributesOnly (find global arr callback).
Proof. unfold find. attributesOnly. Qed.

#[local] Hint Resolve attributesOnly_addAttributes attributesOnly_removeAttributes
  attributesOnly_find : attributesOnly.

Lemma attributesOnly_getChangingAttributes global t e :
  attributesOnly (getChangingAttributes global t e).
Proof.
  unfold getChangingAttributes. apply attributesOnly_filterM. intros a. attributesOnly.
Qed.

#[local] Hint Resolve attributesOnly_getChangingAttributes : attributesOnly.

Lemma attributesOnly_diffAttributes global t e :
  attributesOnly (diffAttributes global t e).
Proof. unfold diffAttributes. attributesOnly. Qed.

Lemma attributesOnly_forEachIndexed (f : details -> nat -> M unit) (l : list details) :
  forall i,
    (forall j x, l !! j = Some x -> attributesOnly (f x (i + j)%nat)) ->
    attributesOnly (forEachIndexed f l i).
Proof.
  induction l as [|x l IH]; intros i Hf; simpl; [apply attributesOnly_ret|].
  apply attributesOnly_bind.
  - specialize (Hf 0%nat x eq_refl). now rewrite Nat.add_0_r in Hf.
  - intros _. apply IH. intros j y Hy.
    replace (S i + j)%nat with (i + S j)%nat by lia. now apply Hf.
Qed.

(** A pass over a tree of the same shape, attributes included: whatever
    [diffAttributes] writes, nothing else is written. *)
Lemma sameShape_attributesOnly (global : globalObject) (element : nat)
    (ts es : list details) :
  Forall2 sameShape ts es ->
  Forall (fun t => forall e el, sameShape t e ->
                   attributesOnly (diffChild global t (Some e) el)) ts ->
  attributesOnly (diffDOM global ts es element).
Proof.
  intros Hsh Hall. unfold diffDOM, diffDOMWith.
  replace (Z.of_nat (length es) - Z.of_nat (length ts)) with 0
    by (apply Forall2_length in Hsh; lia).
  change (0 >? 0) with false. cbv iota.
  apply attributesOnly_bind; [apply attributesOnly_ret|]. intros _.
  apply attributesOnly_forEachIndexed. intros j t Ht. simpl.
  destruct (Forall2_lookup_l _ _ _ _ _ Hsh Ht) as (e & He & Hte).
  rewrite He. rewrite List.Forall_forall in Hall.
  apply Hall; [|exact Hte]. apply list_elem_of_In. now apply list_elem_of_lookup_2 with j.
Qed.

Lemma diffChild_attributesOnly (global : globalObject) (t : details) :
  forall e element, sameShape t e -> attributesOnly (diffChild global t (Some e) element).
Proof.
  induction t as [n c atts ty svg kids IH] using details_ind.
  intros e element Hs. inversion Hs as [t' e' Hty Hat Hco Hch]; subst t' e'.
  rewrite diffChild_eq. rewrite Hty, String.eqb_refl. cbn [negb].
  apply attributesOnly_bind; [apply attributesOnly_diffAttributes|]. intros _.
  rewrite Hco, bool_decide_eq_true_2 by reflexivity. cbn [negb].
  pose proof (Forall2_length _ _ _ Hch) as Hlen. simpl in Hlen |- *.
  rewrite <- Hlen.
  destruct kids as [|k kids]; [apply attributesOnly_ret|].
  simpl length. simpl.
  now apply sameShape_attributesOnly.
Qed.

Lemma diffDOM_attributesOnly (global : globalObject) (templateMap domMap : list details)
    (element : nat) :
  Forall2 sameShape templateMap domMap ->
  attributesOnly (diffDOM global templateMap domMap element).
Proof.
  intros H. apply sameShape_attributesOnly; [exact H|].
  apply Forall_forall. intros t _. apply diffChild_attributesOnly.
Qed.

(** *** The pairs a pass visits *)


(** *** The visits of leaf pairs *)




End VdomFacts.

(** ** The claims on the virtual DOM *)

Module ReconcileClaims.
Import Dom Vdom VdomSpec VdomFacts.

(** C1, as stated, fails for [class]: present on the live node and
    absent from the next node, it is not removed but cleared through
    [className], and the live node still carries the attribute. *)
Lemma class_is_cleared_not_removed :
  fst (diffDOM browser [bareDiv] [classedDiv] 0%nat classPage) = Ok tt
  /\ attributes bareDiv = []
  /\ attributeOf 1 "class" (snd (diffDOM browser [bareDiv] [classedDiv] 0%nat classPage))
     = Some ""
  /\ journal (snd (diffDOM browser [bareDiv] [classedDiv] 0%nat classPage))
     = [SetAttribute 1 "class" ""].
Proof. vm_compute. repeat split. Qed.

(** C1, amended. In a browser, for an element whose handle records its
    live attributes, with no [style] on either node (and no [class] on
    either, if the live node is an SVG element) and distinct attribute
    names on the next node: [diffAttributes] returns; it takes from the
    live node exactly the attributes whose name the next node does not
    have, one [removeAttribute] each, but for [class], which it sets to
    the empty string; before that it only writes attributes of the next
    node with their values ([class] as it is, for another name [true]
    in place of an empty or [null] value); no other node is touched.
    The live node then carries the attributes of the next node with
    those values and no other, besides a cleared [class]; they are the
    values of the next node when none of them is empty. *)
Theorem diffAttributes_reconciles (find : string -> bool) (template existing : details)
    (d : document) (x : liveNode) :
  store d !! node existing = Some x ->
  isElement x = true ->
  attributes existing = getAttributes (attrList x) ->
  NoDup (List.map name (attributes template)) ->
  forallb (clearable (svgNamespace x)) (attributes existing) = true ->
  forallb (clearable (svgNamespace x)) (attributes template) = true ->
  let removed := getRemovedAttributes template existing in
  (forall a, In a removed
     <-> In a (attributes existing)
         /\ ~ In (name a) (List.map name (attributes template)))
  /\ exists d' sets,
       diffAttributes (Window find) template existing d = (Ok tt, d')
       /\ journal d'
          = journal d ++ sets ++ List.map (removalOf (node existing)) removed
       /\ Forall (fun m => exists a, In a (attributes template)
                    /\ m = writeOf (node existing) a)
                 sets
       /\ (forall k, attributeOf (node existing) k d'
                     = match writtenIn k (attributes template) with
                       | Some v => Some v
                       | None => if String.eqb k "class"
                                    && hasName "class" (attributes existing)
                                 then Some "" else None
                       end)
       /\ (forallb nonEmptyValue (attributes template) = true ->
           forall k, attributeOf (node existing) k d'
                     = match valueIn k (attributes template) with
                       | Some v => Some v
                       | None => if String.eqb k "class"
                                    && hasName "class" (attributes existing)
                                 then Some "" else None
                       end)
       /\ (forall n, n <> node existing -> store d' !! n = store d !! n).
Proof.
  intros Hx He Hmirror Hndt Hce Hct removed.
  split; [intros a; apply removed_iff|].
  destruct (addAttributes_clearable (node existing) (attributes template) d x Hx He Hct)
    as (d1 & Hrun1 & Hn1 & Hother1 & _ & Hj1).
  destruct (removeAttributes_clearable (node existing) removed d1 _ Hn1 He)
    as (d2 & Hrun2 & Hn2 & Hother2 & _ & Hj2).
  { now apply forallb_filter. }
  assert (Hend : forall k, attributeOf (node existing) k d2
                   = match writtenIn k (attributes template) with
                     | Some v => Some v
                     | None => if String.eqb k "class"
                                  && hasName "class" (attributes existing)
                               then Some "" else None
                     end).
  { intros k. unfold attributeOf. rewrite Hn2. simpl.
    now apply reconciled_written. }
  exists d2, (List.map (writeOf (node existing)) (attributes template)).
  split; [|split; [|split; [|split; [exact Hend|split]]]].
  - unfold diffAttributes. fold removed.
    rewrite (bind_ok _ _ d (attributes template) d)
      by apply getChangingAttributes_window.
    now rewrite (bind_ok _ _ d tt d1 Hrun1).
  - rewrite Hj2, Hj1. now rewrite <- app_assoc.
  - apply Forall_forall. intros m Hm. apply list_elem_of_In in Hm.
    apply in_map_iff in Hm as (a & <- & Ha). eauto.
  - intros Hval k. rewrite Hend. now rewrite writtenIn_valueIn.
  - intros n Hn. now rewrite (Hother2 n Hn), (Hother1 n Hn).
Qed.

Lemma diffAttributes_reconciles_witness :
  exists d' sets,
    diffAttributes browser nextWithClass currentAB samplePage = (Ok tt, d')
    /\ journal d' = [] ++ sets ++ [RemoveAttribute 1 "a"]
    /\ (forall k, attributeOf 1 k d'
                  = match valueIn k (attributes nextWithClass) with
                    | Some v => Some v
                    | None => if String.eqb k "class" && false then Some "" else None
                    end)
    /\ (forall n, n <> 1%nat -> store d' !! n = store samplePage !! n).
Proof.
  destruct (diffAttributes_reconciles (fun _ => false) nextWithClass currentAB
             samplePage (sampleDiv [("a", "1"); ("b", "2")] [] (Some 0%nat)))
    as (_ & d' & sets & H1 & H2 & _ & _ & H3 & H4); try reflexivity.
  - by_computation.
  - exists d', sets. split; [exact H1|]. split; [exact H2|]. split; [|exact H4].
    now apply H3.
Defined.

(** The example of C1, computed: [a] removed, [b] updated, [c] added. *)
Example attribute_round_trip :
  fst firstPass = Ok tt
  /\ (attrList <$> store (snd firstPass) !! 1%nat) = Some [("b", "3"); ("c", "4")]
  /\ journal (snd firstPass)
     = [SetAttribute 1 "b" "3"; SetAttribute 1 "c" "4"; RemoveAttribute 1 "a"].
Proof. vm_compute. repeat split. Qed.


(** Step 5b itself, on a handle made by hand (a live [div] without
    children whose handle has the content [null], which [createDOMMap]
    never makes): the new text node [3] is built in the fragment [2],
    but the fragment is appended to [element], the node the pass was
    called with (node [0]): the new node becomes a sibling of the live
    [div], which stays empty. *)
Lemma build_up_lands_beside_live_node :
  fst (diffDOM browser [divWithText] [emptyDivHandle] 0%nat emptyDivPage) = Ok tt
  /\ journal (snd (diffDOM browser [divWithText] [emptyDivHandle] 0%nat emptyDivPage))
     = [Created 2; Created 3; AppendChild 2 3; AppendChild 0 2]
  /\ childrenOf 1 (snd (diffDOM browser [divWithText] [emptyDivHandle] 0%nat
                          emptyDivPage)) = []
  /\ childrenOf 0 (snd (diffDOM browser [divWithText] [emptyDivHandle] 0%nat
                          emptyDivPage))
     = [1; 3]%nat
  /\ parentIn 3 (snd (diffDOM browser [divWithText] [emptyDivHandle] 0%nat
                        emptyDivPage))
     = Some 0%nat.
Proof. vm_compute. repeat split. Qed.



(** The example of C4, computed on a list of five items with their
    texts and a next list of two: the three trailing items are removed,
    and the texts of the first and of the second item (nodes [6] and
    [7]) are overwritten with the first and the second next text. *)
Example tail_trim_five_to_two :
  let next := createDOMMap twoItemsBody false in
  let retained := createDOMMap fiveItemsBody false in
  fst (diffDOM browser next retained 0%nat fiveItemsPage) = Ok tt
  /\ childrenOf 0 (snd (diffDOM browser next retained 0%nat fiveItemsPage)) = [1; 2]%nat
  /\ journal (snd (diffDOM browser next retained 0%nat fiveItemsPage))
     = [RemoveChild 0 3; RemoveChild 0 4; RemoveChild 0 5;
        SetTextContent 6 "one"; SetTextContent 7 "two"].
Proof. vm_compute. repeat split. Qed.




(** C8, as stated, fails: the differ leaves the handles as they were, so
    the pass after a pass that changed something finds the same
    differences and writes them again. *)
Lemma second_pass_writes_again :
  fst firstPass = Ok tt
  /\ fst secondPass = Ok tt
  /\ journal (snd secondPass)
     = journal (snd firstPass)
       ++ [SetAttribute 1 "b" "3"; SetAttribute 1 "c" "4"; RemoveAttribute 1 "a"].
Proof. vm_compute. repeat split. Qed.

(** The same with handles read again from the live node before each
    pass: for [<input disabled>] the live value is ["true"] and the next
    value is empty, so every pass writes ["true"] again and leaves the
    node as it found it. *)
Lemma empty_value_is_rewritten_every_pass :
  fst (diffDOM browser [disabledInput] [inputHandle] 0%nat inputPage) = Ok tt
  /\ store (snd (diffDOM browser [disabledInput] [inputHandle] 0%nat inputPage))
     = store inputPage
  /\ journal (snd (diffDOM browser [disabledInput] [inputHandle] 0%nat inputPage))
     = [SetAttribute 1 "disabled" "true"].
Proof. vm_compute. repeat split. Qed.

(** C8, amended. A pass whose next tree has the same shape as the
    retained tree (the same types, attributes, content and children at
    every position, as when the render output has not changed since the
    retained tree was built) creates, removes and replaces no node and
    writes no content, whether it returns or throws: the documents
    before and after have the same nodes with the same kind, data,
    children and parent, and every write of the pass is an attribute or
    style write. When the tree has no attributes, the pass returns and
    leaves the document as it was: the store, the allocation counter
    and the journal of writes. *)
Theorem same_shape_keeps_tree (global : globalObject) (templateMap domMap : list details)
    (element : nat) (d : document) :
  Forall2 sameShape templateMap domMap ->
  (exists r d',
     diffDOM global templateMap domMap element d = (r, d')
     /\ sameTree d d'
     /\ exists js, journal d' = journal d ++ js /\ forallb isAttributeWrite js = true)
  /\ (forallb bare templateMap = true ->
      diffDOM global templateMap domMap element d = (Ok tt, d)).
Proof.
  intros Hsh. split.
  - destruct (diffDOM global templateMap domMap element d) as [r d'] eqn:E.
    exists r, d'. split; [reflexivity|].
    exact (diffDOM_attributesOnly global templateMap domMap element Hsh d r d' E).
  - intros Hb. now apply diffDOM_sameShape.
Qed.

Lemma same_shape_keeps_tree_witness :
  (exists r d',
     diffDOM browser [currentAB] [currentAB] 0%nat samplePage = (r, d')
     /\ sameTree samplePage d'
     /\ exists js, journal d' = journal samplePage ++ js
                   /\ forallb isAttributeWrite js = true)
  /\ (forallb bare [currentAB] = true ->
      diffDOM browser [currentAB] [currentAB] 0%nat samplePage = (Ok tt, samplePage)).
Proof.
  apply (same_shape_keeps_tree browser [currentAB] [currentAB] 0%nat samplePage).
  constructor; [|constructor].
  constructor; try reflexivity. constructor.
Defined.

(** In particular, parsing the same markup again gives a next tree of
    the same shape as the retained tree, and the pass leaves the tree
    alone. *)
Corollary unchanged_markup_keeps_tree (global : globalObject) (body body' : domNode)
    (isSVG isSVG' : bool) (element : nat) :
  sameMarkup body' body ->
  attributesOnly (diffDOM global (createDOMMap body' isSVG') (createDOMMap body isSVG)
                          element).
Proof.
  intros H. apply diffDOM_attributesOnly. now apply createDOMMap_sameShape.
Qed.

(** C9. Every node of the tree that [createDOMMap] returns, at any
    depth, has a content exactly when it has no children; it is the
    image of a parsed node below the root, with one child per child of
    that node, and for a parsed node without children it keeps the text
    content and has no children. *)
Theorem createDOMMap_content_iff_leaf (element : domNode) (isSVG : bool) (d : details) :
  within d (createDOMMap element isSVG) ->
  (content d <> None <-> children d = [])
  /\ exists n, descendantOf n element
       /\ node d = ref n
       /\ length (children d) = length (childNodes n)
       /\ (childNodes n = [] -> content d = Some (textContent n) /\ children d = []).
Proof.
  intros Hin. apply createDOMMap_within in Hin as (n & svg & Hn & ->).
  destruct (createDOMMapNode_local svg n) as (Href & Hlen & Hcontent).
  split.
  - rewrite Hcontent. destruct (children (createDOMMapNode svg n)) as [|c cs] eqn:Ec.
    + rewrite <- Hlen. simpl. split; [reflexivity | discriminate].
    + rewrite <- Hlen. simpl. split; [now intros [] | discriminate].
  - exists n. split; [exact Hn|]. split; [exact Href|]. split; [exact Hlen|].
    intros Hnil. split.
    + rewrite Hcontent, Hnil. reflexivity.
    + rewrite Hnil in Hlen. now destruct (children (createDOMMapNode svg n)).
Qed.

Lemma createDOMMap_content_iff_leaf_witness :
  (content emptyItem <> None <-> children emptyItem = [])
  /\ exists n, descendantOf n sampleBody
       /\ node emptyItem = ref n
       /\ length (children emptyItem) = length (childNodes n)
       /\ (childNodes n = [] ->
           content emptyItem = Some (textContent n) /\ children emptyItem = []).
Proof.
  apply (createDOMMap_content_iff_leaf sampleBody false).
  apply within_below with (e := createDOMMapNode false
    (DomNode 11 Element "UL" [("class", "list")] ""
       [DomNode 12 Element "LI" [] "" [DomNode 13 Text "" [] "one" []];
        DomNode 14 Element "LI" [] "" []])).
  - left. reflexivity.
  - apply within_here. right. left. reflexivity.
Defined.

(** C10. On an element, applying an attribute that is neither [class]
    nor [style] and whose value is [null] or the empty string calls
    [setAttribute] with ["true"]: that is the value the live element
    then has and the write the journal records. So the live node built
    for [<input disabled>] has [disabled="true"], not the empty value of
    its template. *)
Theorem falsy_attribute_becomes_true (element : nat) (a : attribute)
    (rest : list attribute) (d : document) (x : liveNode) :
  store d !! element = Some x ->
  isElement x = true ->
  name a <> "class" ->
  name a <> "style" ->
  value a = None \/ value a = Some "" ->
  (exists d1,
     setAttribute element (name a) "true" d = (Ok tt, d1)
     /\ addAttributes element (a :: rest) d = addAttributes element rest d1
     /\ attributeOf element (name a) d1 = Some "true"
     /\ journal d1 = journal d ++ [SetAttribute element (name a) "true"])
  /\ (exists fresh d',
        createNode disabledInput emptyDocument = (Ok fresh, d')
        /\ valueIn "disabled" (attributes disabledInput) = Some ""
        /\ attributeOf fresh "disabled" d' = Some "true").
Proof.
  intros Hx He Hc Hs Hv. split.
  - eexists. split; [now apply setAttribute_element with x|].
    assert (Hvt : valueOrTrue (value a) = "true") by (destruct Hv as [->| ->]; reflexivity).
    apply String.eqb_neq in Hc, Hs.
    split; [|split].
    + unfold addAttributes. simpl. rewrite Hc, Hs, Hvt.
      erewrite bind_ok; [reflexivity|]. now apply setAttribute_element with x.
    + unfold attributeOf. simpl. rewrite lookup_alter_eq, Hx. simpl.
      now rewrite assocGet_assocSet, String.eqb_refl.
    + reflexivity.
  - eexists. eexists. split; [vm_compute; reflexivity|]. split; reflexivity.
Qed.

Lemma falsy_attribute_becomes_true_witness :
  exists d1,
    setAttribute 1 "hidden" "true" samplePage = (Ok tt, d1)
    /\ addAttributes 1 [Attribute "hidden" (Some "")] samplePage = addAttributes 1 [] d1
    /\ attributeOf 1 "hidden" d1 = Some "true"
    /\ journal d1 = journal samplePage ++ [SetAttribute 1 "hidden" "true"].
Proof.
  refine (proj1 (falsy_attribute_becomes_true 1 (Attribute "hidden" (Some "")) []
            samplePage (sampleDiv [("a", "1"); ("b", "2")] [] (Some 0%nat))
            eq_refl eq_refl _ _ (or_intror eq_refl))); discriminate.
Defined.

End ReconcileClaims.
(** * Properties of the lifecycle *)

Module ElementFacts.
Import Element.

Section Runtime.

Context {VNode : Type}.
Variable create : string -> option VNode.
Variable renderReturns : VNode -> bool.
Variable updateReturns : VNode -> vdomField VNode -> bool.
Variable class : extender.
Variable hookReturns : lifecycle -> list (effect VNode) -> bool.

#[local] Abbreviation instance := (instance VNode).
#[local] Abbreviation renderDOM :=
  (renderDOM create renderReturns updateReturns class hookReturns).
#[local] Abbreviation flush :=
  (flush create renderReturns updateReturns class hookReturns).
#[local] Abbreviation notify :=
  (notify create renderReturns updateReturns class hookReturns).
#[local] Abbreviation run := (run create renderReturns updateReturns class hookReturns).
#[local] Abbreviation connectedCallback := (connectedCallback class hookReturns).
#[local] Abbreviation disconnectedCallback := (disconnectedCallback class hookReturns).
#[local] Abbreviation attributeChangedCallback :=
  (attributeChangedCallback class hookReturns).
#[local] Abbreviation runLifecycle := (runLifecycle class hookReturns).
#[local] Abbreviation hookEffects := (hookEffects class hookReturns).
#[local] Abbreviation hookThrows := (hookThrows class hookReturns).
#[local] Abbreviation libraryReturns := (libraryReturns renderReturns updateReturns).

(** *** Errors of a pass *)

Lemma getDOMString_error (render : method) (m : string) :
  getDOMString class render = inl (Error m) ->
  (render = NotAFunction /\ Error m = noRenderMethod class)
  \/ (exists v, render = Returns v /\ isString v = false
                /\ Error m = nonStringTemplate class).
Proof.
  destruct render as [|v|]; simpl.
  - intros H; inversion H; auto.
  - destruct v; intros H; inversion H; subst; right; eexists; eauto.
  - discriminate.
Qed.

Lemma getDOMString_string (render : method) (s : string) :
  getDOMString class render = inr s <-> render = Returns (JsString s).
Proof.
  destruct render as [|v|]; simpl; [|destruct v|]; split; intros H;
    inversion H; subst; reflexivity.
Qed.

Lemma getVDOM_tree (render : method) (v : VNode) :
  getVDOM create class render = inr v
  <-> exists markup, render = Returns (JsString markup) /\ create markup = Some v.
Proof.
  unfold getVDOM. split.
  - destruct (getDOMString class render) as [e|s] eqn:E; [discriminate|].
    apply getDOMString_string in E.
    destruct (create s) eqn:Ec; intros H; inversion H; subst. eauto.
  - intros (markup & -> & Hc). simpl. now rewrite Hc.
Qed.

Lemma getVDOM_Error (render : method) (m : string) :
  getVDOM create class render = inl (Error m)
  <-> getDOMString class render = inl (Error m).
Proof.
  unfold getVDOM. destruct (getDOMString class render) as [e|s].
  - split; intros H; inversion H; reflexivity.
  - destruct (create s); split; discriminate.
Qed.

(** *** The callbacks, in one equation each *)

Lemma runLifecycle_spec (name : lifecycle) (call : effect VNode) (this : instance) :
  runLifecycle name call this
  = (if hookThrows name call (effects this) then Threw (HookFailure name)
     else Returned,
     Instance (isFirstRender this) (isDisconnected this) (vDOM this)
              (renderPending this)
              (effects this ++ hookEffects name call (effects this))).
Proof.
  unfold Element.runLifecycle, Element.hookThrows, Element.hookEffects, emit.
  destruct this as [f dc vd rp es]. simpl.
  destruct (defines class name); simpl; [|now rewrite app_nil_r].
  destruct (hookReturns name (es ++ [call])); simpl; [reflexivity|].
  now rewrite <- app_assoc.
Qed.

Lemma connectedCallback_spec (isConnected : bool) (this : instance) :
  connectedCallback isConnected this
  = if isConnected && negb (isDisconnected this) then
      (if hookThrows elementDidConnect (Called elementDidConnect) (effects this)
       then Threw (HookFailure elementDidConnect) else Returned,
       Instance (isFirstRender this) (isDisconnected this) (vDOM this)
         (renderPending this
          || negb (hookThrows elementDidConnect (Called elementDidConnect)
                              (effects this)))
         (effects this
          ++ hookEffects elementDidConnect (Called elementDidConnect) (effects this)
          ++ (if hookThrows elementDidConnect (Called elementDidConnect) (effects this)
              then []
              else match styles class with
                   | Some css => [StyleTagAppended css]
                   | None => []
                   end ++ [Scheduled])))
    else (Returned, this).
Proof.
  unfold Element.connectedCallback.
  destruct (isConnected && negb (isDisconnected this)); [|reflexivity].
  rewrite runLifecycle_spec.
  destruct (hookThrows elementDidConnect _ _); simpl.
  - now rewrite orb_false_r, app_nil_r.
  - unfold requestRender, schedule, renderStyles, emit. rewrite orb_true_r.
    destruct (styles class); simpl; now rewrite <- !app_assoc.
Qed.

Lemma disconnectedCallback_spec (this : instance) :
  disconnectedCallback this
  = (if hookThrows elementWillUnmount (Called elementWillUnmount) (effects this)
     then Threw (HookFailure elementWillUnmount) else Returned,
     Instance (isFirstRender this)
       (isDisconnected this
        || negb (hookThrows elementWillUnmount (Called elementWillUnmount)
                            (effects this)))
       (if hookThrows elementWillUnmount (Called elementWillUnmount) (effects this)
        then vDOM this else Null)
       (renderPending this)
       (effects this
        ++ hookEffects elementWillUnmount (Called elementWillUnmount) (effects this))).
Proof.
  unfold Element.disconnectedCallback. rewrite runLifecycle_spec.
  destruct (hookThrows elementWillUnmount _ _); simpl.
  - now rewrite orb_false_r.
  - now rewrite orb_true_r.
Qed.

Lemma attributeChangedCallback_spec (name : string) (o n : option string)
    (this : instance) :
  attributeChangedCallback name o n this
  = if bool_decide (o = n) then (Returned, this)
    else (if hookThrows elementAttributeChanged (AttributeChangedCalled name o n)
                        (effects this)
          then Threw (HookFailure elementAttributeChanged) else Returned,
          Instance (isFirstRender this) (isDisconnected this) (vDOM this)
            (renderPending this)
            (effects this
             ++ hookEffects elementAttributeChanged (AttributeChangedCalled name o n)
                            (effects this))).
Proof.
  unfold Element.attributeChangedCallback.
  destruct (bool_decide (o = n)); [reflexivity|]. apply runLifecycle_spec.
Qed.

(** A pass: nothing when [render] gives no tree; the tree alone when
    the library call throws; otherwise the library call and the
    lifecycle method, whose exception keeps [isFirstRender]. *)
Lemma renderDOM_spec (render : method) (this : instance) :
  renderDOM render this
  = match getVDOM create class render with
    | inl e => (Threw e, this)
    | inr v =>
        if libraryReturns v this then
          (if hookThrows (passHook this) (Called (passHook this))
                         (effects this ++ [passEffect v this])
           then Threw (HookFailure (passHook this)) else Returned,
           Instance
             (isFirstRender this
              && hookThrows (passHook this) (Called (passHook this))
                            (effects this ++ [passEffect v this]))
             (isDisconnected this)
             (if isFirstRender this then Tree v else vDOM this)
             (renderPending this)
             ((effects this ++ [passEffect v this])
              ++ hookEffects (passHook this) (Called (passHook this))
                             (effects this ++ [passEffect v this])))
        else (Threw LibraryFailure,
              Instance (isFirstRender this) (isDisconnected this)
                (if isFirstRender this then Tree v else vDOM this)
                (renderPending this) (effects this))
    end.
Proof.
  unfold Element.renderDOM, getInitialRenderState, getNextRenderState,
    Element.libraryReturns, passEffect, passHook.
  destruct this as [f dc vd rp es]. simpl.
  destruct (getVDOM create class render) as [e|v]; [now destruct f|].
  destruct f; simpl.
  - destruct (renderReturns v); [|reflexivity].
    rewrite runLifecycle_spec. simpl.
    destruct (hookThrows elementDidMount _ _); reflexivity.
  - destruct (updateReturns v vd); [|reflexivity].
    rewrite runLifecycle_spec. simpl.
    destruct (hookThrows elementDidUpdate _ _); reflexivity.
Qed.

Lemma renderDOM_Error_state (render : method) (this : instance) (m : string) :
  fst (renderDOM render this) = Threw (Error m) ->
  getDOMString class render = inl (Error m) /\ snd (renderDOM render this) = this.
Proof.
  rewrite renderDOM_spec.
  destruct (getVDOM create class render) as [e|v] eqn:E.
  - simpl. intros H. inversion H; subst. split; [|reflexivity].
    now apply getVDOM_Error.
  - destruct (libraryReturns v this); simpl; [|discriminate].
    destruct (hookThrows _ _ _); discriminate.
Qed.

(** *** What a hook call leaves *)

Lemma hookEffects_cases (name : lifecycle) (call : effect VNode)
    (before : list (effect VNode)) :
  Forall (fun e => e = call \/ e = HookThrew name) (hookEffects name call before).
Proof.
  unfold Element.hookEffects. destruct (defines class name); [|constructor].
  destruct (hookReturns name _); repeat (constructor; [auto|]); constructor.
Qed.

Lemma hookThrows_effects (name : lifecycle) (call : effect VNode)
    (before : list (effect VNode)) :
  hookEffects name call before
  = if defines class name
    then call :: (if hookThrows name call before then [HookThrew name] else [])
    else [].
Proof.
  unfold Element.hookEffects, Element.hookThrows.
  destruct (defines class name); [|reflexivity]. simpl.
  now destruct (hookReturns name _).
Qed.

(** *** The two flags *)



Lemma notify_first_render_done (n : notification) (this : instance) :
  isFirstRender this = false -> isFirstRender (snd (notify n this)) = false.
Proof.
  intros H. destruct n; simpl; auto.
  - rewrite connectedCallback_spec.
    now destruct (isConnected && negb (isDisconnected this)).
  - now rewrite disconnectedCallback_spec.
  - rewrite attributeChangedCallback_spec.
    now destruct (bool_decide (oldValue = newValue)).
  - unfold Element.flush. destruct (renderPending this); [|exact H].
    rewrite renderDOM_spec. simpl. rewrite H.
    destruct (getVDOM create class render) as [e|v]; [reflexivity|].
    now destruct (libraryReturns v _).
Qed.

Lemma run_first_render_done (ns : list notification) : forall this : instance,
  isFirstRender this = false -> isFirstRender (run ns this) = false.
Proof.
  induction ns as [|n ns IH]; intros this H; [exact H|].
  simpl. apply IH. now apply notify_first_render_done.
Qed.

(** *** The shape of the pass log *)

Lemma filter_none_of {A} (f : A -> bool) (l : list A) :
  forallb (fun e => negb (f e)) l = true -> List.filter f l = [].
Proof.
  induction l as [|e l IH]; [reflexivity|]. simpl. intros H.
  apply andb_true_iff in H as [H1 H2]. apply negb_true_iff in H1.
  rewrite H1. auto.
Qed.

Lemma passLog_other (this this' : instance) (extra : list (effect VNode)) :
  isFirstRender this' = isFirstRender this ->
  effects this' = effects this ++ extra ->
  forallb (fun e => negb (ofPass e)) extra = true ->
  passInvariant hookReturns this -> passInvariant hookReturns this'.
Proof.
  intros Hf He Hx Hinv.
  assert (Hlog : passLog this' = passLog this).
  { unfold passLog. rewrite He, List.filter_app, (filter_none_of _ _ Hx).
    apply app_nil_r. }
  unfold passInvariant. rewrite Hf, Hlog. exact Hinv.
Qed.

Lemma hookEffects_not_of_pass (name : lifecycle) (call : effect VNode)
    (before : list (effect VNode)) :
  ofPass call = false -> isPassHook name = false ->
  forallb (fun e => negb (ofPass e)) (hookEffects name call before) = true.
Proof.
  intros Hc Hn. unfold Element.hookEffects.
  destruct (defines class name); [|reflexivity].
  destruct (hookReturns name _); simpl; now rewrite Hc, ?Hn.
Qed.

Hypothesis mountDefined : defines class elementDidMount = true.
Hypothesis updateDefined : defines class elementDidUpdate = true.

Lemma renderDOM_invariant (render : method) (this : instance) :
  passInvariant hookReturns this ->
  passInvariant hookReturns (snd (renderDOM render this)).
Proof.
  intros Hinv. rewrite renderDOM_spec.
  destruct (getVDOM create class render) as [e|v]; [exact Hinv|].
  destruct (libraryReturns v this); cbn [snd].
  - destruct Hinv as (vs & Hvs & Hinv).
    unfold passHook, passEffect, Element.hookThrows, Element.hookEffects.
    destruct (isFirstRender this) eqn:Hfirst.
    + destruct Hinv as [[_ Hlog]|[Hfalse _]]; [|congruence].
      rewrite mountDefined. cbn [andb].
      destruct (hookReturns elementDidMount _) eqn:Hh; cbn [negb].
      * exists vs. split; [exact Hvs|]. right. split; [reflexivity|].
        exists v, []. unfold passLog in *. cbn [effects].
        rewrite !List.filter_app, Hlog, <- app_assoc. reflexivity.
      * exists (vs ++ [v]). split.
        { intros Hall. rewrite Hall in Hh. discriminate. }
        left. split; [reflexivity|]. unfold passLog in *. cbn [effects].
        rewrite !List.filter_app, Hlog, flat_map_app, <- !app_assoc. reflexivity.
    + destruct Hinv as [[Htrue _]|[_ (v0 & ps & Hlog)]]; [congruence|].
      rewrite updateDefined. cbn [andb].
      exists vs. split; [exact Hvs|]. right. split; [reflexivity|].
      exists v0, (ps ++ [(v, vDOM this,
                          hookReturns elementDidUpdate
                            ((effects this ++ [Updated v (vDOM this)])
                             ++ [Called elementDidUpdate]))]).
      unfold passLog in *. cbn [effects].
      rewrite !List.filter_app, Hlog, flat_map_app. simpl.
      rewrite <- !app_assoc. simpl.
      destruct (hookReturns elementDidUpdate _); simpl; now rewrite ?app_nil_r.
  - eapply (passLog_other this _ []); [reflexivity| |reflexivity|exact Hinv].
    simpl. now rewrite app_nil_r.
Qed.

Lemma notify_invariant (n : notification) (this : instance) :
  passInvariant hookReturns this -> passInvariant hookReturns (snd (notify n this)).
Proof.
  intros Hinv. destruct n; simpl.
  - rewrite connectedCallback_spec.
    destruct (isConnected && negb (isDisconnected this)); [|exact Hinv].
    eapply passLog_other; [| | |exact Hinv]; [reflexivity|reflexivity|].
    rewrite forallb_app, hookEffects_not_of_pass by reflexivity.
    destruct (hookThrows _ _ _); [reflexivity|].
    now destruct (styles class).
  - rewrite disconnectedCallback_spec.
    eapply passLog_other; [| | |exact Hinv]; [reflexivity|reflexivity|].
    now apply hookEffects_not_of_pass.
  - exact Hinv.
  - rewrite attributeChangedCallback_spec.
    destruct (bool_decide (oldValue = newValue)); [exact Hinv|].
    eapply passLog_other; [| | |exact Hinv]; [reflexivity|reflexivity|].
    now apply hookEffects_not_of_pass.
  - eapply passLog_other; [| | |exact Hinv]; reflexivity.
  - unfold Element.flush.
    destruct (renderPending this); [|exact Hinv].
    apply renderDOM_invariant.
    eapply (passLog_other this _ []); [reflexivity| |reflexivity|exact Hinv].
    simpl. now rewrite app_nil_r.
Qed.

Lemma run_invariant (ns : list notification) : forall this : instance,
  passInvariant hookReturns this -> passInvariant hookReturns (run ns this).
Proof.
  induction ns as [|n ns IH]; intros this Hinv; [exact Hinv|].
  simpl. apply IH. now apply notify_invariant.
Qed.

Lemma renderDOM_returned (render : method) (this : instance) :
  fst (renderDOM render this) = Returned ->
  exists markup v, render = Returns (JsString markup)
    /\ create markup = Some v
    /\ isFirstRender (snd (renderDOM render this)) = false
    /\ effects (snd (renderDOM render this))
       = effects this
         ++ (if isFirstRender this
             then [Rendered v; Called elementDidMount]
             else [Updated v (vDOM this); Called elementDidUpdate]).
Proof.
  rewrite renderDOM_spec.
  destruct (getVDOM create class render) as [e|v] eqn:E; [discriminate|].
  apply getVDOM_tree in E as (markup & Hr & Hc).
  destruct (libraryReturns v this); [|discriminate]. cbn [fst snd].
  destruct (hookThrows _ _ _) eqn:Ht; [discriminate|]. intros _.
  exists markup, v. split; [exact Hr|]. split; [exact Hc|].
  split; [cbn [isFirstRender]; apply andb_false_r|].
  cbn [effects]. rewrite hookThrows_effects, Ht.
  unfold passHook, passEffect.
  destruct (isFirstRender this);
    rewrite ?mountDefined, ?updateDefined, <- app_assoc; reflexivity.
Qed.

End Runtime.

End ElementFacts.

(** ** The claims on the lifecycle *)

Module LifecycleClaims.
Import Element ElementFacts.




(** C6, as stated, fails for a second attachment. The first render
    runs after the detach (the scheduled render is not cancelled) and
    calls [elementDidMount]; after adoption the element is attached again,
    and the pass of this attachment is an update: it calls
    [elementDidUpdate], and [elementDidMount] is not called in this
    attachment at all. *)
Lemma second_attachment_is_not_mounted :
  effects secondAttachment
  = [Called elementDidConnect; Scheduled; Called elementWillUnmount;
     Rendered "<p>hello</p>"; Called elementDidMount;
     Called elementDidConnect; Scheduled;
     Updated "<p>hello</p>" (Tree "<p>hello</p>"); Called elementDidUpdate].
Proof. reflexivity. Qed.

(** C6, amended. For a class that defines both hooks and any sequence
    of notifications after construction, whatever the attachments: the
    passes that got as far as their hook have left initial renders
    whose call of [elementDidMount] threw (none when [elementDidMount]
    never throws), and then either nothing more (and [isFirstRender] is
    still true), or one initial render with the call of
    [elementDidMount] that returned, followed only by updates, each
    with its call of [elementDidUpdate] (and [isFirstRender] is false,
    and stays false whatever follows). A pass that returns does the
    first or the second according to [isFirstRender] alone. *)
Theorem mounted_exactly_once {VNode : Type} (create : string -> option VNode)
    (renderReturns : VNode -> bool) (updateReturns : VNode -> vdomField VNode -> bool)
    (class : extender) (hookReturns : lifecycle -> list (effect VNode) -> bool)
    (ns : list notification) :
  defines class elementDidMount = true ->
  defines class elementDidUpdate = true ->
  let this := run create renderReturns updateReturns class hookReturns ns initialize in
  (exists vs,
     ((forall h, hookReturns elementDidMount h = true) -> vs = [])
     /\ ((isFirstRender this = true /\ passLog this = flat_map failedMount vs)
         \/ (isFirstRender this = false
             /\ exists v ps, passLog this
                  = flat_map failedMount vs
                    ++ Rendered v :: Called elementDidMount
                       :: flat_map updatePass ps)))
  /\ (isFirstRender this = false ->
      forall more,
        isFirstRender
          (run create renderReturns updateReturns class hookReturns more this) = false)
  /\ (forall render (that : instance VNode),
        fst (renderDOM create renderReturns updateReturns class hookReturns render that)
        = Returned ->
        exists markup v, render = Returns (JsString markup)
          /\ create markup = Some v
          /\ isFirstRender
               (snd (renderDOM create renderReturns updateReturns class hookReturns
                       render that))
             = false
          /\ effects (snd (renderDOM create renderReturns updateReturns class
                             hookReturns render that))
             = effects that
               ++ (if isFirstRender that
                   then [Rendered v; Called elementDidMount]
                   else [Updated v (vDOM that); Called elementDidUpdate])).
Proof.
  intros Hm Hu this. split; [|split].
  - apply (run_invariant create renderReturns updateReturns class hookReturns Hm Hu ns
             initialize).
    exists []. split; [reflexivity|]. left. split; reflexivity.
  - intros Hdone more. now apply run_first_render_done.
  - intros render that. now apply renderDOM_returned.
Qed.

Lemma mounted_exactly_once_witness :
  (isFirstRender (run markupOf always always2 everyHook always2 threeFrames initialize)
   = true
   /\ passLog (run markupOf always always2 everyHook always2 threeFrames initialize)
      = [])
  \/ (isFirstRender (run markupOf always always2 everyHook always2 threeFrames initialize)
      = false
      /\ exists v ps,
           passLog (run markupOf always always2 everyHook always2 threeFrames
                        initialize)
           = Rendered v :: Called elementDidMount :: flat_map updatePass ps).
Proof.
  destruct (mounted_exactly_once markupOf always always2 everyHook always2 threeFrames
              eq_refl eq_refl) as ((vs & Hvs & H) & _).
  rewrite (Hvs (fun _ => eq_refl)) in H. exact H.
Defined.

(** C7, as stated, fails: a pass also throws when [render] returns a
    string. The element catches nothing, so the exception of a
    lifecycle method ([elementDidMount] here) or of the library (a
    [create] that throws on this template) is the exception of the
    pass. *)
Lemma pass_throws_on_string_template :
  isString (JsString "<p>hello</p>") = true
  /\ fst (renderDOM markupOf always always2 everyHook mountThrows hello initialize)
     = Threw (HookFailure elementDidMount)
  /\ isString (JsString twoRoots) = true
  /\ fst (renderDOM oneRootOnly always always2 everyHook always2
                    (Returns (JsString twoRoots)) initialize)
     = Threw LibraryFailure.
Proof. repeat split. Qed.

(** C7, amended. A pass throws an error of the element itself exactly
    when [render] is not a function or returns something that is not a
    string. The throw comes before any write: the instance is as it
    was, so nothing is requested again. Every string, whatever its
    markup, passes [getDOMString] unchanged and is handed to the
    library. The pass returns exactly when [render] returns a string
    and neither the library ([create], then [render] or [update]) nor
    the lifecycle method of the pass throws; any exception of these is
    the exception of the pass. *)
Theorem renderDOM_throws_iff {VNode : Type} (create : string -> option VNode)
    (renderReturns : VNode -> bool) (updateReturns : VNode -> vdomField VNode -> bool)
    (class : extender) (hookReturns : lifecycle -> list (effect VNode) -> bool)
    (render : method) (this : instance VNode) :
  ((exists m, fst (renderDOM create renderReturns updateReturns class hookReturns
                     render this) = Threw (Error m))
   <-> (render = NotAFunction \/ exists v, render = Returns v /\ isString v = false))
  /\ (forall m, fst (renderDOM create renderReturns updateReturns class hookReturns
                       render this) = Threw (Error m) ->
                snd (renderDOM create renderReturns updateReturns class hookReturns
                       render this) = this)
  /\ (forall markup, getDOMString class (Returns (JsString markup)) = inr markup)
  /\ (fst (renderDOM create renderReturns updateReturns class hookReturns render this)
      = Returned
      <-> exists markup v,
            render = Returns (JsString markup)
            /\ create markup = Some v
            /\ libraryReturns renderReturns updateReturns v this = true
            /\ hookThrows class hookReturns (passHook this) (Called (passHook this))
                          (effects this ++ [passEffect v this]) = false).
Proof.
  split; [split|split; [|split; [reflexivity|split]]].
  - intros [m Hm]. apply renderDOM_Error_state in Hm as [Hm _].
    apply getDOMString_error in Hm as [[H _]|(v & H1 & H2 & _)]; eauto.
  - intros [->|(v & -> & Hv)].
    + eexists. rewrite renderDOM_spec. reflexivity.
    + eexists. rewrite renderDOM_spec. unfold getVDOM.
      destruct v; try discriminate Hv; reflexivity.
  - intros m Hm. now apply renderDOM_Error_state in Hm as [_ Hm].
  - rewrite renderDOM_spec.
    destruct (getVDOM create class render) as [e|v] eqn:E; [discriminate|].
    apply getVDOM_tree in E as (markup & Hr & Hc).
    destruct (libraryReturns renderReturns updateReturns v this) eqn:El;
      [|discriminate].
    cbn [fst]. destruct (hookThrows _ _ _ _ _) eqn:Ht; [discriminate|].
    intros _. exists markup, v. auto.
  - intros (markup & v & Hr & Hc & Hl & Ht). rewrite renderDOM_spec.
    assert (E : getVDOM create class render = inr v)
      by (apply getVDOM_tree; eauto).
    rewrite E, Hl. cbn [fst]. now rewrite Ht.
Qed.

End LifecycleClaims.

(** * Properties of the string helpers and of [getStyleMap] *)

Module StyleFacts.
Import Dom Vdom VdomSpec VdomFacts.

(** *** Characters of a string *)

Lemma indexOf_lower (c : ascii) (s : string) : -1 <= Js.indexOf c s.
Proof.
  induction s as [|d r IH]; simpl; [lia|].
  destruct (Ascii.eqb d c); [lia|].
  destruct (Js.indexOf c r <? 0) eqn:E; [lia|].
  apply Z.ltb_ge in E. lia.
Qed.

Lemma indexOf_absent (c : ascii) (s : string) :
  Js.indexOf c s = -1 <-> ~ In c (list_ascii_of_string s).
Proof.
  induction s as [|d r IH]; simpl.
  - split; [intros _ []|reflexivity].
  - destruct (Ascii.eqb_spec d c) as [->|Hne].
    + split; [lia|intros H; destruct H; now left].
    + destruct (Js.indexOf c r <? 0) eqn:E.
      * apply Z.ltb_lt in E. pose proof (indexOf_lower c r).
        assert (Hr : Js.indexOf c r = -1) by lia.
        split; [|reflexivity]. intros _ [Hin|Hin]; [congruence|].
        now apply IH in Hr.
      * apply Z.ltb_ge in E. split; [lia|].
        intros H. exfalso.
        assert (Hr : Js.indexOf c r = -1) by (apply IH; tauto). lia.
Qed.

Lemma indexOf_present (c : ascii) (s : string) :
  0 <= Js.indexOf c s <-> In c (list_ascii_of_string s).
Proof.
  pose proof (indexOf_lower c s). pose proof (indexOf_absent c s).
  destruct (in_dec ascii_dec c (list_ascii_of_string s)) as [Hin|Hout].
  - split; [tauto|]. intros _.
    destruct (Z.eq_dec (Js.indexOf c s) (-1)); [tauto|lia].
  - split; [|tauto]. intros H1. assert (Js.indexOf c s = -1) by tauto. lia.
Qed.

Lemma chars_app (a b : string) :
  list_ascii_of_string (a +:+ b) = list_ascii_of_string a ++ list_ascii_of_string b.
Proof. induction a as [|c a IH]; simpl; [reflexivity|now rewrite IH]. Qed.

(** *** [trim] *)

Lemma trimStart_chars (s : string) (a : ascii) :
  In a (list_ascii_of_string (Js.trimStart s)) -> In a (list_ascii_of_string s).
Proof.
  induction s as [|c r IH]; simpl; [tauto|].
  destruct (Js.isWhite c); simpl; tauto.
Qed.

Lemma trimEnd_chars (s : string) (a : ascii) :
  In a (list_ascii_of_string (Js.trimEnd s)) -> In a (list_ascii_of_string s).
Proof.
  induction s as [|c r IH]; simpl; [tauto|].
  destruct (Js.trimEnd r) as [|c' r'] eqn:E.
  - destruct (Js.isWhite c); simpl; tauto.
  - simpl in *. tauto.
Qed.

Lemma trim_chars (s : string) (a : ascii) :
  In a (list_ascii_of_string (Js.trim s)) -> In a (list_ascii_of_string s).
Proof. intros H. now apply trimStart_chars, trimEnd_chars. Qed.

Lemma trimStart_head (s : string) (c : ascii) (r : string) :
  Js.trimStart s = String c r -> Js.isWhite c = false.
Proof.
  induction s as [|d s IH]; simpl; [discriminate|].
  destruct (Js.isWhite d) eqn:E; [exact IH|].
  intros H. now inversion H; subst.
Qed.

Lemma trimEnd_head (c : ascii) (r : string) :
  Js.isWhite c = false -> exists r', Js.trimEnd (String c r) = String c r'.
Proof.
  intros Hc. simpl. destruct (Js.trimEnd r); rewrite ?Hc; eauto.
Qed.

Lemma trimStart_fixed (c : ascii) (r : string) :
  Js.isWhite c = false -> Js.trimStart (String c r) = String c r.
Proof. intros Hc. simpl. now rewrite Hc. Qed.

Lemma trimStart_idem (s : string) : Js.trimStart (Js.trimStart s) = Js.trimStart s.
Proof.
  destruct (Js.trimStart s) as [|c r] eqn:E; [reflexivity|].
  apply trimStart_fixed. now apply trimStart_head in E.
Qed.

Lemma trimEnd_idem (s : string) : Js.trimEnd (Js.trimEnd s) = Js.trimEnd s.
Proof.
  induction s as [|c r IH]; simpl; [reflexivity|].
  destruct (Js.trimEnd r) as [|c' r'] eqn:E.
  - destruct (Js.isWhite c) eqn:Hc; simpl; [reflexivity|now rewrite Hc].
  - change (Js.trimEnd (String c (String c' r')))
      with (match Js.trimEnd (String c' r') with
            | EmptyString => if Js.isWhite c then EmptyString else String c EmptyString
            | r'' => String c r''
            end).
    now rewrite IH.
Qed.

Lemma trim_comm (s : string) :
  Js.trimStart (Js.trimEnd s) = Js.trimEnd (Js.trimStart s).
Proof.
  induction s as [|c r IH]; [reflexivity|].
  destruct (Js.isWhite c) eqn:Hc.
  - change (Js.trimStart (String c r)) with (if Js.isWhite c then Js.trimStart r
                                             else String c r).
    rewrite Hc, <- IH. simpl.
    destruct (Js.trimEnd r) as [|c' r'] eqn:E.
    + now rewrite Hc.
    + simpl. now rewrite Hc.
  - rewrite (trimStart_fixed c r Hc).
    destruct (trimEnd_head c r Hc) as [r' ->]. now apply trimStart_fixed.
Qed.

Lemma trim_idem (s : string) : Js.trim (Js.trim s) = Js.trim s.
Proof.
  unfold Js.trim. now rewrite trim_comm, trimStart_idem, trimEnd_idem.
Qed.

Lemma trim_trimStart (s : string) : Js.trim (Js.trimStart s) = Js.trim s.
Proof. unfold Js.trim. now rewrite trimStart_idem. Qed.

Lemma trim_trimEnd (s : string) : Js.trim (Js.trimEnd s) = Js.trim s.
Proof. unfold Js.trim. now rewrite trim_comm, trimEnd_idem. Qed.

Lemma trim_head (s : string) (c : ascii) (r : string) :
  Js.trim s = String c r -> Js.isWhite c = false.
Proof.
  unfold Js.trim. rewrite <- trim_comm. apply trimStart_head.
Qed.

Lemma trimEnd_nonwhite (c : ascii) (r : string) :
  Js.isWhite c = false -> Js.trimEnd (String c r) <> "".
Proof. intros Hc. destruct (trimEnd_head c r Hc) as [r' ->]. discriminate. Qed.

(** *** [split] *)

Lemma split_nonempty (sep : ascii) (s : string) : Js.split sep s <> [].
Proof.
  destruct s as [|c r]; simpl; [discriminate|].
  destruct (Ascii.eqb c sep); [discriminate|].
  destruct (Js.split sep r); discriminate.
Qed.

Lemma split_chars (sep : ascii) (s p : string) (a : ascii) :
  In p (Js.split sep s) -> In a (list_ascii_of_string p) ->
  In a (list_ascii_of_string s) /\ a <> sep.
Proof.
  revert p. induction s as [|c r IH]; simpl; intros p Hp Ha.
  - destruct Hp as [<-|[]]. destruct Ha.
  - destruct (Ascii.eqb_spec c sep) as [->|Hne].
    + destruct Hp as [<-|Hp]; [destruct Ha|].
      destruct (IH p Hp Ha). tauto.
    + destruct (Js.split sep r) as [|q qs] eqn:E.
      * destruct Hp as [<-|[]]. destruct Ha as [<-|[]]. tauto.
      * destruct Hp as [<-|Hp].
        -- destruct Ha as [<-|Ha]; [tauto|].
           destruct (IH q (or_introl eq_refl) Ha). tauto.
        -- destruct (IH p (or_intror Hp) Ha). tauto.
Qed.

Lemma split_absent (sep : ascii) (s : string) :
  Js.indexOf sep s = -1 -> Js.split sep s = [s].
Proof.
  rewrite indexOf_absent.
  induction s as [|c r IH]; simpl; intros H; [reflexivity|].
  destruct (Ascii.eqb_spec c sep) as [->|Hne]; [tauto|].
  rewrite IH; tauto.
Qed.

Lemma split_app (sep : ascii) (a b : string) :
  Js.split sep (a +:+ String sep b) = Js.split sep a ++ Js.split sep b.
Proof.
  induction a as [|c a IH]; simpl.
  - now rewrite Ascii.eqb_refl.
  - destruct (Ascii.eqb c sep); [now rewrite IH|].
    rewrite IH. pose proof (split_nonempty sep a).
    now destruct (Js.split sep a).
Qed.

(** A string with the separator after its first character splits into
    at least two pieces, the first of them not empty. *)
Lemma split_two (sep : ascii) (s : string) :
  0 <= Js.indexOf sep s -> exists p q rest, Js.split sep s = p :: q :: rest.
Proof.
  induction s as [|c r IH]; simpl; [lia|].
  destruct (Ascii.eqb c sep).
  - intros _. pose proof (split_nonempty sep r).
    destruct (Js.split sep r) as [|q rest]; [tauto|]. eauto.
  - destruct (Js.indexOf sep r <? 0) eqn:E; [lia|].
    apply Z.ltb_ge in E. intros _.
    destruct (IH E) as (p & q & rest & ->). eauto.
Qed.

Lemma split_head (sep : ascii) (s : string) :
  (0 <? Js.indexOf sep s) = true ->
  exists c r p q rest,
    s = String c r /\ c <> sep /\ Js.split sep s = String c p :: q :: rest.
Proof.
  intros H. apply Z.ltb_lt in H.
  destruct s as [|c r]; simpl in *; [lia|].
  destruct (Ascii.eqb_spec c sep) as [->|Hne]; [lia|].
  destruct (Js.indexOf sep r <? 0) eqn:E; [lia|].
  apply Z.ltb_ge in E.
  destruct (split_two sep r E) as (p & q & rest & ->).
  exists c, r, p, q, rest. auto.
Qed.

Lemma trimStart_app (a b : string) :
  Js.trimStart a <> "" -> Js.trimStart (a +:+ b) = Js.trimStart a +:+ b.
Proof.
  induction a as [|c a IH]; simpl; [tauto|].
  destruct (Js.isWhite c); [exact IH|reflexivity].
Qed.

Lemma trimEnd_app (a b : string) :
  Js.trimEnd b <> "" -> Js.trimEnd (a +:+ b) = a +:+ Js.trimEnd b.
Proof.
  intros Hb. induction a as [|c a IH]; simpl; [reflexivity|].
  rewrite IH. destruct a as [|c' a]; simpl.
  - now destruct (Js.trimEnd b).
  - reflexivity.
Qed.

Lemma trim_truthy (s : string) :
  (if Js.truthy s then Js.trim s else "") = Js.trim s.
Proof. now destruct s. Qed.

(** *** One step of [getStyleMap] *)

Lemma styleEntry_app (acc : list (string * string)) (style : string) :
  styleEntry acc style = acc ++ styleEntry [] style.
Proof.
  unfold styleEntry.
  destruct (Js.indexOf ":" (Js.trim style) >? 0); [|now rewrite app_nil_r].
  destruct (Js.split ":" (Js.trim style)) as [|n [|v rest]];
    simpl; rewrite ?app_nil_r; reflexivity.
Qed.

Lemma fold_styleEntry (l : list string) : forall acc,
  fold_left styleEntry l acc = acc ++ fold_left styleEntry l [].
Proof.
  induction l as [|style l IH]; intros acc; simpl; [now rewrite app_nil_r|].
  rewrite IH, (IH (styleEntry [] style)), (styleEntry_app acc).
  now rewrite app_assoc.
Qed.

Lemma fold_styleEntry_in (e : string * string) (l : list string) :
  In e (fold_left styleEntry l []) ->
  exists style, In style l /\ In e (styleEntry [] style).
Proof.
  induction l as [|style l IH]; simpl; [tauto|].
  rewrite fold_styleEntry. intros H. apply in_app_or in H as [H|H].
  - exists style. tauto.
  - destruct (IH H) as (style' & Hin & He). exists style'. tauto.
Qed.

Lemma styleEntry_dropped (acc : list (string * string)) (style : string) :
  Js.indexOf ":" (Js.trim style) <= 0 -> styleEntry acc style = acc.
Proof.
  intros H. unfold styleEntry.
  destruct (Js.indexOf ":" (Js.trim style) >? 0) eqn:E; [|reflexivity].
  apply Z.gtb_lt in E. lia.
Qed.

Lemma styleEntry_kept (style : string) :
  0 < Js.indexOf ":" (Js.trim style) ->
  exists n v rest,
    Js.split ":" (Js.trim style) = n :: v :: rest
    /\ Js.trim n <> ""
    /\ styleEntry [] style = [(Js.trim n, Js.trim v)].
Proof.
  intros H. unfold styleEntry.
  destruct (Js.indexOf ":" (Js.trim style) >? 0) eqn:E;
    [|rewrite Z.gtb_ltb in E; apply Z.ltb_ge in E; lia].
  destruct (split_head ":" (Js.trim style)) as (c & r & p & q & rest & Hs & Hc & Hsplit).
  { now apply Z.ltb_lt. }
  rewrite Hsplit. exists (String c p), q, rest.
  split; [reflexivity|]. split.
  - unfold Js.trim. apply trim_head in Hs.
    rewrite (trimStart_fixed c p Hs). now apply trimEnd_nonwhite.
  - simpl app. now rewrite trim_truthy.
Qed.

(** *** Declarations set one after the other *)

Lemma assocGet_styleSteps (k : string) (l : list (string * string)) :
  ~ In k (List.map fst l) -> forall acc,
  assocGet k (fold_left (fun acc style =>
                           if Js.truthy (snd style)
                           then assocSet (fst style) (snd style) acc
                           else assocRemove (fst style) acc) l acc)
  = assocGet k acc.
Proof.
  induction l as [|[k' v'] l IH]; intros Hout acc; simpl; [reflexivity|].
  simpl in Hout. rewrite IH by tauto.
  assert (Hne : String.eqb k' k = false) by (apply String.eqb_neq; tauto).
  destruct (Js.truthy v').
  - now rewrite assocGet_assocSet, Hne.
  - now rewrite assocGet_assocRemove, Hne.
Qed.

Lemma getStyle_element (n : nat) d x :
  store d !! n = Some x -> isElement x = true ->
  getStyle n d = (Ok (styleDecls x), d).
Proof.
  intros Hx He. unfold getStyle, getNode, mbind, M_bind, bind.
  now rewrite Hx, He.
Qed.

Lemma clearStyles_element (n : nat) d x :
  store d !! n = Some x -> isElement x = true ->
  (current ← getStyle n; removeStyles n (List.map fst current)) d = (Ok tt, d).
Proof.
  intros Hx He. rewrite (bind_ok _ _ d _ d (getStyle_element n d x Hx He)).
  now apply removeStyles_element with x.
Qed.

End StyleFacts.

(** * More on [createDOMMap] *)

Module MapFacts.
Import Dom Vdom VdomSpec VdomFacts.

Lemma createDOMMapNode_flag (svg : bool) (n : domNode) :
  isSVG (createDOMMapNode svg n)
  = svg || String.eqb (type (createDOMMapNode svg n)) "svg".
Proof. now destruct n. Qed.

Lemma createDOMMapNode_below (svg : bool) (n : domNode) :
  children (createDOMMapNode svg n)
  = createDOMMap n (isSVG (createDOMMapNode svg n)).
Proof. now destruct n. Qed.

Lemma createDOMMapNode_kind (svg : bool) (n : domNode) :
  let d := createDOMMapNode svg n in
  type d = (if Vdom.nodeType n =? 3 then "text"
            else if Vdom.nodeType n =? 8 then "comment"
            else Js.toLowerCase (tagName n))
  /\ attributes d = (if Vdom.nodeType n =? 1 then getAttributes (attrs n) else [])
  /\ List.map node (children d) = List.map ref (childNodes n).
Proof.
  destruct n as [r k tag atts v kids]. simpl. repeat split.
  rewrite List.map_map. apply List.map_ext. intros c.
  apply (createDOMMapNode_local _ c).
Qed.

Lemma within_flagged (element : domNode) :
  forall d, within d (createDOMMap element true) -> isSVG d = true.
Proof.
  induction element as [r k tag atts v kids IH] using domNode_ind.
  intros d Hin. unfold createDOMMap in Hin. simpl in Hin.
  remember (List.map (createDOMMapNode true) kids) as l eqn:El.
  destruct Hin as [d l Hd | d e l He Hbelow]; subst l.
  - apply in_map_iff in Hd as (n & <- & _). now rewrite createDOMMapNode_flag.
  - apply in_map_iff in He as (m & <- & Hm).
    rewrite createDOMMapNode_below, createDOMMapNode_flag in Hbelow.
    rewrite Forall_forall in IH.
    exact (IH m (proj2 (list_elem_of_In _ _) Hm) d Hbelow).
Qed.

Lemma within_unflagged (element : domNode) :
  (forall e, within e (createDOMMap element false) -> type e <> "svg") ->
  forall d, within d (createDOMMap element false) -> isSVG d = false.
Proof.
  induction element as [r k tag atts v kids IH] using domNode_ind.
  intros Hnone d Hin.
  unfold createDOMMap in Hin, Hnone. simpl in Hin, Hnone.
  remember (List.map (createDOMMapNode false) kids) as l eqn:El.
  assert (Htop : forall m, In m kids -> isSVG (createDOMMapNode false m) = false).
  { intros m Hm. rewrite createDOMMapNode_flag. simpl.
    apply String.eqb_neq, Hnone. constructor. subst l. now apply in_map. }
  destruct Hin as [d l Hd | d e l He Hbelow]; subst l.
  - apply in_map_iff in Hd as (n & <- & Hn). now apply Htop.
  - apply in_map_iff in He as (m & <- & Hm).
    rewrite createDOMMapNode_below, (Htop m Hm) in Hbelow.
    rewrite Forall_forall in IH.
    apply (IH m (proj2 (list_elem_of_In _ _) Hm)); [|exact Hbelow].
    intros e He. apply Hnone.
    apply within_below with (createDOMMapNode false m); [now apply in_map|].
    now rewrite createDOMMapNode_below, (Htop m Hm).
Qed.

Lemma getAttributes_values (atts : list (string * string)) (a : attribute) :
  In a (getAttributes atts) -> value a <> None.
Proof.
  unfold getAttributes. rewrite in_map_iff. intros (p & <- & _). discriminate.
Qed.

Lemma createDOMMapNode_leaf (svg : bool) (n : domNode) :
  content (createDOMMapNode svg n) <> None <-> children (createDOMMapNode svg n) = [].
Proof.
  destruct n as [r k tag atts v kids]. simpl.
  destruct kids; simpl; split; congruence.
Qed.

Lemma within_leaf (element : domNode) (svg : bool) (d : details) :
  within d (createDOMMap element svg) -> (content d <> None <-> children d = []).
Proof.
  intros H. destruct (createDOMMap_within element svg d H) as (n & svg' & _ & ->).
  apply createDOMMapNode_leaf.
Qed.

End MapFacts.

(** * What the DOM operations keep *)

Module NodeFacts.
Import Dom Vdom VdomSpec VdomFacts StyleFacts.

Lemma grows_refl d : allocated d -> grows d d.
Proof. intros H. split; [exact H|]. split; [lia|eauto]. Qed.

Lemma grows_trans d1 d2 d3 : grows d1 d2 -> grows d2 d3 -> grows d1 d3.
Proof.
  intros (_ & Hle1 & Hk1) (Ha & Hle2 & Hk2). split; [exact Ha|]. split; [lia|].
  intros k x Hx. destruct (Hk1 k x Hx) as (x1 & Hx1 & Ht1).
  destruct (Hk2 k x1 Hx1) as (x2 & Hx2 & Ht2). exists x2. split; congruence.
Qed.

Lemma grows_allocated d d' : grows d d' -> allocated d'.
Proof. now intros []. Qed.

Lemma bind_throw {A B} (m : M A) (k : A -> M B) d e d1 :
  m d = (Throw e, d1) -> (m ≫= k) d = (Throw e, d1).
Proof. intros H. unfold mbind, M_bind, bind. now rewrite H. Qed.

(** *** The primitives *)

Lemma steady_ret {A} (a : A) : steady (ret a).
Proof. intros d r d' Ha H. inversion H; subst. now apply grows_refl. Qed.

Lemma steady_throw {A} (e : jsError) : steady (@throw A e).
Proof. intros d r d' Ha H. inversion H; subst. now apply grows_refl. Qed.

Lemma steady_bind {A B} (m : M A) (k : A -> M B) :
  steady m -> (forall a, steady (k a)) -> steady (m ≫= k).
Proof.
  intros Hm Hk d r d' Ha H. unfold mbind, M_bind, bind in H.
  destruct (m d) as [[a|e] d1] eqn:E.
  - apply grows_trans with d1; [now apply (Hm d (Ok a))|].
    apply (Hk a d1 r); [|exact H].
    exact (grows_allocated _ _ (Hm d (Ok a) d1 Ha E)).
  - inversion H; subst. now apply (Hm d (Throw e)).
Qed.

Lemma steady_forEach {A} (f : A -> M unit) (l : list A) :
  (forall x, In x l -> steady (f x)) -> steady (forEach f l).
Proof.
  induction l as [|x l IH]; intros Hf; simpl; [apply steady_ret|].
  apply steady_bind; [apply Hf; now left|].
  intros _. apply IH. intros y Hy. apply Hf. now right.
Qed.

Lemma steady_forEachIndexed {A} (f : A -> nat -> M unit) (l : list A) :
  (forall x i, In x l -> steady (f x i)) -> forall i, steady (forEachIndexed f l i).
Proof.
  induction l as [|x l IH]; intros Hf i; simpl; [apply steady_ret|].
  apply steady_bind; [apply Hf; now left|].
  intros _. apply IH. intros y j Hy. apply Hf. now right.
Qed.

Lemma steady_record (m : mutation) : steady (record m).
Proof.
  intros d r d' Ha H. inversion H; subst.
  split; [exact Ha|]. split; [simpl; lia|eauto].
Qed.

Lemma steady_getNode (n : nat) : steady (getNode n).
Proof.
  intros d r d' Ha H. unfold getNode in H.
  destruct (store d !! n); inversion H; subst; now apply grows_refl.
Qed.

Lemma steady_modify (n : nat) (f : liveNode -> liveNode) :
  (forall y, Dom.nodeType (f y) = Dom.nodeType y) -> steady (modify n f).
Proof.
  intros Hf d r d' Ha H. inversion H; subst; clear H. split; [|split].
  - intros k [x Hx]. apply Ha. simpl in Hx.
    destruct (decide (k = n)) as [->|Hne].
    + rewrite lookup_alter_eq in Hx. destruct (store d !! n); [eauto|discriminate].
    + rewrite lookup_alter_ne in Hx by congruence. eauto.
  - simpl. lia.
  - intros k x Hx. simpl.
    destruct (decide (k = n)) as [->|Hne].
    + rewrite lookup_alter_eq, Hx. simpl. eauto.
    + rewrite lookup_alter_ne by congruence. eauto.
Qed.

Lemma allocated_fresh d : allocated d -> store d !! nextRef d = None.
Proof.
  intros Ha. destruct (store d !! nextRef d) eqn:E; [|reflexivity].
  assert (nextRef d < nextRef d)%nat by (apply Ha; eauto). lia.
Qed.

Lemma steady_alloc (x : liveNode) : steady (alloc x).
Proof.
  intros d r d' Ha H. inversion H; subst; clear H. split; [|split].
  - intros k [y Hy]. simpl in *.
    destruct (decide (k = nextRef d)) as [->|Hne]; [lia|].
    rewrite lookup_insert_ne in Hy by congruence.
    assert (k < nextRef d)%nat by (apply Ha; eauto). lia.
  - simpl. lia.
  - intros k y Hy. simpl. exists y. split; [|reflexivity].
    rewrite lookup_insert_ne; [exact Hy|].
    intros <-. rewrite (allocated_fresh d Ha) in Hy. discriminate.
Qed.

Lemma steady_insertTextChild (n : nat) (s : string) : steady (insertTextChild n s).
Proof.
  intros d r d' Ha H. inversion H; subst; clear H. split; [|split].
  - intros k [y Hy]. simpl in *.
    destruct (decide (k = nextRef d)) as [->|Hne]; [lia|].
    rewrite lookup_insert_ne in Hy by congruence.
    assert (is_Some (store d !! k)).
    { destruct (decide (k = n)) as [->|Hkn].
      - rewrite lookup_alter_eq in Hy. destruct (store d !! n); [eauto|discriminate].
      - rewrite lookup_alter_ne in Hy by congruence. eauto. }
    assert (k < nextRef d)%nat by now apply Ha. lia.
  - simpl. lia.
  - intros k y Hy. simpl.
    assert (Hne : nextRef d <> k).
    { intros <-. rewrite (allocated_fresh d Ha) in Hy. discriminate. }
    rewrite lookup_insert_ne by exact Hne.
    destruct (decide (k = n)) as [->|Hkn].
    + rewrite lookup_alter_eq, Hy. simpl. eauto.
    + rewrite lookup_alter_ne by congruence. eauto.
Qed.

(** *** The operations built from them *)

Create HintDb steady discriminated.

#[local] Hint Resolve steady_ret steady_throw steady_record steady_getNode
  steady_alloc steady_insertTextChild : steady.

Ltac steady_step :=
  first
    [ solve [auto 1 with steady nocore]
    | apply steady_bind; [|intros ?]
    | apply steady_modify; intros []; reflexivity
    | apply steady_forEach; intros ? _
    | match goal with
      | |- steady (if ?b then _ else _) => destruct b
      | |- steady (match ?x with _ => _ end) => destruct x
      end ].

Ltac steady := repeat steady_step.

Lemma steady_setAttribute n k v : steady (setAttribute n k v).
Proof. unfold setAttribute. steady. Qed.

Lemma steady_removeAttribute n k : steady (removeAttribute n k).
Proof. unfold removeAttribute. steady. Qed.

Lemma steady_setClassName n v : steady (setClassName n v).
Proof. unfold setClassName. steady. Qed.

Lemma steady_getStyle n : steady (getStyle n).
Proof. unfold getStyle. steady. Qed.

#[local] Hint Resolve steady_setAttribute steady_removeAttribute steady_setClassName
  steady_getStyle : steady.

Lemma steady_setStyleProperty n k v : steady (setStyleProperty n k v).
Proof. unfold setStyleProperty. steady. Qed.

Lemma steady_setStyleUndefined n : steady (setStyleUndefined n).
Proof. unfold setStyleUndefined. steady. Qed.

Lemma steady_detach c : steady (detach c).
Proof. unfold detach. steady. Qed.

Lemma steady_insertedNodes c : steady (insertedNodes c).
Proof. unfold insertedNodes. steady. Qed.

Lemma steady_parentNode n : steady (parentNode n).
Proof. unfold parentNode. steady. Qed.

#[local] Hint Resolve steady_setStyleProperty steady_setStyleUndefined steady_detach
  steady_insertedNodes steady_parentNode : steady.

Lemma steady_appendChild p c : steady (appendChild p c).
Proof. unfold appendChild. steady. Qed.

Lemma steady_removeChild p c : steady (removeChild p c).
Proof. unfold removeChild. steady. Qed.

Lemma steady_replaceChild p n o : steady (replaceChild p n o).
Proof. unfold replaceChild. steady. Qed.

Lemma steady_removeAllChildren n : steady (removeAllChildren n).
Proof. unfold removeAllChildren. steady. Qed.

#[local] Hint Resolve steady_appendChild steady_removeChild steady_replaceChild
  steady_removeAllChildren : steady.

Lemma steady_setTextContent n v : steady (setTextContent n v).
Proof. unfold setTextContent. steady. Qed.

Lemma steady_clearInnerHTML n : steady (clearInnerHTML n).
Proof. unfold clearInnerHTML. steady. Qed.

Lemma steady_removeStyles n l : steady (removeStyles n l).
Proof. unfold removeStyles. steady. Qed.

Lemma steady_changeStyles n l : steady (changeStyles n l).
Proof. unfold changeStyles. steady. Qed.

#[local] Hint Resolve steady_setTextContent steady_clearInnerHTML steady_removeStyles
  steady_changeStyles : steady.

Lemma steady_diffStyles n v : steady (diffStyles n v).
Proof. unfold diffStyles. steady. Qed.

#[local] Hint Resolve steady_diffStyles : steady.

Lemma steady_addAttributes n l : steady (addAttributes n l).
Proof. unfold addAttributes. steady. Qed.

Lemma steady_removeAttributes n l : steady (removeAttributes n l).
Proof. unfold removeAttributes. steady. Qed.

#[local] Hint Resolve steady_addAttributes steady_removeAttributes : steady.

Lemma steady_filterM {A} (f : A -> M bool) (l : list A) :
  (forall x, steady (f x)) -> steady (filterM f l).
Proof.
  intros Hf. induction l as [|x l IH]; simpl; [apply steady_ret|].
  apply steady_bind; [apply Hf|]. intros keep.
  apply steady_bind; [exact IH|]. intros rest. apply steady_ret.
Qed.

Lemma steady_find global arr callback : steady (find global arr callback).
Proof. unfold find. steady. Qed.

Lemma steady_getChangingAttributes global t e :
  steady (getChangingAttributes global t e).
Proof.
  unfold getChangingAttributes. apply steady_filterM. intros a.
  apply steady_bind; [apply steady_find|]. intros b. apply steady_ret.
Qed.

#[local] Hint Resolve steady_getChangingAttributes : steady.

Lemma steady_diffAttributes global t e : steady (diffAttributes global t e).
Proof. unfold diffAttributes. steady. Qed.

Lemma steady_parentOf n : steady (parentOf n).
Proof. unfold parentOf. steady. Qed.

#[local] Hint Resolve steady_diffAttributes steady_parentOf : steady.

Lemma steady_createNode (t : details) : steady (createNode t).
Proof.
  induction t as [n c atts ty svg kids IH] using details_ind.
  rewrite createNode_eq. cbn [type content isSVG attributes children].
  apply steady_bind.
  { unfold createTextNode, createComment, createElementNS_svg, createElement.
    steady. }
  intros r. apply steady_bind; [apply steady_addAttributes|]. intros _.
  apply steady_bind; [|intros _; apply steady_ret].
  destruct (0 <? length kids)%nat.
  - apply steady_forEach. intros k Hk.
    rewrite Forall_forall in IH.
    apply steady_bind; [apply IH; now apply list_elem_of_In|].
    intros child. apply steady_appendChild.
  - destruct (negb (String.eqb ty "text")); [apply steady_setTextContent|].
    apply steady_ret.
Qed.

(** *** Parsed trees that can be built again *)

Lemma rebuildable_buildable (n : domNode) : forall svg,
  rebuildable svg n = true -> buildable (createDOMMapNode svg n) = true.
Proof.
  induction n as [r k tag atts v kids IH] using domNode_ind.
  intros svg H. destruct k.
  - simpl in H. repeat (apply andb_prop in H as [H ?]).
    rewrite buildable_eq. unfold isCharacterData. simpl.
    apply negb_true_iff in H. apply negb_true_iff in H2.
    rewrite H, H2. simpl. apply andb_true_intro. split.
    + apply forallb_forall. intros a Ha. unfold getAttributes in Ha.
      apply in_map_iff in Ha as (p & <- & Hp).
      rewrite forallb_forall in H1. specialize (H1 p Hp).
      unfold writable. simpl.
      destruct (String.eqb (fst p) "class"); [|now destruct (String.eqb (fst p) "style")].
      simpl in H1. now destruct (svg || String.eqb (Js.toLowerCase tag) "svg").
    + apply forallb_forall. intros c Hc.
      apply in_map_iff in Hc as (m & <- & Hm).
      rewrite Forall_forall in IH. rewrite forallb_forall in H0.
      apply IH; [now apply list_elem_of_In|now apply H0].
  - simpl in H. destruct kids; [reflexivity|discriminate].
  - simpl in H. destruct kids; [reflexivity|discriminate].
Qed.

Lemma forEachIndexed_forEach {A} (f : A -> nat -> M unit) (g : A -> M unit)
    (l : list A) :
  (forall x i, f x i = g x) -> forall i, forEachIndexed f l i = forEach g l.
Proof.
  intros H. induction l as [|x l IH]; intros i; simpl; [reflexivity|].
  now rewrite H, IH.
Qed.

Lemma diffDOM_nil (global : globalObject) (templateMap : list details)
    (element : nat) d :
  diffDOM global templateMap [] element d
  = forEach (fun t => child ← createNode t; appendChild element child) templateMap d.
Proof.
  unfold diffDOM, diffDOMWith.
  assert (Hc : (Z.of_nat (length (@nil details)) - Z.of_nat (length templateMap) >? 0)
               = false).
  { rewrite Z.gtb_ltb. apply Z.ltb_ge. simpl. lia. }
  rewrite Hc. rewrite (bind_ok (ret tt) _ d tt d eq_refl).
  rewrite (forEachIndexed_forEach _
             (fun t => child ← createNode t; appendChild element child)).
  - reflexivity.
  - intros t i. now rewrite lookup_nil, diffChild_eq.
Qed.

(** *** Character data cannot take children *)

Lemma appendChild_leaf (p c : nat) d x :
  store d !! p = Some x -> canHaveChildren x = false ->
  appendChild p c d = (Throw HierarchyRequestError, d).
Proof.
  intros Hx Hc. unfold appendChild, getNode, mbind, M_bind, bind.
  now rewrite Hx, Hc.
Qed.

Lemma characterData_children_throw (t : details) (d : document) :
  allocated d -> isCharacterData t = true -> children t <> [] ->
  exists e d', createNode t d = (Throw e, d').
Proof.
  intros Ha Hcd Hkids. rewrite createNode_eq.
  set (first := if String.eqb (type t) "text" then createTextNode (content t)
                else if String.eqb (type t) "comment"
                     then createComment (content t)
                else if isSVG t then createElementNS_svg (type t)
                else createElement (type t)).
  assert (Hfirst : exists x0, first d
            = (Ok (nextRef d),
               Document (<[nextRef d := x0]> (store d)) (S (nextRef d))
                        (journal d ++ [Created (nextRef d)]))
            /\ canHaveChildren x0 = false).
  { unfold first, isCharacterData in *.
    destruct (String.eqb (type t) "text").
    - eexists. split; [reflexivity|reflexivity].
    - simpl in Hcd. rewrite Hcd. eexists. split; reflexivity. }
  destruct Hfirst as (x0 & Hrun0 & Hleaf0).
  set (d0 := Document (<[nextRef d := x0]> (store d)) (S (nextRef d))
                      (journal d ++ [Created (nextRef d)])) in *.
  assert (Ha0 : allocated d0).
  { intros k [y Hy]. unfold d0 in *. simpl in *.
    destruct (decide (k = nextRef d)) as [->|Hne]; [lia|].
    rewrite lookup_insert_ne in Hy by congruence.
    assert (k < nextRef d)%nat by (apply Ha; eauto). lia. }
  assert (Hr0 : store d0 !! nextRef d = Some x0).
  { unfold d0. simpl. apply lookup_insert_eq. }
  rewrite (bind_ok _ _ d _ d0 Hrun0).
  destruct (addAttributes (nextRef d) (attributes t) d0) as [[[]|e1] d1] eqn:E1;
    [|eexists _, _; apply bind_throw; exact E1].
  rewrite (bind_ok _ _ d0 tt d1 E1).
  destruct (steady_addAttributes _ _ d0 _ d1 Ha0 E1) as (Ha1 & _ & Hk1).
  destruct (Hk1 _ _ Hr0) as (x1 & Hr1 & Hty1).
  destruct (children t) as [|c cs] eqn:Ekids; [congruence|].
  change (0 <? length (c :: cs))%nat with true. cbv iota.
  simpl forEach.
  destruct (createNode c d1) as [[child|e2] d2] eqn:E2.
  - destruct (steady_createNode c d1 _ d2 Ha1 E2) as (_ & _ & Hk2).
    destruct (Hk2 _ _ Hr1) as (x2 & Hr2 & Hty2).
    assert (Hleaf2 : canHaveChildren x2 = false).
    { unfold canHaveChildren in *. now rewrite Hty2, Hty1. }
    eexists _, _. apply bind_throw, bind_throw.
    rewrite (bind_ok _ _ d1 _ d2 E2).
    now apply appendChild_leaf with x2.
  - eexists _, _. apply bind_throw, bind_throw, bind_throw. exact E2.
Qed.

(** *** An unchanged front and a new tail *)

Lemma forEachIndexed_app_ok {A} (f : A -> nat -> M unit) (l1 l2 : list A) :
  forall i d d1,
    forEachIndexed f l1 i d = (Ok tt, d1) ->
    forEachIndexed f (l1 ++ l2) i d = forEachIndexed f l2 (i + length l1)%nat d1.
Proof.
  induction l1 as [|x l1 IH]; intros i d d1 H; simpl in *.
  - inversion H; subst. now rewrite Nat.add_0_r.
  - unfold mbind, M_bind, bind in *.
    destruct (f x i d) as [[[]|e] d0]; [|discriminate].
    rewrite (IH (S i) d0 d1 H). f_equal. lia.
Qed.

Lemma diffDOM_new_tail (global : globalObject) (ts news es : list details)
    (element : nat) d :
  Forall2 sameShape ts es ->
  forallb bare ts = true ->
  diffDOM global (ts ++ news) es element d
  = forEach (fun t => child ← createNode t; appendChild element child) news d.
Proof.
  intros Hsame Hbare. pose proof (Forall2_length _ _ _ Hsame) as Hlen.
  unfold diffDOM, diffDOMWith.
  assert (Hc : (Z.of_nat (length es) - Z.of_nat (length (ts ++ news)) >? 0) = false).
  { rewrite Z.gtb_ltb. apply Z.ltb_ge. rewrite length_app. lia. }
  rewrite Hc. rewrite (bind_ok (ret tt) _ d tt d eq_refl).
  rewrite (forEachIndexed_app_ok _ ts news 0 d d).
  - rewrite (forEachIndexed_ext _
               (fun t _ => child ← createNode t; appendChild element child)).
    + now rewrite (forEachIndexed_forEach _
                     (fun t => child ← createNode t; appendChild element child)).
    + intros j t _. rewrite lookup_ge_None_2 by lia. now rewrite diffChild_eq.
  - apply (sameShape_forEachIndexed global element ts es Hsame) with (pre := []);
      [|exact Hbare].
    apply Forall_forall. intros t _. apply diffChild_sameShape.
Qed.

End NodeFacts.

(** * Moving a node: [appendChild] on a node that may have a parent *)

Module MoveFacts.
Import Dom Vdom VdomSpec VdomFacts.

Lemma removeRef_in (c a : nat) (l : list nat) :
  In a (removeRef c l) <-> In a l /\ a <> c.
Proof.
  unfold removeRef. rewrite filter_In, negb_true_iff, Nat.eqb_neq. tauto.
Qed.

Lemma removeRef_absent (c : nat) (l : list nat) : ~ In c l -> removeRef c l = l.
Proof.
  induction l as [|a l IH]; simpl; intros H; [reflexivity|].
  destruct (Nat.eqb_spec a c) as [->|Hne]; [tauto|]. simpl. rewrite IH; tauto.
Qed.

Lemma childrenOf_in (k c : nat) d :
  In c (childrenOf k d) -> exists x, store d !! k = Some x /\ In c (childRefs x).
Proof. unfold childrenOf. destruct (store d !! k); [eauto|intros []]. Qed.

Lemma consistent_absent (d : document) (k c : nat) :
  consistent d -> parentIn c d <> Some k -> ~ In c (childrenOf k d).
Proof.
  intros Hd Hp Hin. apply childrenOf_in in Hin as (x & Hx & Hin).
  apply Hp. now apply Hd with x.
Qed.

Lemma childrenOf_store (k : nat) d n j :
  childrenOf k (Document (store d) n j) = childrenOf k d.
Proof. reflexivity. Qed.

Lemma parentIn_store (k : nat) d n j :
  parentIn k (Document (store d) n j) = parentIn k d.
Proof. reflexivity. Qed.

(** Lookups behind the two kinds of update. *)
Lemma childrenOf_alter_parent s n j n' j' c q k :
  childrenOf k (Document (alter (withParent q) c s) n j)
  = childrenOf k (Document s n' j').
Proof.
  unfold childrenOf. simpl. destruct (decide (k = c)) as [->|Hne].
  - rewrite lookup_alter_eq. now destruct (s !! c).
  - now rewrite lookup_alter_ne by congruence.
Qed.

Lemma childrenOf_alter_children s n j n' j' p (g : list nat -> list nat) k :
  childrenOf k (Document (alter (fun y => withChildren (g (childRefs y)) y) p s) n j)
  = if decide (k = p)
    then match s !! p with Some x => g (childRefs x) | None => [] end
    else childrenOf k (Document s n' j').
Proof.
  unfold childrenOf. simpl. destruct (decide (k = p)) as [->|Hne].
  - rewrite lookup_alter_eq. now destruct (s !! p).
  - now rewrite lookup_alter_ne by congruence.
Qed.

Lemma parentIn_alter_children s n j n' j' p (g : list nat -> list nat) k :
  parentIn k (Document (alter (fun y => withChildren (g (childRefs y)) y) p s) n j)
  = parentIn k (Document s n' j').
Proof.
  unfold parentIn. simpl. destruct (decide (k = p)) as [->|Hne].
  - rewrite lookup_alter_eq. now destruct (s !! p).
  - now rewrite lookup_alter_ne by congruence.
Qed.

Lemma parentIn_alter_parent s n j n' j' c q k :
  parentIn k (Document (alter (withParent q) c s) n j)
  = if decide (k = c)
    then match s !! c with Some _ => q | None => None end
    else parentIn k (Document s n' j').
Proof.
  unfold parentIn. simpl. destruct (decide (k = c)) as [->|Hne].
  - rewrite lookup_alter_eq. now destruct (s !! c).
  - now rewrite lookup_alter_ne by congruence.
Qed.

Lemma alter_kind (f : liveNode -> liveNode) (i : nat) (s : gmap nat liveNode) k x :
  (forall y, Dom.nodeType (f y) = Dom.nodeType y) ->
  s !! k = Some x ->
  exists x', alter f i s !! k = Some x' /\ Dom.nodeType x' = Dom.nodeType x.
Proof.
  intros Hf Hx. destruct (decide (k = i)) as [->|Hne].
  - rewrite lookup_alter_eq, Hx. simpl. eauto.
  - rewrite lookup_alter_ne by congruence. eauto.
Qed.

(** The store that [appendChild p c] leaves, whatever the parent of [c]. *)
Lemma appendChild_any (p c : nat) d xp xc :
  store d !! p = Some xp -> canHaveChildren xp = true ->
  store d !! c = Some xc -> Dom.nodeType xc <> DOCUMENT_FRAGMENT_NODE ->
  appendChild p c d
  = (Ok tt,
     Document
       (alter (withParent (Some p)) c
          (alter (fun y => withChildren (childRefs y ++ [c]) y) p
             (match parentRef xc with
              | None => store d
              | Some q =>
                  alter (withParent None) c
                    (alter (fun y => withChildren (removeRef c (childRefs y)) y) q
                           (store d))
              end)))
       (nextRef d) (journal d ++ [AppendChild p c])).
Proof.
  intros Hp Hcan Hc Hty.
  unfold appendChild, insertedNodes, detach, getNode, mbind, M_bind, bind, ret,
    modify, record. simpl.
  rewrite Hp, Hcan, Hc.
  replace (Dom.nodeType xc =? DOCUMENT_FRAGMENT_NODE) with false
    by (symmetry; now apply Z.eqb_neq).
  simpl. unfold getNode, mbind, M_bind, bind, ret, modify. simpl.
  rewrite Hc. destruct (parentRef xc); reflexivity.
Qed.

(** What a move does to the child lists and the parent pointers. *)
Lemma appendChild_moves (p c : nat) d xp xc :
  consistent d ->
  store d !! p = Some xp -> canHaveChildren xp = true ->
  store d !! c = Some xc -> Dom.nodeType xc <> DOCUMENT_FRAGMENT_NODE ->
  exists d',
    appendChild p c d = (Ok tt, d')
    /\ nextRef d' = nextRef d
    /\ journal d' = journal d ++ [AppendChild p c]
    /\ (forall k, childrenOf k d'
                  = if decide (k = p) then removeRef c (childrenOf k d) ++ [c]
                    else removeRef c (childrenOf k d))
    /\ (forall k, parentIn k d' = if decide (k = c) then Some p else parentIn k d)
    /\ (forall k x, store d !! k = Some x ->
          exists x', store d' !! k = Some x' /\ Dom.nodeType x' = Dom.nodeType x)
    /\ consistent d'.
Proof.
  intros Hd Hp Hcan Hc Hty.
  rewrite (appendChild_any p c d xp xc Hp Hcan Hc Hty).
  set (s1 := match parentRef xc with
             | None => store d
             | Some q =>
                 alter (withParent None) c
                   (alter (fun y => withChildren (removeRef c (childRefs y)) y) q
                          (store d))
             end).
  assert (Hpar : parentIn c d = parentRef xc) by (unfold parentIn; now rewrite Hc).
  assert (Hkids1 : forall k, childrenOf k (Document s1 (nextRef d) (journal d))
                             = removeRef c (childrenOf k d)).
  { intros k. unfold s1. destruct (parentRef xc) as [q|] eqn:Eq.
    - rewrite (childrenOf_alter_parent _ _ _ (nextRef d) (journal d)).
      rewrite (childrenOf_alter_children _ _ _ (nextRef d) (journal d)).
      rewrite childrenOf_store.
      destruct (decide (k = q)) as [->|Hne].
      + unfold childrenOf. now destruct (store d !! q).
      + symmetry. apply removeRef_absent. apply consistent_absent; [exact Hd|].
        rewrite Hpar. congruence.
    - rewrite childrenOf_store.
      symmetry. apply removeRef_absent. apply consistent_absent; [exact Hd|].
      rewrite Hpar. discriminate. }
  assert (Hp1 : exists y, s1 !! p = Some y).
  { unfold s1. destruct (parentRef xc) as [q|].
    - destruct (alter_kind (fun y => withChildren (removeRef c (childRefs y)) y) q
                  (store d) p xp) as (y & Hy & _); [reflexivity|exact Hp|].
      destruct (alter_kind (withParent None) c _ p y (fun _ => eq_refl) Hy)
        as (y' & Hy' & _). eauto.
    - eauto. }
  destruct Hp1 as (y1 & Hy1).
  assert (Hc1 : exists y, s1 !! c = Some y).
  { unfold s1. destruct (parentRef xc) as [q|].
    - destruct (alter_kind (fun y => withChildren (removeRef c (childRefs y)) y) q
                  (store d) c xc) as (y & Hy & _); [reflexivity|exact Hc|].
      destruct (alter_kind (withParent None) c _ c y (fun _ => eq_refl) Hy)
        as (y' & Hy' & _). eauto.
    - eauto. }
  destruct Hc1 as (yc & Hyc).
  assert (Hpar1 : forall k, k <> c ->
            parentIn k (Document s1 (nextRef d) (journal d)) = parentIn k d).
  { intros k Hk. unfold s1. destruct (parentRef xc) as [q|]; [|reflexivity].
    rewrite (parentIn_alter_parent _ _ _ (nextRef d) (journal d)).
    rewrite decide_False by exact Hk.
    rewrite (parentIn_alter_children _ _ _ (nextRef d) (journal d)).
    apply parentIn_store. }
  eexists. split; [reflexivity|]. split; [reflexivity|]. split; [reflexivity|].
  assert (Hkids : forall k,
            childrenOf k
              (Document
                 (alter (withParent (Some p)) c
                    (alter (fun y => withChildren (childRefs y ++ [c]) y) p s1))
                 (nextRef d) (journal d ++ [AppendChild p c]))
            = if decide (k = p) then removeRef c (childrenOf k d) ++ [c]
              else removeRef c (childrenOf k d)).
  { intros k.
    rewrite (childrenOf_alter_parent _ _ _ (nextRef d) (journal d)).
    rewrite (childrenOf_alter_children _ _ _ (nextRef d) (journal d)
               p (fun l => l ++ [c])).
    destruct (decide (k = p)) as [->|Hne]; [|apply Hkids1].
    rewrite Hy1. rewrite <- Hkids1. unfold childrenOf. simpl. now rewrite Hy1. }
  assert (Hparents : forall k,
            parentIn k
              (Document
                 (alter (withParent (Some p)) c
                    (alter (fun y => withChildren (childRefs y ++ [c]) y) p s1))
                 (nextRef d) (journal d ++ [AppendChild p c]))
            = if decide (k = c) then Some p else parentIn k d).
  { intros k.
    rewrite (parentIn_alter_parent _ _ _ (nextRef d) (journal d)).
    destruct (decide (k = c)) as [->|Hne].
    - destruct (alter_kind (fun y => withChildren (childRefs y ++ [c]) y) p s1 c yc)
        as (y & -> & _); [reflexivity|exact Hyc|reflexivity].
    - rewrite (parentIn_alter_children _ _ _ (nextRef d) (journal d)
                 p (fun l => l ++ [c])).
      now apply Hpar1. }
  split; [exact Hkids|]. split; [exact Hparents|]. split.
  - intros k x Hx. simpl.
    assert (H1 : exists x1, s1 !! k = Some x1 /\ Dom.nodeType x1 = Dom.nodeType x).
    { unfold s1. destruct (parentRef xc) as [q|]; [|eauto].
      destruct (alter_kind (fun y => withChildren (removeRef c (childRefs y)) y) q
                  (store d) k x) as (y & Hy & Hty1); [reflexivity|exact Hx|].
      destruct (alter_kind (withParent None) c _ k y (fun _ => eq_refl) Hy)
        as (y' & Hy' & Hty2). exists y'. split; congruence. }
    destruct H1 as (x1 & Hx1 & Ht1).
    destruct (alter_kind (fun y => withChildren (childRefs y ++ [c]) y) p s1 k x1)
      as (x2 & Hx2 & Ht2); [reflexivity|exact Hx1|].
    destruct (alter_kind (withParent (Some p)) c _ k x2 (fun _ => eq_refl) Hx2)
      as (x3 & Hx3 & Ht3).
    exists x3. split; congruence.
  - intros k x' c' Hx' Hin.
    assert (Hin' : In c' (childrenOf k
              (Document
                 (alter (withParent (Some p)) c
                    (alter (fun y => withChildren (childRefs y ++ [c]) y) p s1))
                 (nextRef d) (journal d ++ [AppendChild p c])))).
    { unfold childrenOf. simpl in *. now rewrite Hx'. }
    rewrite Hkids in Hin'. rewrite Hparents.
    destruct (decide (c' = c)) as [->|Hne].
    + destruct (decide (k = p)) as [->|Hkp]; [reflexivity|].
      apply removeRef_in in Hin'. tauto.
    + assert (Hold : In c' (childrenOf k d)).
      { destruct (decide (k = p)).
        - apply in_app_or in Hin' as [H|[H|[]]]; [|congruence].
          now apply removeRef_in in H.
        - now apply removeRef_in in Hin'. }
      apply childrenOf_in in Hold as (x & Hx & Hc').
      now apply Hd with x.
Qed.

Lemma without_snoc (l : list nat) (a : list nat) (c : nat) :
  ~ In c l -> without l (a ++ [c]) = without l a ++ [c].
Proof.
  intros Hc. unfold without. rewrite List.filter_app. f_equal. simpl.
  replace (existsb (Nat.eqb c) l) with false; [reflexivity|].
  symmetry. apply not_true_iff_false. intros H.
  apply existsb_exists in H as (y & Hy & Heq). apply Nat.eqb_eq in Heq. now subst.
Qed.

Lemma forEach_map {A B} (g : A -> B) (f : B -> M unit) (l : list A) :
  forEach f (List.map g l) = forEach (fun a => f (g a)) l.
Proof. induction l as [|a l IH]; simpl; [reflexivity|now rewrite IH]. Qed.

Lemma canHaveChildren_kind (x y : liveNode) :
  Dom.nodeType x = Dom.nodeType y -> canHaveChildren x = canHaveChildren y.
Proof. unfold canHaveChildren. now intros ->. Qed.

(** Appending a list of distinct nodes, one after the other. *)
Lemma appendAll_moves (root : nat) (ns : list nat) : forall d xr,
  consistent d ->
  store d !! root = Some xr -> canHaveChildren xr = true ->
  NoDup ns ->
  (forall n, In n ns ->
     exists x, store d !! n = Some x /\ Dom.nodeType x <> DOCUMENT_FRAGMENT_NODE) ->
  exists d',
    forEach (fun n => appendChild root n) ns d = (Ok tt, d')
    /\ childrenOf root d' = without ns (childrenOf root d) ++ ns
    /\ (forall n, In n ns -> parentIn n d' = Some root)
    /\ (forall k, k <> root -> childrenOf k d' = without ns (childrenOf k d))
    /\ (forall k, ~ In k ns -> parentIn k d' = parentIn k d)
    /\ journal d' = journal d ++ List.map (AppendChild root) ns.
Proof.
  induction ns as [|c l IH]; intros d xr Hd Hr Hcan Hnd Hlive.
  - exists d. simpl. rewrite !app_nil_r.
    repeat split; try tauto; intros; now rewrite without_nil.
  - apply NoDup_cons in Hnd as [Hcl Hnd].
    assert (Hcl' : ~ In c l) by (intros H; apply Hcl; now apply list_elem_of_In).
    destruct (Hlive c (or_introl eq_refl)) as (xc & Hc & Hty).
    destruct (appendChild_moves root c d xr xc Hd Hr Hcan Hc Hty)
      as (d1 & Hrun1 & _ & Hj1 & Hkids1 & Hpar1 & Hkind1 & Hd1).
    destruct (Hkind1 root xr Hr) as (xr1 & Hr1 & Hty1).
    destruct (IH d1 xr1 Hd1 Hr1) as (d' & Hrun & Hroot & Hin & Hkids & Hpar & Hj).
    { now rewrite (canHaveChildren_kind xr1 xr Hty1). }
    { exact Hnd. }
    { intros n Hn. destruct (Hlive n (or_intror Hn)) as (x & Hx & Hnf).
      destruct (Hkind1 n x Hx) as (x1 & Hx1 & Hk). exists x1. split; congruence. }
    exists d'. simpl forEach. rewrite (bind_ok _ _ d tt d1 Hrun1).
    split; [exact Hrun|]. split; [|split; [|split; [|split]]].
    + rewrite Hroot, Hkids1, decide_True by reflexivity.
      rewrite (without_snoc l _ c Hcl'), without_cons.
      now rewrite <- app_assoc.
    + intros n [<-|Hn]; [|now apply Hin].
      rewrite (Hpar c Hcl'), Hpar1. now rewrite decide_True.
    + intros k Hk. rewrite (Hkids k Hk), Hkids1, decide_False by exact Hk.
      now rewrite without_cons.
    + intros k Hk. simpl in Hk. rewrite Hpar by tauto.
      rewrite Hpar1. rewrite decide_False; [reflexivity|]. intros ->. tauto.
    + rewrite Hj, Hj1. simpl. now rewrite <- app_assoc.
Qed.

End MoveFacts.

(** * More on the steps of [diffDOM] *)

Module DifferFacts.
Import Dom Vdom VdomSpec VdomFacts NodeFacts.

(** Same type and no attributes: the visit goes on to the content. *)
Lemma diffChild_content_step (global : globalObject) (t e : details) (element : nat) d :
  type t = type e ->
  attributes t = [] -> attributes e = [] ->
  content t <> content e ->
  diffChild global t (Some e) element d = setTextContent (node e) (content t) d.
Proof.
  intros Hty Ht He Hc. rewrite diffChild_eq.
  rewrite Hty, String.eqb_refl. cbn [negb].
  rewrite (bind_ok _ _ d tt d (diffAttributes_bare global t e d Ht He)).
  rewrite bool_decide_eq_false_2 by exact Hc. reflexivity.
Qed.

(** *** Emptying an element *)

Lemma forEach_orphan (l : list nat) : forall d,
  exists d1,
    forEach (fun k => modify k (withParent None)) l d = (Ok tt, d1)
    /\ nextRef d1 = nextRef d /\ journal d1 = journal d
    /\ (forall k, In k l -> store d1 !! k = withParent None <$> store d !! k)
    /\ (forall k, ~ In k l -> store d1 !! k = store d !! k).
Proof.
  induction l as [|c l IH]; intros d; simpl.
  - exists d. repeat split; tauto.
  - set (d0 := Document (alter (withParent None) c (store d)) (nextRef d) (journal d)).
    destruct (IH d0) as (d1 & Hrun & Hn & Hj & Hin & Hout).
    exists d1. rewrite (bind_ok (modify c (withParent None)) _ d tt d0 eq_refl).
    split; [exact Hrun|]. split; [exact Hn|]. split; [exact Hj|]. split.
    + intros k Hk. destruct (in_dec Nat.eq_dec k l) as [Hl|Hl].
      * rewrite (Hin k Hl). unfold d0. simpl.
        destruct (decide (k = c)) as [->|Hne].
        -- rewrite lookup_alter_eq. now destruct (store d !! c).
        -- now rewrite lookup_alter_ne by congruence.
      * rewrite (Hout k Hl). destruct Hk as [<-|Hk]; [|tauto].
        unfold d0. simpl. now rewrite lookup_alter_eq.
    + intros k Hk. rewrite Hout by tauto. unfold d0. simpl.
      rewrite lookup_alter_ne; [reflexivity|tauto].
Qed.

Lemma removeAllChildren_spec (n : nat) d x :
  store d !! n = Some x -> ~ In n (childRefs x) ->
  exists d1,
    removeAllChildren n d = (Ok tt, d1)
    /\ nextRef d1 = nextRef d /\ journal d1 = journal d
    /\ store d1 !! n = Some (withChildren [] x)
    /\ (forall k, In k (childRefs x) ->
                  store d1 !! k = withParent None <$> store d !! k)
    /\ (forall k, k <> n -> ~ In k (childRefs x) -> store d1 !! k = store d !! k).
Proof.
  intros Hx Hn. unfold removeAllChildren.
  assert (Hget : getNode n d = (Ok x, d)) by (unfold getNode; now rewrite Hx).
  rewrite (bind_ok _ _ d x d Hget).
  destruct (forEach_orphan (childRefs x) d) as (d0 & Hrun & Hnext & Hj & Hin & Hout).
  rewrite (bind_ok _ _ d tt d0 Hrun).
  eexists. split; [reflexivity|]. simpl.
  split; [exact Hnext|]. split; [exact Hj|]. split; [|split].
  - now rewrite lookup_alter_eq, (Hout n Hn), Hx.
  - intros k Hk. rewrite lookup_alter_ne by (intros <-; tauto). now apply Hin.
  - intros k Hne Hk. rewrite lookup_alter_ne by congruence. now apply Hout.
Qed.

(** [textContent] on an element that may have children. *)
Lemma setTextContent_element (n : nat) (v : option string) d x :
  allocated d ->
  store d !! n = Some x -> canHaveChildren x = true -> ~ In n (childRefs x) ->
  let s := match v with Some s => s | None => "" end in
  exists d',
    setTextContent n v d = (Ok tt, d')
    /\ journal d' = journal d ++ [SetTextContent n s]
    /\ store d' !! n
       = Some (withChildren (if Js.truthy s then [nextRef d] else []) x)
    /\ (Js.truthy s = true ->
        store d' !! nextRef d = Some (LiveNode TEXT_NODE "" false [] [] s [] (Some n)))
    /\ (forall k, In k (childRefs x) -> (k < nextRef d)%nat ->
                  store d' !! k = withParent None <$> store d !! k)
    /\ (forall k, (k < nextRef d)%nat -> k <> n -> ~ In k (childRefs x) ->
                  store d' !! k = store d !! k).
Proof.
  intros Ha Hx Hc Hn s. unfold setTextContent. fold s.
  assert (Hget : getNode n d = (Ok x, d)) by (unfold getNode; now rewrite Hx).
  rewrite (bind_ok _ _ d x d Hget). rewrite Hc.
  destruct (removeAllChildren_spec n d x Hx Hn)
    as (d1 & Hrun & Hnext & Hj & Hn1 & Hin & Hout).
  assert (Hnlt : (n < nextRef d)%nat) by (apply Ha; eauto).
  destruct (Js.truthy s) eqn:Hs.
  - eexists. split.
    { rewrite (bind_ok (removeAllChildren n ;; insertTextChild n s) _ d tt
                 (Document (<[nextRef d1 := LiveNode TEXT_NODE "" false [] [] s []
                                                     (Some n)]>
                              (alter (withChildren [nextRef d1]) n (store d1)))
                           (S (nextRef d1)) (journal d1))).
      - reflexivity.
      - now rewrite (bind_ok _ _ d tt d1 Hrun). }
    simpl. rewrite Hnext, Hj.
    split; [reflexivity|]. split; [|split; [|split]].
    + rewrite lookup_insert_ne by lia.
      now rewrite lookup_alter_eq, Hn1.
    + intros _. apply lookup_insert_eq.
    + intros k Hk Hlt. rewrite lookup_insert_ne by lia.
      rewrite lookup_alter_ne by (intros <-; tauto).
      now apply Hin.
    + intros k Hlt Hne Hk. rewrite lookup_insert_ne by lia.
      rewrite lookup_alter_ne by congruence. now apply Hout.
  - eexists. split.
    { rewrite (bind_ok (removeAllChildren n ;; ret tt) _ d tt d1).
      - reflexivity.
      - now rewrite (bind_ok _ _ d tt d1 Hrun). }
    simpl. rewrite Hj.
    split; [reflexivity|]. split; [exact Hn1|]. split; [discriminate|].
    split; [intros k Hk _; now apply Hin|]. intros k _. apply Hout.
Qed.

(** *** New nodes after an unchanged front *)

Lemma new_tail_is_appended (global : globalObject) (front news domMap : list details)
    (element : nat) (d : document) (x : liveNode) :
  Forall2 sameShape front domMap ->
  forallb bare front = true ->
  forallb buildable news = true ->
  store d !! element = Some x ->
  canHaveChildren x = true ->
  (element < nextRef d)%nat ->
  exists d' kids,
    diffDOM global (front ++ news) domMap element d = (Ok tt, d')
    /\ store d' !! element = Some (withChildren (childRefs x ++ kids) x)
    /\ Forall2 (fun c t => (nextRef d <= c)%nat
                           /\ materialises (nextRef d') d' (Some element) c t)
               kids news
    /\ (forall k, (k < nextRef d)%nat -> k <> element ->
                  store d' !! k = store d !! k).
Proof.
  intros Hsame Hbare Hb Hx Hc Hlt.
  rewrite (diffDOM_new_tail global _ _ _ _ _ Hsame Hbare).
  destruct (appendChildren_builds element news) with
    (d := d) (kids0 := childRefs x) (x0 := x)
    as (d' & kids & Hrun & _ & Hel & Hold & Hkids & _); auto.
  - apply Forall_forall. intros t _. apply createNode_builds.
  - now rewrite withChildren_id.
  - exists d', kids. auto.
Qed.

(** *** The nodes of the next tree are not used *)

Lemma bind_pointwise {A B} (m : M A) (k k' : A -> M B) d :
  (forall a d', k a d' = k' a d') -> (m ≫= k) d = (m ≫= k') d.
Proof.
  intros H. unfold mbind, M_bind, bind. destruct (m d) as [[a|e] d']; auto.
Qed.

Lemma forEach_pointwise {A} (f g : A -> M unit) (l : list A) :
  (forall x, In x l -> forall d, f x d = g x d) ->
  forall d, forEach f l d = forEach g l d.
Proof.
  induction l as [|x l IH]; intros H d; simpl; [reflexivity|].
  unfold mbind, M_bind, bind. rewrite (H x (or_introl eq_refl) d).
  destruct (g x d) as [[[]|e] d']; [|reflexivity].
  apply IH. intros y Hy. apply H. now right.
Qed.

Lemma forEachIndexed_pointwise {A} (f g : A -> nat -> M unit) (l : list A) :
  (forall x, In x l -> forall i d, f x i d = g x i d) ->
  forall i d, forEachIndexed f l i d = forEachIndexed g l i d.
Proof.
  induction l as [|x l IH]; intros H i d; simpl; [reflexivity|].
  unfold mbind, M_bind, bind. rewrite (H x (or_introl eq_refl) i d).
  destruct (g x i d) as [[[]|e] d']; [|reflexivity].
  apply IH. intros y Hy. apply H. now right.
Qed.

Lemma forEachIndexed_map {A B} (h : A -> B) (f : B -> nat -> M unit) (l : list A) :
  forall i, forEachIndexed f (List.map h l) i = forEachIndexed (fun a => f (h a)) l i.
Proof. induction l as [|a l IH]; intros i; simpl; [reflexivity|now rewrite IH]. Qed.

Lemma forgetNode_fields (t : details) :
  content (forgetNode t) = content t
  /\ attributes (forgetNode t) = attributes t
  /\ type (forgetNode t) = type t
  /\ isSVG (forgetNode t) = isSVG t
  /\ children (forgetNode t) = List.map forgetNode (children t).
Proof. destruct t. repeat split. Qed.

Lemma createNode_forgetNode (t : details) :
  forall d, createNode (forgetNode t) d = createNode t d.
Proof.
  induction t as [n c atts ty svg kids IH] using details_ind. intros d.
  rewrite !createNode_eq.
  destruct (forgetNode_fields (Details n c atts ty svg kids))
    as (-> & -> & -> & -> & ->).
  cbn [content attributes type isSVG children].
  apply bind_pointwise. intros r d1.
  apply bind_pointwise. intros _ d2.
  rewrite length_map.
  destruct (0 <? length kids)%nat; [|reflexivity].
  unfold mbind at 1 3, M_bind, bind.
  rewrite MoveFacts.forEach_map.
  rewrite (forEach_pointwise
             (fun a => child ← createNode (forgetNode a); appendChild r child)
             (fun a => child ← createNode a; appendChild r child)); [reflexivity|].
  intros k Hk d3. rewrite Forall_forall in IH.
  unfold mbind, M_bind, bind. rewrite (IH k); [reflexivity|now apply list_elem_of_In].
Qed.

Lemma diffAttributes_forgetNode (global : globalObject) (t e : details) :
  diffAttributes global (forgetNode t) e = diffAttributes global t e.
Proof.
  unfold diffAttributes, getChangingAttributes, getRemovedAttributes.
  now destruct t.
Qed.

Lemma diffChild_forgetNode (global : globalObject) (t : details) :
  forall ex element d,
    diffChild global (forgetNode t) ex element d = diffChild global t ex element d.
Proof.
  induction t as [n c atts ty svg kids IH] using details_ind.
  intros ex element d. rewrite !diffChild_eq.
  destruct ex as [e|].
  - rewrite diffAttributes_forgetNode.
    destruct (forgetNode_fields (Details n c atts ty svg kids))
      as (-> & _ & -> & _ & ->).
    cbn [content type children]. rewrite length_map.
    destruct (negb (String.eqb ty (type e)));
      [apply bind_pointwise; intros p d1; unfold mbind, M_bind, bind;
       now rewrite createNode_forgetNode|].
    apply bind_pointwise. intros _ d1.
    destruct (negb (bool_decide (c = content e))); [reflexivity|].
    destruct ((0 <? length (children e))%nat && (length kids <? 1)%nat);
      [reflexivity|].
    assert (Hkids : forall el d',
              diffDOM global (List.map forgetNode kids) (children e) el d'
              = diffDOM global kids (children e) el d').
    { intros el d'. unfold diffDOM, diffDOMWith. rewrite length_map.
      apply bind_pointwise. intros _ d2.
      rewrite forEachIndexed_map. apply forEachIndexed_pointwise.
      intros k Hk i d3. rewrite Forall_forall in IH.
      apply IH. now apply list_elem_of_In. }
    destruct ((length (children e) <? 1)%nat && (0 <? length kids)%nat).
    + apply bind_pointwise. intros f d2.
      unfold mbind, M_bind, bind. now rewrite Hkids.
    + destruct (0 <? length kids)%nat; [apply Hkids|reflexivity].
  - unfold mbind, M_bind, bind. now rewrite createNode_forgetNode.
Qed.

(** *** Locality *)

Lemma sameShape_forEachIndexed_within (global : globalObject) (element : nat)
    (ts es : list details) :
  Forall2 sameShape ts es ->
  forallb bare ts = true ->
  forall pre post d,
    forEachIndexed (fun nd index =>
                      diffChild global nd ((pre ++ es ++ post) !! index) element)
                   ts (length pre) d = (Ok tt, d).
Proof.
  induction 1 as [|t e ts es Hte Hrest IH]; intros Hbare pre post d; [reflexivity|].
  simpl. simpl in Hbare. apply andb_true_iff in Hbare as [Hb Hbare].
  assert (Hlook : (pre ++ e :: es ++ post) !! length pre = Some e).
  { rewrite lookup_app_r by lia. now rewrite Nat.sub_diag. }
  rewrite (bind_ok _ _ d tt d) by (rewrite Hlook; now apply diffChild_sameShape).
  specialize (IH Hbare (pre ++ [e]) post d).
  rewrite length_app, Nat.add_1_r, <- app_assoc in IH. exact IH.
Qed.

(** Among siblings of unchanged shape, without attributes, the pass is
    the visit of the one pair that differs. *)
Lemma diffDOM_focus (global : globalObject) (front back front' back' : list details)
    (t e : details) (element : nat) d :
  Forall2 sameShape front front' ->
  Forall2 sameShape back back' ->
  forallb bare front = true ->
  forallb bare back = true ->
  diffDOM global (front ++ t :: back) (front' ++ e :: back') element d
  = diffChild global t (Some e) element d.
Proof.
  intros Hf Hb Hbf Hbb.
  pose proof (Forall2_length _ _ _ Hf) as Hlf.
  pose proof (Forall2_length _ _ _ Hb) as Hlb.
  unfold diffDOM, diffDOMWith.
  assert (Hc : (Z.of_nat (length (front' ++ e :: back'))
                - Z.of_nat (length (front ++ t :: back)) >? 0) = false).
  { rewrite Z.gtb_ltb. apply Z.ltb_ge. rewrite !length_app. simpl. lia. }
  rewrite Hc. rewrite (bind_ok (ret tt) _ d tt d eq_refl).
  rewrite (forEachIndexed_app_ok _ front (t :: back) 0 d d).
  2:{ apply (sameShape_forEachIndexed_within global element front front' Hf Hbf []
               (e :: back')). }
  simpl forEachIndexed.
  assert (Hlook : (front' ++ e :: back') !! length front = Some e).
  { rewrite Hlf, lookup_app_r by lia. now rewrite Nat.sub_diag. }
  unfold mbind, M_bind, bind. rewrite Hlook.
  destruct (diffChild global t (Some e) element d) as [[[]|err] d1]; [|reflexivity].
  pose proof (sameShape_forEachIndexed_within global element back back' Hb Hbb
                (front' ++ [e]) [] d1) as Hrest.
  rewrite app_nil_r, <- app_assoc, length_app in Hrest. simpl in Hrest.
  rewrite Hlf. replace (S (length front')) with (length front' + 1)%nat by lia.
  exact Hrest.
Qed.

(** Same type and content, no attributes, children on both sides: the
    visit is the pass over the children, under the live node. *)
Lemma diffChild_descends (global : globalObject) (t e : details) (element : nat) d :
  type t = type e ->
  attributes t = [] -> attributes e = [] ->
  content t = content e ->
  children t <> [] -> children e <> [] ->
  diffChild global t (Some e) element d
  = diffDOM global (children t) (children e) (node e) d.
Proof.
  intros Hty Hat Hae Hco Ht He. rewrite diffChild_eq, Hty, String.eqb_refl.
  cbn [negb].
  rewrite (bind_ok _ _ d tt d (diffAttributes_bare global t e d Hat Hae)).
  rewrite Hco, bool_decide_eq_true_2 by reflexivity. cbn [negb].
  destruct (children t) as [|c cs]; [congruence|].
  destruct (children e) as [|k ks]; [congruence|]. reflexivity.
Qed.

Lemma differsOnlyAt_nonempty (t' e' : details) ts es element p :
  differsOnlyAt t' e' ts es element p -> ts <> [] /\ es <> [].
Proof.
  intros [front back front' back' el _ _ _ _
         |front back front' back' t e el q _ _ _ _ _ _ _ _ _];
    split; intros H; now apply app_eq_nil in H as [_ H].
Qed.

Lemma diffDOM_local (global : globalObject) (t' e' : details) ts es element p :
  differsOnlyAt t' e' ts es element p ->
  forall d, diffDOM global ts es element d = diffChild global t' (Some e') p d.
Proof.
  induction 1 as [front back front' back' el Hf Hb Hbf Hbb
                 |front back front' back' t e el q Hf Hb Hbf Hbb Hty Hat Hae Hco Hin IH];
    intros d.
  - now apply diffDOM_focus.
  - rewrite (diffDOM_focus global _ _ _ _ _ _ _ _ Hf Hb Hbf Hbb).
    destruct (differsOnlyAt_nonempty _ _ _ _ _ _ Hin) as [Ht He].
    rewrite (diffChild_descends global t e el d Hty Hat Hae Hco Ht He). apply IH.
Qed.

End DifferFacts.

(** * More on the lifecycle: the retained tree and the connect flows *)

Module LifecycleFacts.
Import Element ElementFacts.

Section Runtime.

Context {VNode : Type}.
Variable create : string -> option VNode.
Variable renderReturns : VNode -> bool.
Variable updateReturns : VNode -> vdomField VNode -> bool.
Variable class : extender.
Variable hookReturns : lifecycle -> list (effect VNode) -> bool.

#[local] Abbreviation instance := (instance VNode).
#[local] Abbreviation renderDOM :=
  (renderDOM create renderReturns updateReturns class hookReturns).
#[local] Abbreviation notify :=
  (notify create renderReturns updateReturns class hookReturns).
#[local] Abbreviation run := (run create renderReturns updateReturns class hookReturns).
#[local] Abbreviation hookEffects := (hookEffects class hookReturns).
#[local] Abbreviation hookThrows := (hookThrows class hookReturns).
#[local] Abbreviation libraryReturns := (libraryReturns renderReturns updateReturns).

(** *** The retained tree *)

(** An effect that is neither a render nor an update. *)
Lemma hookEffects_quiet (name : lifecycle) (call : effect VNode)
    (before : list (effect VNode)) :
  noUpdate call -> isRendered call = false ->
  Forall (fun e => noUpdate e /\ isRendered e = false) (hookEffects name call before).
Proof.
  intros H1 H2. eapply Forall_impl; [apply hookEffects_cases|].
  intros e [->| ->]; simpl; auto.
Qed.

Lemma noUpdate_givenTree (v : VNode) (e : effect VNode) : noUpdate e -> givenTree v e.
Proof. destruct e; simpl; tauto. Qed.

Lemma not_rendered_app (l k : list (effect VNode)) :
  forallb (fun e => negb (isRendered e)) l = true ->
  Forall (fun e => noUpdate e /\ isRendered e = false) k ->
  forallb (fun e => negb (isRendered e)) (l ++ k) = true.
Proof.
  intros Hl Hk. rewrite forallb_app, Hl. simpl.
  apply forallb_forall. intros e He. rewrite List.Forall_forall in Hk.
  destruct (Hk e He) as [_ ->]. reflexivity.
Qed.

Lemma treeInvariant_quiet (this this' : instance) (extra : list (effect VNode)) :
  isFirstRender this' = isFirstRender this ->
  (isFirstRender this = false -> vDOM this' = vDOM this \/ vDOM this' = Null) ->
  effects this' = effects this ++ extra ->
  Forall (fun e => noUpdate e /\ isRendered e = false) extra ->
  treeInvariant this -> treeInvariant this'.
Proof.
  intros Hf Hv He Hx [[H1 H2]|[H1 (v & before & after & Hv0 & Heff & Hnr & Hb & Ha)]].
  - left. rewrite Hf, He. split; [exact H1|]. apply Forall_app. split; [exact H2|].
    eapply Forall_impl; [exact Hx|]. now intros e [].
  - right. rewrite Hf. split; [exact H1|]. exists v, before, (after ++ extra).
    split; [destruct (Hv H1) as [->| ->]; auto|].
    split; [rewrite He, Heff, <- app_assoc; reflexivity|].
    split; [now apply not_rendered_app|]. split; [exact Hb|].
    apply Forall_app. split; [exact Ha|].
    eapply Forall_impl; [exact Hx|]. intros e [H _]. now apply noUpdate_givenTree.
Qed.

Lemma renderDOM_treeInvariant (render : method) (this : instance) :
  treeInvariant this -> treeInvariant (snd (renderDOM render this)).
Proof.
  intros Hinv. rewrite renderDOM_spec.
  destruct (getVDOM create class render) as [e|v]; [exact Hinv|].
  destruct (libraryReturns v this); cbn [snd].
  - pose proof (hookEffects_quiet (passHook this) (Called (passHook this))
                  (effects this ++ [passEffect v this]) I eq_refl) as Hq.
    unfold passEffect in *.
    destruct (isFirstRender this) eqn:Hfirst.
    + destruct Hinv as [[_ H2]|[H1 _]]; [|congruence]. cbn [andb].
      destruct (hookThrows _ _ _).
      * left. split; [reflexivity|]. cbn [effects].
        apply Forall_app. split.
        -- apply Forall_app. split; [exact H2|]. repeat constructor.
        -- eapply Forall_impl; [exact Hq|]. now intros e [].
      * right. split; [reflexivity|].
        exists v, (effects this), (hookEffects (passHook this) (Called (passHook this))
                                     (effects this ++ [Rendered v])).
        split; [now left|]. split; [cbn [effects]; now rewrite <- app_assoc|].
        split; [now apply (not_rendered_app [])|]. split; [exact H2|].
        eapply Forall_impl; [exact Hq|]. intros e [H _]. now apply noUpdate_givenTree.
    + destruct Hinv as [[H1 _]|[_ (v0 & before & after & Hv0 & Heff & Hnr & Hb & Ha)]];
        [congruence|].
      right. split; [reflexivity|].
      exists v0, before,
        (after ++ Updated v (vDOM this)
                  :: hookEffects (passHook this) (Called (passHook this))
                       (effects this ++ [Updated v (vDOM this)])).
      split; [exact Hv0|].
      split; [cbn [effects]; rewrite Heff, <- !app_assoc; reflexivity|].
      split.
      { rewrite forallb_app, Hnr. simpl.
        apply (not_rendered_app [] _ eq_refl Hq). }
      split; [exact Hb|].
      apply Forall_app. split; [exact Ha|]. constructor; [exact Hv0|].
      eapply Forall_impl; [exact Hq|]. intros e [H _]. now apply noUpdate_givenTree.
  - destruct Hinv as [[H1 H2]|[H1 Hrest]].
    + left. split; assumption.
    + right. rewrite H1. split; [reflexivity|]. exact Hrest.
Qed.

Lemma notify_treeInvariant (n : notification) (this : instance) :
  treeInvariant this -> treeInvariant (snd (notify n this)).
Proof.
  intros Hinv. destruct n; simpl.
  - rewrite connectedCallback_spec.
    destruct (isConnected && negb (isDisconnected this)); [|exact Hinv].
    eapply treeInvariant_quiet; [| | | |exact Hinv];
      [reflexivity|intros _; now left|reflexivity|].
    apply Forall_app. split; [now apply hookEffects_quiet|].
    destruct (hookThrows _ _ _); [constructor|].
    destruct (styles class); repeat constructor.
  - rewrite disconnectedCallback_spec.
    eapply treeInvariant_quiet; [| | | |exact Hinv];
      [reflexivity| |reflexivity|now apply hookEffects_quiet].
    intros _. cbn [snd vDOM]. destruct (hookThrows _ _ _); auto.
  - eapply (treeInvariant_quiet this _ []);
      [reflexivity|intros _; now left| |constructor|exact Hinv].
    simpl. now rewrite app_nil_r.
  - rewrite attributeChangedCallback_spec.
    destruct (bool_decide (oldValue = newValue)); [exact Hinv|].
    eapply treeInvariant_quiet; [| | | |exact Hinv];
      [reflexivity|intros _; now left|reflexivity|now apply hookEffects_quiet].
  - eapply (treeInvariant_quiet this _ [Scheduled]);
      [reflexivity|intros _; now left|reflexivity|repeat constructor|exact Hinv].
  - unfold flush. destruct (renderPending this); [|exact Hinv].
    apply renderDOM_treeInvariant.
    eapply (treeInvariant_quiet this _ []);
      [reflexivity|intros _; now left| |constructor|exact Hinv].
    simpl. now rewrite app_nil_r.
Qed.

Lemma run_treeInvariant (ns : list notification) : forall this : instance,
  treeInvariant this -> treeInvariant (run ns this).
Proof.
  induction ns as [|n ns IH]; intros this Hinv; [exact Hinv|].
  simpl. apply IH. now apply notify_treeInvariant.
Qed.


(** *** Counting *)

Lemma count_app {A} (f : A -> bool) (l k : list A) :
  length (List.filter f (l ++ k))
  = (length (List.filter f l) + length (List.filter f k))%nat.
Proof. now rewrite List.filter_app, length_app. Qed.

Lemma count_none {A} (f : A -> bool) (l : list A) :
  forallb (fun e => negb (f e)) l = true -> length (List.filter f l) = 0%nat.
Proof. intros H. now rewrite (filter_none_of f l H). Qed.

(** A call of a hook other than the connect hook adds nothing to the
    three counts. *)
Lemma hookEffects_uncounted (f : effect VNode -> bool) (name : lifecycle)
    (call : effect VNode) (before : list (effect VNode)) :
  f call = false -> f (HookThrew name) = false ->
  length (List.filter f (hookEffects name call before)) = 0%nat.
Proof.
  intros Hc Ht. apply count_none. unfold Element.hookEffects.
  destruct (defines class name); [|reflexivity].
  destruct (hookReturns name _); simpl; now rewrite Hc, ?Ht.
Qed.

(** One notification: [c] calls of the connect hook of which [t]
    threw; as many style tags and render requests as calls that
    returned, plus one request for [requestRender] itself. *)
Lemma notify_counts (css : string) (n : notification) (this : instance) :
  defines class elementDidConnect = true ->
  styles class = Some css ->
  exists c t : nat,
    length (List.filter isConnectCall (effects (snd (notify n this))))
    = (length (List.filter isConnectCall (effects this)) + c)%nat
    /\ length (List.filter isConnectThrow (effects (snd (notify n this))))
       = (length (List.filter isConnectThrow (effects this)) + t)%nat
    /\ (length (List.filter isStyleTag (effects (snd (notify n this)))) + t
        = length (List.filter isStyleTag (effects this)) + c)%nat
    /\ (length (List.filter isScheduled (effects (snd (notify n this)))) + t
        = length (List.filter isScheduled (effects this)) + c
          + (if isRequest n then 1 else 0))%nat
    /\ ((forall h, hookReturns elementDidConnect h = true) -> t = 0%nat).
Proof.
  intros Hdef Hcss. destruct n; cbn [Element.notify snd isRequest].
  - rewrite connectedCallback_spec.
    destruct (isConnected && negb (isDisconnected this)).
    + cbn [snd effects]. rewrite hookThrows_effects, Hdef, Hcss.
      destruct (hookThrows _ _ _) eqn:Ht.
      * exists 1%nat, 1%nat. rewrite !count_app. simpl.
        repeat (split; [lia|]). intros Hall. unfold Element.hookThrows in Ht.
        rewrite Hall, andb_false_r in Ht. discriminate.
      * exists 1%nat, 0%nat. rewrite !count_app. simpl. repeat split; lia.
    + exists 0%nat, 0%nat. simpl. repeat split; lia.
  - rewrite disconnectedCallback_spec. cbn [snd effects].
    exists 0%nat, 0%nat. rewrite !count_app, !hookEffects_uncounted by reflexivity.
    repeat split; lia.
  - exists 0%nat, 0%nat. simpl. repeat split; lia.
  - rewrite attributeChangedCallback_spec.
    destruct (bool_decide (oldValue = newValue));
      [exists 0%nat, 0%nat; simpl; repeat split; lia|].
    cbn [snd effects].
    exists 0%nat, 0%nat. rewrite !count_app, !hookEffects_uncounted by reflexivity.
    repeat split; lia.
  - exists 0%nat, 0%nat. unfold requestRender, schedule, emit. simpl.
    rewrite !count_app. simpl. repeat split; lia.
  - exists 0%nat, 0%nat. unfold flush.
    destruct (renderPending this); [|simpl; repeat split; lia].
    rewrite renderDOM_spec. cbn [isFirstRender vDOM effects].
    destruct (getVDOM create class render) as [e|v]; [simpl; repeat split; lia|].
    destruct (libraryReturns v _); [|simpl; repeat split; lia].
    cbn [snd effects]. unfold passHook, passEffect. cbn [isFirstRender vDOM].
    rewrite !count_app.
    destruct (isFirstRender this);
      rewrite !hookEffects_uncounted by reflexivity; simpl; repeat split; lia.
Qed.

Lemma run_counts (css : string) (ns : list notification) : forall this : instance,
  defines class elementDidConnect = true ->
  styles class = Some css ->
  exists c t : nat,
    length (List.filter isConnectCall (effects (run ns this)))
    = (length (List.filter isConnectCall (effects this)) + c)%nat
    /\ length (List.filter isConnectThrow (effects (run ns this)))
       = (length (List.filter isConnectThrow (effects this)) + t)%nat
    /\ (length (List.filter isStyleTag (effects (run ns this))) + t
        = length (List.filter isStyleTag (effects this)) + c)%nat
    /\ (length (List.filter isScheduled (effects (run ns this))) + t
        = length (List.filter isScheduled (effects this)) + c
          + length (List.filter isRequest ns))%nat
    /\ ((forall h, hookReturns elementDidConnect h = true) -> t = 0%nat).
Proof.
  induction ns as [|n ns IH]; intros this Hdef Hcss.
  - exists 0%nat, 0%nat. simpl. repeat split; lia.
  - destruct (notify_counts css n this Hdef Hcss)
      as (c1 & t1 & H1 & H2 & H3 & H4 & H5).
    destruct (IH (snd (notify n this)) Hdef Hcss)
      as (c2 & t2 & G1 & G2 & G3 & G4 & G5).
    exists (c1 + c2)%nat, (t1 + t2)%nat.
    change (run (n :: ns) this) with (run ns (snd (notify n this))).
    rewrite G1, G2, H1, H2. simpl.
    split; [lia|]. split; [lia|]. split; [lia|].
    split; [destruct (isRequest n); simpl; lia|].
    intros Hall. rewrite (H5 Hall), (G5 Hall). reflexivity.
Qed.

End Runtime.

End LifecycleFacts.

(** * Inline styles: [getStyleMap], [diffStyles], [removeStyles] *)

Module StyleProperties.
Import Dom Vdom VdomSpec VdomFacts StyleFacts.

(** Every entry of a style map has a property name that is not empty;
    name and value are trimmed, and neither holds a colon or a
    semicolon. So of a declaration with a second colon, as in
    [background: url(http://host/x)], the value keeps only the part
    before that colon. *)
Theorem getStyleMap_entries (styles name value : string) :
  In (name, value) (getStyleMap styles) ->
  name <> ""
  /\ Js.trim name = name /\ Js.trim value = value
  /\ Js.indexOf ":" name = -1 /\ Js.indexOf ";" name = -1
  /\ Js.indexOf ":" value = -1 /\ Js.indexOf ";" value = -1.
Proof.
  intros Hin. unfold getStyleMap in Hin.
  apply fold_styleEntry_in in Hin as (style & Hstyle & Hin).
  destruct (Z_lt_le_dec 0 (Js.indexOf ":" (Js.trim style))) as [Hpos|Hno];
    [|rewrite (styleEntry_dropped [] style Hno) in Hin; destruct Hin].
  destruct (styleEntry_kept style Hpos) as (n & v & rest & Hsplit & Hn & Hentry).
  rewrite Hentry in Hin. destruct Hin as [Heq|[]].
  inversion Heq; subst name value; clear Heq.
  assert (Hpiece : forall p a, In p (Js.split ":" (Js.trim style)) ->
            In a (list_ascii_of_string (Js.trim p)) -> a <> ":"%char /\ a <> ";"%char).
  { intros p a Hp Ha. apply trim_chars in Ha.
    destruct (split_chars ":" _ p a Hp Ha) as [Ha' Hcolon].
    apply trim_chars in Ha'.
    destruct (split_chars ";" _ style a Hstyle Ha') as [_ Hsemi]. tauto. }
  assert (Hfree : forall p c, In p (Js.split ":" (Js.trim style)) ->
            (c = ":"%char \/ c = ";"%char) -> Js.indexOf c (Js.trim p) = -1).
  { intros p c Hp Hc. apply indexOf_absent. intros Ha.
    destruct (Hpiece p c Hp Ha). destruct Hc; tauto. }
  rewrite Hsplit in Hfree.
  repeat split; try apply trim_idem; try exact Hn;
    apply Hfree; simpl; tauto.
Qed.

Lemma getStyleMap_entries_witness :
  "color" <> ""
  /\ Js.trim "color" = "color" /\ Js.trim "red" = "red"
  /\ Js.indexOf ":" "color" = -1 /\ Js.indexOf ";" "color" = -1
  /\ Js.indexOf ":" "red" = -1 /\ Js.indexOf ";" "red" = -1.
Proof.
  apply (getStyleMap_entries " color : red ; margin:0").
  vm_compute. tauto.
Defined.

(** The map of two declaration blocks joined by a semicolon is the map
    of the first followed by the map of the second: declarations are
    read one by one, in order, and none depends on another. *)
Theorem getStyleMap_joined (a b : string) :
  getStyleMap (a +:+ ";" +:+ b) = getStyleMap a ++ getStyleMap b.
Proof.
  unfold getStyleMap.
  change (";" +:+ b) with (String ";" b).
  now rewrite split_app, fold_left_app, fold_styleEntry.
Qed.

(** One declaration [name:value], with a property name and no further
    colon or semicolon, gives the one entry of the trimmed name and the
    trimmed value. *)
Theorem getStyleMap_declaration (name value : string) :
  Js.trim name <> "" ->
  Js.indexOf ":" name = -1 -> Js.indexOf ";" name = -1 ->
  Js.indexOf ":" value = -1 -> Js.indexOf ";" value = -1 ->
  getStyleMap (name +:+ ":" +:+ value) = [(Js.trim name, Js.trim value)].
Proof.
  intros Hname Hcn Hsn Hcv Hsv.
  change (":" +:+ value) with (String ":" value).
  assert (Hstart : Js.trimStart name <> "").
  { intros E. apply Hname. unfold Js.trim. now rewrite E. }
  assert (Hend : Js.trimEnd (String ":" value) = String ":" (Js.trimEnd value)).
  { simpl. now destruct (Js.trimEnd value). }
  assert (Htrim : Js.trim (name +:+ String ":" value)
                  = Js.trimStart name +:+ String ":" (Js.trimEnd value)).
  { unfold Js.trim. rewrite (trimStart_app _ _ Hstart).
    rewrite trimEnd_app; rewrite Hend; [reflexivity|discriminate]. }
  assert (Hcu : Js.indexOf ":" (Js.trimStart name) = -1).
  { apply indexOf_absent. intros H. apply trimStart_chars in H.
    now apply indexOf_absent in Hcn. }
  assert (Hcw : Js.indexOf ":" (Js.trimEnd value) = -1).
  { apply indexOf_absent. intros H. apply trimEnd_chars in H.
    now apply indexOf_absent in Hcv. }
  unfold getStyleMap. rewrite split_absent.
  2:{ apply indexOf_absent. rewrite chars_app. simpl. intros H.
      apply in_app_or in H as [H|[H|H]].
      - now apply indexOf_absent in Hsn.
      - discriminate.
      - now apply indexOf_absent in Hsv. }
  simpl fold_left.
  assert (Hpos : 0 < Js.indexOf ":" (Js.trim (name +:+ String ":" value))).
  { rewrite Htrim. destruct (Js.trimStart name) as [|c u] eqn:E; [tauto|].
    simpl. destruct (Ascii.eqb_spec c ":") as [->|Hc].
    - exfalso. apply indexOf_absent in Hcu. apply Hcu. now left.
    - assert (H0 : 0 <= Js.indexOf ":" (u +:+ String ":" (Js.trimEnd value))).
      { apply indexOf_present. rewrite chars_app. apply in_or_app. right. now left. }
      destruct (Js.indexOf ":" (u +:+ String ":" (Js.trimEnd value)) <? 0) eqn:E';
        [apply Z.ltb_lt in E'; lia|lia]. }
  destruct (styleEntry_kept _ Hpos) as (n & v & rest & Hsplit & _ & ->).
  rewrite Htrim, split_app, (split_absent _ _ Hcu), (split_absent _ _ Hcw) in Hsplit.
  inversion Hsplit; subst n v rest.
  now rewrite trim_trimStart, trim_trimEnd.
Qed.

Lemma getStyleMap_declaration_witness :
  getStyleMap (" border-color " +:+ ":" +:+ " light gray ")
  = [(Js.trim " border-color ", Js.trim " light gray ")].
Proof. apply getStyleMap_declaration; vm_compute; congruence. Defined.

(** A declaration without a property name gives no entry: one whose
    trimmed text has no colon, or starts with the colon. In particular
    the empty string gives the empty map. *)
Theorem getStyleMap_nameless (style : string) :
  Js.indexOf ";" style = -1 ->
  Js.indexOf ":" (Js.trim style) <= 0 ->
  getStyleMap style = [].
Proof.
  intros Hsemi Hcolon. unfold getStyleMap.
  rewrite (split_absent _ _ Hsemi). simpl.
  now apply styleEntry_dropped.
Qed.

Lemma getStyleMap_nameless_witness :
  getStyleMap "" = [] /\ getStyleMap " : red" = [] /\ getStyleMap "color" = [].
Proof.
  split; [|split]; apply getStyleMap_nameless; vm_compute; congruence.
Defined.

(** [diffStyles] sets the declarations of the new style string, one
    after the other, and does nothing else: [removeStyles] is handed
    property names, reads [style.name] of each (undefined) and so never
    clears a declaration. A declaration of the live element whose
    property the new string does not name is still there afterwards; a
    property that the string names has the value of its last
    declaration, and is removed only when that value is empty. *)
Theorem diffStyles_sets_and_never_removes (element : nat) (styles : string)
    (d : document) (x : liveNode) :
  store d !! element = Some x ->
  isElement x = true ->
  exists d',
    diffStyles element (Some styles) d = (Ok tt, d')
    /\ store d' !! element = Some (withStyle (afterStyle styles (styleDecls x)) x)
    /\ (forall k, ~ In k (List.map fst (getStyleMap styles)) ->
          assocGet k (afterStyle styles (styleDecls x)) = assocGet k (styleDecls x))
    /\ (forall k v before after,
          getStyleMap styles = before ++ (k, v) :: after ->
          ~ In k (List.map fst after) ->
          assocGet k (afterStyle styles (styleDecls x))
          = if Js.truthy v then Some v else None)
    /\ (forall n, n <> element -> store d' !! n = store d !! n).
Proof.
  intros Hx He.
  destruct (changeStyles_element element (getStyleMap styles) d x Hx He)
    as (d' & Hrun & Hn & Hother & _).
  exists d'. split; [|split; [exact Hn|split; [|split; [|exact Hother]]]].
  - unfold diffStyles.
    rewrite (bind_ok _ _ d _ d (getStyle_element element d x Hx He)).
    now rewrite (bind_ok _ _ d tt d (removeStyles_element element _ d x Hx He)).
  - intros k Hk. unfold afterStyle. now apply assocGet_styleSteps.
  - intros k v before after Hmap Hafter. unfold afterStyle.
    rewrite Hmap, fold_left_app. simpl.
    rewrite (assocGet_styleSteps k after Hafter).
    destruct (Js.truthy v).
    + now rewrite assocGet_assocSet, String.eqb_refl.
    + now rewrite assocGet_assocRemove, String.eqb_refl.
Qed.

Lemma diffStyles_sets_and_never_removes_witness :
  exists d',
    diffStyles 1 (Some "color: red") styledPage = (Ok tt, d')
    /\ (styleDecls <$> store d' !! 1%nat)
       = Some (afterStyle "color: red" [("margin", "0")])
    /\ assocGet "margin" (afterStyle "color: red" [("margin", "0")]) = Some "0"
    /\ assocGet "color" (afterStyle "color: red" [("margin", "0")]) = Some "red".
Proof.
  destruct (diffStyles_sets_and_never_removes 1 "color: red" styledPage
              (LiveNode 1 "div" false [] [("margin", "0")] "" [] (Some 0%nat)))
    as (d' & Hrun & Hn & Hkeep & Hset & _); try reflexivity.
  exists d'. split; [exact Hrun|]. split; [now rewrite Hn|]. split.
  - apply (Hkeep "margin"). vm_compute. intros [H|[]]. discriminate.
  - apply (Hset "color" "red" [] []); [reflexivity|intros []].
Defined.

(** Removing the [style] attribute changes nothing: the step hands
    [removeStyles] the property names of the live element, and the
    document (the declarations of the element as well as the journal
    of writes) is as before. *)
Theorem removing_style_changes_nothing (element : nat) (v : option string)
    (rest : list attribute) (d : document) (x : liveNode) :
  store d !! element = Some x ->
  isElement x = true ->
  removeAttributes element (Attribute "style" v :: rest) d
  = removeAttributes element rest d
  /\ removeAttributes element [Attribute "style" v] d = (Ok tt, d).
Proof.
  intros Hx He.
  assert (Hstep : forall l, removeAttributes element (Attribute "style" v :: l) d
                            = removeAttributes element l d).
  { intros l. unfold removeAttributes. simpl forEach.
    now rewrite (bind_ok _ _ d tt d (clearStyles_element element d x Hx He)). }
  split; [apply Hstep|]. now rewrite Hstep.
Qed.

Lemma removing_style_changes_nothing_witness :
  removeAttributes 1 [Attribute "style" (Some "margin: 0")] styledPage
  = (Ok tt, styledPage).
Proof.
  apply (removing_style_changes_nothing 1 (Some "margin: 0") [] styledPage
           (LiveNode 1 "div" false [] [("margin", "0")] "" [] (Some 0%nat)));
    reflexivity.
Defined.

End StyleProperties.

(** * The intermediate tree that [createDOMMap] returns *)

Module MapProperties.
Import Dom Vdom VdomSpec VdomFacts MapFacts.

(** The SVG flag is inherited. An entry is flagged when the flag was
    passed to [createDOMMap] or its own type is [svg], and below a
    flagged entry every entry, at any depth, is flagged. Without the
    flag and without an entry of type [svg], no entry is flagged. *)
Theorem createDOMMap_isSVG (element : domNode) (isSVG0 : bool) :
  (forall e, within e (createDOMMap element isSVG0) ->
     (isSVG0 = true \/ type e = "svg" -> isSVG e = true)
     /\ (isSVG e = true -> forall c, within c (children e) -> isSVG c = true))
  /\ (isSVG0 = false ->
      (forall e, within e (createDOMMap element isSVG0) -> type e <> "svg") ->
      forall e, within e (createDOMMap element isSVG0) -> isSVG e = false).
Proof.
  split.
  - intros e He. split.
    + intros [->|Hty]; [now apply within_flagged with element|].
      destruct (createDOMMap_within element _ e He) as (n & svg & _ & ->).
      rewrite createDOMMapNode_flag, Hty. apply orb_true_r.
    + intros Hflag c Hc.
      destruct (createDOMMap_within element _ e He) as (n & svg & _ & ->).
      rewrite createDOMMapNode_below, Hflag in Hc.
      now apply within_flagged with n.
  - intros ->. apply within_unflagged.
Qed.

(** The map mirrors the parsed tree. Its top entries are handles of the
    child nodes of the element, in document order; every entry, at any
    depth, is the handle of a parsed node below the element: it has the
    type of that node (["text"], ["comment"], or the tag in lower
    case), its attributes if the node is an element and none
    otherwise, every attribute value a string, and as children the
    handles of the child nodes, in order. *)
Theorem createDOMMap_mirrors_parsed_tree (element : domNode) (isSVG0 : bool) :
  List.map node (createDOMMap element isSVG0) = List.map ref (childNodes element)
  /\ forall d, within d (createDOMMap element isSVG0) ->
       exists n, descendantOf n element
         /\ node d = ref n
         /\ type d = (if Vdom.nodeType n =? 3 then "text"
                      else if Vdom.nodeType n =? 8 then "comment"
                      else Js.toLowerCase (tagName n))
         /\ attributes d
            = (if Vdom.nodeType n =? 1 then getAttributes (attrs n) else [])
         /\ (forall a, In a (attributes d) -> value a <> None)
         /\ List.map node (children d) = List.map ref (childNodes n).
Proof.
  split.
  - unfold createDOMMap. rewrite List.map_map. apply List.map_ext.
    intros c. apply (createDOMMapNode_local _ c).
  - intros d Hd.
    destruct (createDOMMap_within element _ d Hd) as (n & svg & Hn & ->).
    destruct (createDOMMapNode_kind svg n) as (Hty & Hatts & Hkids).
    exists n. split; [exact Hn|]. split; [apply (createDOMMapNode_local svg n)|].
    split; [exact Hty|]. split; [exact Hatts|]. split; [|exact Hkids].
    intros a Ha. rewrite Hatts in Ha.
    destruct (Vdom.nodeType n =? 1); [|destruct Ha].
    now apply getAttributes_values with (attrs n).
Qed.

End MapProperties.

(** * Building live nodes: [createNode] and the first fill of [diffDOM] *)

Module NodeProperties.
Import Dom Vdom VdomSpec VdomFacts NodeFacts DifferFacts.

(** [createNode] returns a node of its own making. For a template it
    can build, it returns the next free reference; the node there is
    detached and is the live subtree of the template; every node that
    existed before is as it was, and every write goes to a new node. *)
Theorem createNode_returns_new_detached_subtree (t : details) (d : document) :
  buildable t = true ->
  exists d',
    createNode t d = (Ok (nextRef d), d')
    /\ (nextRef d < nextRef d')%nat
    /\ parentIn (nextRef d) d' = None
    /\ materialises (nextRef d') d' None (nextRef d) t
    /\ (forall k, (k < nextRef d)%nat -> store d' !! k = store d !! k)
    /\ exists js, journal d' = journal d ++ js
         /\ Forall (fun m => (nextRef d <= subject m)%nat) js.
Proof.
  intros Hb.
  destruct (createNode_builds t Hb d) as (d' & Hrun & Hlt & Hold & Hmat & Hj).
  exists d'. repeat (split; [assumption|]). split; [|auto].
  destruct (materialises_root _ _ _ _ _ Hmat) as (_ & x & Hx & Hp & _).
  unfold parentIn. now rewrite Hx.
Qed.

Lemma createNode_returns_new_detached_subtree_witness :
  exists d',
    createNode divWithText emptyDivPage = (Ok 2%nat, d')
    /\ parentIn 2 d' = None
    /\ materialises (nextRef d') d' None 2 divWithText.
Proof.
  destruct (createNode_returns_new_detached_subtree divWithText emptyDivPage)
    as (d' & Hrun & _ & Hp & Hmat & _); [reflexivity|].
  exists d'. auto.
Defined.

(** Parsing and building compose. The template that [createDOMMap]
    makes of a parsed node can be built by [createNode], provided no
    element of the parsed tree is named [text] or [comment] and no
    element inside [svg] has a [class] attribute: the call returns a new
    detached node that is the live subtree of the template. *)
Theorem parsed_template_can_be_built (isSVG0 : bool) (n : domNode) (d : document) :
  rebuildable isSVG0 n = true ->
  exists d',
    createNode (createDOMMapNode isSVG0 n) d = (Ok (nextRef d), d')
    /\ materialises (nextRef d') d' None (nextRef d) (createDOMMapNode isSVG0 n)
    /\ (forall k, (k < nextRef d)%nat -> store d' !! k = store d !! k).
Proof.
  intros Hn.
  destruct (createNode_builds _ (rebuildable_buildable n isSVG0 Hn) d)
    as (d' & Hrun & _ & Hold & Hmat & _).
  exists d'. auto.
Qed.

Lemma parsed_template_can_be_built_witness :
  exists d',
    createNode (createDOMMapNode false sampleBody) emptyDocument = (Ok 0%nat, d')
    /\ materialises (nextRef d') d' None 0 (createDOMMapNode false sampleBody)
    /\ (forall k, (k < 0)%nat -> store d' !! k = store emptyDocument !! k).
Proof.
  apply (parsed_template_can_be_built false sampleBody emptyDocument). reflexivity.
Defined.

(** An element named [text], as the [text] element of SVG, gets the
    type of a text node, and [createNode] makes a text node for that
    type. When the element has child nodes, building its template
    throws: a text node takes no attribute and no child. *)
Theorem element_named_text_cannot_be_built (isSVG0 : bool) (r : nat) (tag : string)
    (atts : list (string * string)) (v : string) (kids : list domNode)
    (d : document) :
  allocated d ->
  Js.toLowerCase tag = "text" ->
  kids <> [] ->
  type (createDOMMapNode isSVG0 (DomNode r Element tag atts v kids)) = "text"
  /\ exists e d',
       createNode (createDOMMapNode isSVG0 (DomNode r Element tag atts v kids)) d
       = (Throw e, d').
Proof.
  intros Ha Htag Hkids. split; [exact Htag|].
  apply characterData_children_throw; [exact Ha| |].
  - unfold isCharacterData. simpl. now rewrite Htag.
  - simpl. now destruct kids.
Qed.

Lemma element_named_text_cannot_be_built_witness :
  type (createDOMMapNode true svgText) = "text"
  /\ exists e d', createNode (createDOMMapNode true svgText) emptyDocument = (Throw e, d').
Proof.
  apply (element_named_text_cannot_be_built true 31 "text" [("x", "10")] ""
           [DomNode 32 Text "" [] "hi" []] emptyDocument).
  - intros k [x Hx]. unfold emptyDocument in Hx. simpl in Hx.
    rewrite lookup_empty in Hx. discriminate.
  - reflexivity.
  - discriminate.
Defined.

(** New nodes at the end of the list. When the next list is the
    retained list, unchanged in shape and without attributes, followed
    by further nodes (all of the next list, when there are no handles
    yet), [diffDOM] leaves the front alone, builds a node for every
    further next node and appends it to [element], in order, after the
    children [element] already has. The nodes that existed before,
    [element] apart, are as they were. *)
Theorem diffDOM_appends_new_tail (global : globalObject)
    (front news domMap : list details) (element : nat) (d : document) (x : liveNode) :
  Forall2 sameShape front domMap ->
  forallb bare front = true ->
  forallb buildable news = true ->
  store d !! element = Some x ->
  canHaveChildren x = true ->
  (element < nextRef d)%nat ->
  exists d' kids,
    diffDOM global (front ++ news) domMap element d = (Ok tt, d')
    /\ store d' !! element = Some (withChildren (childRefs x ++ kids) x)
    /\ Forall2 (fun c t => (nextRef d <= c)%nat
                           /\ materialises (nextRef d') d' (Some element) c t)
               kids news
    /\ (forall k, (k < nextRef d)%nat -> k <> element ->
                  store d' !! k = store d !! k).
Proof.
  apply new_tail_is_appended.
Qed.

Lemma diffDOM_appends_new_tail_witness :
  exists d' kids,
    diffDOM NoFind ([item 101] ++ [divWithText; disabledInput]) [item 2] 1%nat listPage
    = (Ok tt, d')
    /\ store d' !! 1%nat
       = Some (withChildren ([2%nat] ++ kids)
                 (LiveNode 1 "ul" false [] [] "" [2%nat] (Some 0%nat)))
    /\ Forall2 (fun c t => (3 <= c)%nat
                           /\ materialises (nextRef d') d' (Some 1%nat) c t)
               kids [divWithText; disabledInput].
Proof.
  destruct (diffDOM_appends_new_tail NoFind [item 101] [divWithText; disabledInput]
              [item 2] 1 listPage (LiveNode 1 "ul" false [] [] "" [2%nat] (Some 0%nat)))
    as (d' & kids & H1 & H2 & H3 & _); try reflexivity.
  - repeat constructor.
  - simpl. lia.
  - exists d', kids. auto.
Defined.

(** Growing a list. When a live element and its next node agree on
    type and content and have no attributes, the element has children,
    and the next children are the retained ones, unchanged in shape
    and without attributes, followed by new ones, the pass builds the
    new ones only and appends them to the live element itself,
    whatever [element] the pass was called with. (When the live
    element has no children, the pass takes another step.) *)
Theorem new_children_go_under_live_node (global : globalObject) (t e : details)
    (front news : list details) (element : nat) (d : document) (x : liveNode) :
  type t = type e ->
  attributes t = [] ->
  attributes e = [] ->
  content t = content e ->
  children t = front ++ news ->
  front <> [] ->
  Forall2 sameShape front (children e) ->
  forallb bare front = true ->
  forallb buildable news = true ->
  store d !! node e = Some x ->
  canHaveChildren x = true ->
  (node e < nextRef d)%nat ->
  exists d' kids,
    diffChild global t (Some e) element d = (Ok tt, d')
    /\ store d' !! node e = Some (withChildren (childRefs x ++ kids) x)
    /\ Forall2 (fun c tc => (nextRef d <= c)%nat
                            /\ materialises (nextRef d') d' (Some (node e)) c tc)
               kids news
    /\ (forall k, (k < nextRef d)%nat -> k <> node e ->
                  store d' !! k = store d !! k).
Proof.
  intros Hty Hat Hae Hco Hkids Hfront Hsame Hbare Hb Hx Hc Hlt.
  pose proof (Forall2_length _ _ _ Hsame) as Hlen.
  assert (Hpos : (0 < length front)%nat) by (destruct front; [congruence|simpl; lia]).
  rewrite diffChild_eq, Hty, String.eqb_refl. cbn [negb].
  rewrite (bind_ok _ _ d tt d (diffAttributes_bare global t e d Hat Hae)).
  rewrite Hco, bool_decide_eq_true_2 by reflexivity. cbn [negb].
  rewrite Hkids, length_app, <- Hlen.
  replace (length front + length news <? 1)%nat with false
    by (symmetry; apply Nat.ltb_ge; lia).
  replace (length front <? 1)%nat with false by (symmetry; apply Nat.ltb_ge; lia).
  rewrite andb_false_r. cbn [andb].
  replace (0 <? length front + length news)%nat with true
    by (symmetry; apply Nat.ltb_lt; lia).
  apply (new_tail_is_appended global front news (children e) (node e) d x); assumption.
Qed.

Lemma new_children_go_under_live_node_witness :
  exists d' kids,
    diffChild NoFind (Details 100 None [] "ul" false [item 101; item 102])
              (Some (Details 1 None [] "ul" false [item 2])) 0%nat listPage
    = (Ok tt, d')
    /\ store d' !! 1%nat
       = Some (withChildren ([2%nat] ++ kids)
                 (LiveNode 1 "ul" false [] [] "" [2%nat] (Some 0%nat)))
    /\ Forall2 (fun c tc => (3 <= c)%nat
                            /\ materialises (nextRef d') d' (Some 1%nat) c tc)
               kids [item 102].
Proof.
  destruct (new_children_go_under_live_node NoFind
              (Details 100 None [] "ul" false [item 101; item 102])
              (Details 1 None [] "ul" false [item 2]) [item 101] [item 102]
              0 listPage (LiveNode 1 "ul" false [] [] "" [2%nat] (Some 0%nat)))
    as (d' & kids & H1 & H2 & H3 & _); try reflexivity.
  - discriminate.
  - repeat constructor.
  - simpl. lia.
  - exists d', kids. auto.
Defined.

End NodeProperties.

(** * The steps of [diffDOM]: content, detached nodes, the global [find] *)

Module DifferProperties.
Import Dom Vdom VdomSpec VdomFacts MapFacts NodeFacts DifferFacts.

(** The content step on a text or comment node. When the two sides
    have the same type, no attributes (as every handle of a text or
    comment node) and the contents differ, the pass overwrites the data
    of the live node with the next content, and that is its only write:
    the node keeps its identity and its place. *)
Theorem content_change_overwrites_text (global : globalObject) (t e : details)
    (element : nat) (d : document) (x : liveNode) (s : string) :
  type t = type e ->
  attributes t = [] ->
  attributes e = [] ->
  content t = Some s ->
  content e <> Some s ->
  store d !! node e = Some x ->
  canHaveChildren x = false ->
  diffChild global t (Some e) element d
  = (Ok tt, Document (alter (withData s) (node e) (store d)) (nextRef d)
                     (journal d ++ [SetTextContent (node e) s])).
Proof.
  intros Hty Hat Hae Hs Hne Hx Hleaf.
  rewrite (diffChild_content_step global t e element d Hty Hat Hae) by congruence.
  rewrite (setTextContent_data _ _ d x Hx Hleaf). now rewrite Hs.
Qed.

Lemma content_change_overwrites_text_witness :
  diffChild NoFind (Details 100 (Some "new") [] "text" false [])
            (Some (Details 1 (Some "old") [] "text" false [])) 0%nat textPage
  = (Ok tt, Document (alter (withData "new") 1%nat (store textPage)) 2
                     [SetTextContent 1 "new"]).
Proof.
  apply (content_change_overwrites_text NoFind
           (Details 100 (Some "new") [] "text" false [])
           (Details 1 (Some "old") [] "text" false []) 0 textPage
           (LiveNode 3 "" false [] [] "old" [] (Some 0%nat)) "new");
    try reflexivity.
  discriminate.
Defined.

(** The content step on an element without attributes. When the
    contents differ, the live element loses all its children, which
    are detached and not looked at further, and gets one new text node
    holding the next content, or no child at all when the next content
    is empty or [null] (a next node that has children of its own): the
    children of the next node are not built. It is one [textContent]
    write. *)
Theorem content_change_replaces_children (global : globalObject) (t e : details)
    (element : nat) (d : document) (x : liveNode) :
  type t = type e ->
  attributes t = [] ->
  attributes e = [] ->
  content t <> content e ->
  allocated d ->
  store d !! node e = Some x ->
  canHaveChildren x = true ->
  ~ In (node e) (childRefs x) ->
  exists d',
    diffChild global t (Some e) element d = (Ok tt, d')
    /\ journal d' = journal d ++ [SetTextContent (node e) (leafText t)]
    /\ store d' !! node e
       = Some (withChildren (if Js.truthy (leafText t) then [nextRef d] else []) x)
    /\ (Js.truthy (leafText t) = true ->
        store d' !! nextRef d
        = Some (LiveNode TEXT_NODE "" false [] [] (leafText t) [] (Some (node e))))
    /\ (forall k, In k (childRefs x) -> (k < nextRef d)%nat ->
                  store d' !! k = withParent None <$> store d !! k)
    /\ (forall k, (k < nextRef d)%nat -> k <> node e -> ~ In k (childRefs x) ->
                  store d' !! k = store d !! k).
Proof.
  intros Hty Hat Hae Hc Ha Hx Hcan Hself.
  rewrite (diffChild_content_step global t e element d Hty Hat Hae Hc).
  exact (setTextContent_element (node e) (content t) d x Ha Hx Hcan Hself).
Qed.

Lemma content_change_replaces_children_witness :
  exists d',
    diffChild NoFind (Details 100 (Some "two") [] "div" false [])
              (Some (Details 1 None [] "div" false [])) 0%nat nestedPage
    = (Ok tt, d')
    /\ journal d' = [SetTextContent 1 "two"]
    /\ childrenOf 1 d' = [3%nat]
    /\ parentIn 2 d' = None.
Proof.
  destruct (content_change_replaces_children NoFind
              (Details 100 (Some "two") [] "div" false [])
              (Details 1 None [] "div" false []) 0 nestedPage
              (sampleDiv [] [2%nat] (Some 0%nat)))
    as (d' & Hrun & Hj & Hn & _ & Hkids & _); try reflexivity.
  - discriminate.
  - intros k [y Hy]. unfold nestedPage in Hy. simpl in *.
    destruct (decide (k = 0%nat)) as [->|H0]; [lia|].
    destruct (decide (k = 1%nat)) as [->|H1]; [lia|].
    destruct (decide (k = 2%nat)) as [->|H2]; [lia|].
    rewrite !lookup_insert_ne, lookup_empty in Hy by congruence. discriminate.
  - simpl. intros [H|[]]. discriminate.
  - exists d'. split; [exact Hrun|]. split; [exact Hj|]. split.
    + unfold childrenOf. cbn [node] in Hn. now rewrite Hn.
    + unfold parentIn. cbn [node] in Hkids.
      rewrite (Hkids 2%nat); [reflexivity|now left|simpl; lia].
Defined.

(** On maps made by [createDOMMap], the two steps for children that
    came or went (5a and 5b) are never reached. When the two sides have
    the same type and exactly one of them has children, their contents
    differ (a content is [null] exactly on an entry with children), so
    the pass stops at the content step: it sets [textContent] of the
    live node to the next content and returns. *)
Theorem parsed_maps_stop_at_content (global : globalObject) (next current : domNode)
    (isSVG1 isSVG2 : bool) (t e : details) (element : nat) (d : document) :
  within t (createDOMMap next isSVG1) ->
  within e (createDOMMap current isSVG2) ->
  type t = type e ->
  (children t = [] <-> children e <> []) ->
  content t <> content e
  /\ diffChild global t (Some e) element d
     = (diffAttributes global t e ;; setTextContent (node e) (content t)) d.
Proof.
  intros Ht He Hty Hone.
  pose proof (within_leaf _ _ _ Ht) as Hlt.
  pose proof (within_leaf _ _ _ He) as Hle.
  assert (Hc : content t <> content e).
  { intros Heq. rewrite Heq in Hlt. tauto. }
  split; [exact Hc|].
  rewrite diffChild_eq, Hty, String.eqb_refl. cbn [negb].
  now rewrite bool_decide_eq_false_2.
Qed.

Lemma parsed_maps_stop_at_content_witness :
  content filledItem <> content emptyItem
  /\ diffChild browser filledItem (Some emptyItem) 0%nat emptyDocument
     = (diffAttributes browser filledItem emptyItem ;;
        setTextContent (node emptyItem) (content filledItem)) emptyDocument.
Proof.
  apply (parsed_maps_stop_at_content browser sampleBody sampleBody false false).
  - apply within_below with (e := createDOMMapNode false
      (DomNode 11 Element "UL" [("class", "list")] ""
         [DomNode 12 Element "LI" [] "" [DomNode 13 Text "" [] "one" []];
          DomNode 14 Element "LI" [] "" []])).
    + left. reflexivity.
    + apply within_here. left. reflexivity.
  - apply within_below with (e := createDOMMapNode false
      (DomNode 11 Element "UL" [("class", "list")] ""
         [DomNode 12 Element "LI" [] "" [DomNode 13 Text "" [] "one" []];
          DomNode 14 Element "LI" [] "" []])).
    + left. reflexivity.
    + apply within_here. right. left. reflexivity.
  - reflexivity.
  - simpl. split; congruence.
Defined.

(** A trailing handle whose node is already detached stops the pass:
    the pre-pass reads [parentNode] of the first trailing node, finds
    [null], and the call of [removeChild] on it is a [TypeError]. No
    node is removed and no next node is visited. *)
Theorem detached_trailing_node_throws (global : globalObject)
    (templateMap domMap : list details) (element : nat) (d : document) (c : details)
    (x : liveNode) :
  domMap !! length templateMap = Some c ->
  store d !! node c = Some x ->
  parentRef x = None ->
  diffDOM global templateMap domMap element d = (Throw TypeError, d).
Proof.
  intros Hc Hx Hp.
  assert (Hlen : (length templateMap < length domMap)%nat)
    by (apply lookup_lt_is_Some; eauto).
  unfold diffDOM, diffDOMWith.
  assert (Hcount : (Z.of_nat (length domMap) - Z.of_nat (length templateMap) >? 0)
                   = true) by (apply Z.gtb_lt; lia).
  rewrite Hcount. apply bind_throw.
  rewrite removeExcess_tail by lia.
  replace (length domMap
           - Z.to_nat (Z.of_nat (length domMap) - Z.of_nat (length templateMap)))%nat
    with (length templateMap) by lia.
  rewrite (drop_S _ _ _ Hc). simpl forEach.
  apply bind_throw, bind_throw.
  unfold parentOf, parentNode, getNode, mbind, M_bind, bind.
  now rewrite Hx, Hp.
Qed.

Lemma detached_trailing_node_throws_witness :
  diffDOM browser [] [item 1] 0%nat detachedPage = (Throw TypeError, detachedPage).
Proof.
  apply (detached_trailing_node_throws browser [] [item 1] 0 detachedPage (item 1)
           (LiveNode 1 "li" false [] [] "" [] None)); reflexivity.
Defined.

(** A live node that is already detached cannot be replaced: when the
    types differ, the pass reads [parentNode] of the live node first,
    and on [null] the call of [replaceChild] is a [TypeError], thrown
    before the new node is built. The document is as it was. *)
Theorem detached_node_cannot_be_replaced (global : globalObject) (t e : details)
    (element : nat) (d : document) (x : liveNode) :
  type t <> type e ->
  store d !! node e = Some x ->
  parentRef x = None ->
  diffChild global t (Some e) element d = (Throw TypeError, d).
Proof.
  intros Hty Hx Hp. rewrite diffChild_eq.
  apply String.eqb_neq in Hty. rewrite Hty. cbn [negb].
  apply bind_throw.
  unfold parentOf, parentNode, getNode, mbind, M_bind, bind.
  now rewrite Hx, Hp.
Qed.

Lemma detached_node_cannot_be_replaced_witness :
  diffChild browser bareDiv (Some (item 1)) 0%nat detachedPage
  = (Throw TypeError, detachedPage).
Proof.
  apply (detached_node_cannot_be_replaced browser bareDiv (item 1) 0 detachedPage
           (LiveNode 1 "li" false [] [] "" [] None)); try reflexivity.
  discriminate.
Defined.

(** In a browser every attribute of the next node is written on
    every pass, changed or not. The name [find] in [diffAttributes] is
    the global [window.find], whose result is a boolean and never the
    attribute of the live node, so no attribute of the next node is
    ever found unchanged: for an element (attributes other than [class]
    and [style] on the next node), [diffAttributes] calls
    [setAttribute] for each attribute of the next node, in order, and
    then takes away the attributes the next node does not have. When
    the two sides carry the same attributes, each of them is written
    again and nothing else is. *)
Theorem browser_writes_every_attribute (find : string -> bool)
    (template existing : details) (d : document) (x : liveNode) :
  store d !! node existing = Some x ->
  isElement x = true ->
  forallb (clearable (svgNamespace x)) (attributes existing) = true ->
  forallb plainName (attributes template) = true ->
  exists d',
    diffAttributes (Window find) template existing d = (Ok tt, d')
    /\ journal d'
       = journal d
         ++ List.map (fun a => SetAttribute (node existing) (name a)
                                 (valueOrTrue (value a))) (attributes template)
         ++ List.map (removalOf (node existing))
                     (getRemovedAttributes template existing)
    /\ (attributes template = attributes existing ->
        journal d'
        = journal d
          ++ List.map (fun a => SetAttribute (node existing) (name a)
                                  (valueOrTrue (value a))) (attributes template)).
Proof.
  intros Hx He Hce Hpt.
  destruct (addAttributes_plain (node existing) (attributes template) d x Hx He Hpt)
    as (d1 & Hrun1 & Hn1 & _ & _ & Hj1).
  destruct (removeAttributes_clearable (node existing)
              (getRemovedAttributes template existing) d1 _ Hn1 He)
    as (d2 & Hrun2 & _ & _ & _ & Hj2).
  { now apply forallb_filter. }
  exists d2. split; [|split].
  - unfold diffAttributes.
    rewrite (bind_ok _ _ d (attributes template) d)
      by apply getChangingAttributes_window.
    now rewrite (bind_ok _ _ d tt d1 Hrun1).
  - rewrite Hj2, Hj1. now rewrite <- app_assoc.
  - intros Hsame. rewrite Hj2, Hj1, (getRemovedAttributes_same _ _ Hsame).
    simpl. now rewrite app_nil_r.
Qed.

Lemma browser_writes_every_attribute_witness :
  exists d',
    diffAttributes browser currentAB currentAB samplePage = (Ok tt, d')
    /\ journal d' = [SetAttribute 1 "a" "1"; SetAttribute 1 "b" "2"].
Proof.
  destruct (browser_writes_every_attribute (fun _ => false) currentAB currentAB
              samplePage (sampleDiv [("a", "1"); ("b", "2")] [] (Some 0%nat)))
    as (d' & H1 & _ & H2); try reflexivity.
  exists d'. split; [exact H1|]. now apply H2.
Defined.



(** The nodes of the next tree are never used. A pass reads the type,
    attributes, content, SVG flag and children of the next nodes, and
    never their [node]: whatever the pass puts into the live tree is
    built by [createNode], and no parsed node of the next tree is
    adopted. The pass is the same with the references forgotten. *)
Theorem next_nodes_are_never_adopted (global : globalObject)
    (templateMap domMap : list details) (element : nat) (d : document) :
  diffDOM global (List.map forgetNode templateMap) domMap element d
  = diffDOM global templateMap domMap element d.
Proof.
  unfold diffDOM, diffDOMWith. rewrite length_map.
  apply bind_pointwise. intros _ d1.
  rewrite forEachIndexed_map. apply forEachIndexed_pointwise.
  intros t _ i d2. apply diffChild_forgetNode.
Qed.

(** The pass is local, in a tree without attributes. When the next
    tree has the shape of the retained tree everywhere but in one
    subtree, at any depth, and no node outside that subtree has
    attributes, the pass over the whole is the visit of that one pair
    of subtrees, called with the live node of the enclosing handle
    (with [element] itself at the top): it returns or throws as that
    visit does and leaves the same document. *)
Theorem diffDOM_is_local (global : globalObject) (t' e' : details)
    (templateMap domMap : list details) (element p : nat) (d : document) :
  differsOnlyAt t' e' templateMap domMap element p ->
  diffDOM global templateMap domMap element d = diffChild global t' (Some e') p d.
Proof. intros H. now apply diffDOM_local. Qed.

Lemma diffDOM_is_local_witness :
  diffDOM browser nextList retainedList 0%nat deepPage
  = diffChild browser newText (Some oldText) 2%nat deepPage.
Proof.
  apply (diffDOM_is_local browser newText oldText nextList retainedList 0 2 deepPage).
  apply (differs_below newText oldText [] [] [] []
           (Details 101 None [] "ul" false [Details 102 None [] "li" false [newText]])
           (Details 1 None [] "ul" false [Details 2 None [] "li" false [oldText]]));
    try reflexivity; try constructor.
  apply (differs_below newText oldText [] [] [] []
           (Details 102 None [] "li" false [newText])
           (Details 2 None [] "li" false [oldText]));
    try reflexivity; try constructor.
  apply (differs_here newText oldText [] [] [] []); constructor.
Defined.

(** One changed text is one write, in a tree without attributes.
    When the next tree differs from the retained tree in the content
    of one text (or comment) node only, at any depth, and no node of
    the tree has attributes, the whole pass overwrites the data of
    that live node and does nothing else. *)
Theorem one_text_change_is_one_write (global : globalObject) (t' e' : details)
    (templateMap domMap : list details) (element p : nat) (d : document)
    (x : liveNode) (s : string) :
  differsOnlyAt t' e' templateMap domMap element p ->
  type t' = type e' ->
  attributes t' = [] ->
  attributes e' = [] ->
  content t' = Some s ->
  content e' <> Some s ->
  store d !! node e' = Some x ->
  canHaveChildren x = false ->
  diffDOM global templateMap domMap element d
  = (Ok tt, Document (alter (withData s) (node e') (store d)) (nextRef d)
                     (journal d ++ [SetTextContent (node e') s])).
Proof.
  intros Hat Hty Hnt Hne' Hs Hne Hx Hleaf.
  rewrite (diffDOM_local global _ _ _ _ _ _ Hat).
  rewrite (diffChild_content_step global t' e' p d Hty Hnt Hne') by congruence.
  rewrite (setTextContent_data _ _ d x Hx Hleaf). now rewrite Hs.
Qed.

Lemma one_text_change_is_one_write_witness :
  diffDOM browser nextList retainedList 0%nat deepPage
  = (Ok tt, Document (alter (withData "new") 3%nat (store deepPage)) 4
                     [SetTextContent 3 "new"]).
Proof.
  apply (one_text_change_is_one_write browser newText oldText nextList retainedList 0 2
           deepPage (LiveNode 3 "" false [] [] "old" [] (Some 2%nat)) "new");
    try reflexivity; try (now constructor); try discriminate.
  apply (differs_below newText oldText [] [] [] []
           (Details 101 None [] "ul" false [Details 102 None [] "li" false [newText]])
           (Details 1 None [] "ul" false [Details 2 None [] "li" false [oldText]]));
    try reflexivity; try constructor.
  apply (differs_below newText oldText [] [] [] []
           (Details 102 None [] "li" false [newText])
           (Details 2 None [] "li" false [oldText]));
    try reflexivity; try constructor.
  apply (differs_here newText oldText [] [] [] []); constructor.
Defined.

End DifferProperties.

(** * [renderMapToDOM] *)

Module RenderProperties.
Import Dom Vdom VdomSpec VdomFacts MoveFacts.

(** [renderMapToDOM] moves the live node of every handle under [root],
    in the order of the map. For handles of distinct live nodes, and a
    [root] that is the root of its tree and not one of them (so that no
    moved node contains it): afterwards the children of [root] are its
    former children, the moved nodes apart, followed by the moved nodes
    in map order; every moved node has [root] as its parent and is gone
    from the child list of the node that held it; the parent of every
    other node is as before; and the writes are one [appendChild] per
    handle. *)
Theorem renderMapToDOM_moves_nodes (templateMap : list details) (root : nat)
    (d : document) (xr : liveNode) :
  consistent d ->
  store d !! root = Some xr ->
  canHaveChildren xr = true ->
  parentRef xr = None ->
  NoDup (List.map node templateMap) ->
  (forall e, In e templateMap ->
     node e <> root
     /\ exists x, store d !! node e = Some x
          /\ Dom.nodeType x <> DOCUMENT_FRAGMENT_NODE) ->
  exists d',
    renderMapToDOM templateMap root d = (Ok tt, d')
    /\ childrenOf root d'
       = without (List.map node templateMap) (childrenOf root d)
         ++ List.map node templateMap
    /\ (forall e, In e templateMap -> parentIn (node e) d' = Some root)
    /\ (forall k, k <> root ->
          childrenOf k d' = without (List.map node templateMap) (childrenOf k d))
    /\ (forall k, ~ In k (List.map node templateMap) -> parentIn k d' = parentIn k d)
    /\ journal d'
       = journal d ++ List.map (fun e => AppendChild root (node e)) templateMap.
Proof.
  intros Hd Hr Hcan _ Hnd Hlive.
  destruct (appendAll_moves root (List.map node templateMap) d xr Hd Hr Hcan Hnd)
    as (d' & Hrun & Hroot & Hin & Hkids & Hpar & Hj).
  { intros n Hn. apply in_map_iff in Hn as (e & <- & He).
    now destruct (Hlive e He). }
  exists d'. split; [|split; [exact Hroot|split; [|split; [exact Hkids|split]]]].
  - unfold renderMapToDOM. now rewrite <- (forEach_map node (appendChild root)).
  - intros e He. apply Hin. now apply in_map.
  - exact Hpar.
  - now rewrite Hj, List.map_map.
Qed.

Lemma renderMapToDOM_moves_nodes_witness :
  exists d',
    renderMapToDOM [item 2; item 3] 0%nat importPage = (Ok tt, d')
    /\ childrenOf 0 d' = [2; 3]%nat
    /\ parentIn 2 d' = Some 0%nat
    /\ childrenOf 1 d' = []
    /\ journal d' = [AppendChild 0 2; AppendChild 0 3].
Proof.
  destruct (renderMapToDOM_moves_nodes [item 2; item 3] 0 importPage
              (sampleDiv [] [] None))
    as (d' & Hrun & Hroot & Hin & Hkids & _ & Hj); try reflexivity.
  - intros k x c Hx Hc. unfold importPage in *. simpl in Hx.
    destruct (decide (k = 0%nat)) as [->|H0];
      [rewrite lookup_insert_eq in Hx; inversion Hx; subst; destruct Hc|].
    rewrite lookup_insert_ne in Hx by congruence.
    destruct (decide (k = 1%nat)) as [->|H1].
    { rewrite lookup_insert_eq in Hx. inversion Hx; subst.
      destruct Hc as [<-|[<-|[]]]; reflexivity. }
    rewrite lookup_insert_ne in Hx by congruence.
    destruct (decide (k = 2%nat)) as [->|H2];
      [rewrite lookup_insert_eq in Hx; inversion Hx; subst; destruct Hc|].
    rewrite lookup_insert_ne in Hx by congruence.
    destruct (decide (k = 3%nat)) as [->|H3];
      [rewrite lookup_insert_eq in Hx; inversion Hx; subst; destruct Hc|].
    rewrite lookup_insert_ne, lookup_empty in Hx by congruence. discriminate.
  - by_computation.
  - intros e [<-|[<-|[]]]; (split; [discriminate|]); eexists; split;
      try reflexivity; discriminate.
  - exists d'. split; [exact Hrun|]. split; [exact Hroot|].
    split; [apply (Hin (item 2)); now left|].
    split; [apply (Hkids 1%nat); discriminate|exact Hj].
Defined.

End RenderProperties.

(** * The lifecycle: the retained tree, failed passes, connect flows *)

Module LifecycleProperties.
Import Element ElementFacts LifecycleFacts.

(** The retained tree is the tree of the initial render that
    completed. A pass after it does not assign [vDOM], so in any run
    after construction every call of the library's [update] is handed,
    as the current tree, [null] (after a detach) or the tree of the
    last initial render in the log: there is no update before that
    render and no render after it, so it is never the tree of a later
    pass, nor the tree of an initial render whose [elementDidMount]
    threw. *)
Theorem update_is_against_rendered_tree {VNode : Type}
    (create : string -> option VNode) (renderReturns : VNode -> bool)
    (updateReturns : VNode -> vdomField VNode -> bool) (class : extender)
    (hookReturns : lifecycle -> list (effect VNode) -> bool)
    (ns : list notification) (next : VNode) (current : vdomField VNode) :
  In (Updated next current)
     (effects (run create renderReturns updateReturns class hookReturns ns initialize)) ->
  current = Null
  \/ exists v before after,
       current = Tree v
       /\ effects (run create renderReturns updateReturns class hookReturns ns initialize)
          = before ++ Rendered v :: after
       /\ forallb (fun e => negb (isRendered e)) after = true
       /\ Forall noUpdate before
       /\ In (Updated next current) after.
Proof.
  intros Hin.
  assert (Hinv : treeInvariant
                   (run create renderReturns updateReturns class hookReturns ns
                        initialize)).
  { apply run_treeInvariant. left. split; [reflexivity|constructor]. }
  destruct Hinv as [[_ Hall]|[_ (v & before & after & _ & Heff & Hnr & Hb & Ha)]].
  - rewrite List.Forall_forall in Hall. destruct (Hall _ Hin).
  - rewrite Heff in Hin. apply in_app_or in Hin as [Hin|[Hin|Hin]].
    + rewrite List.Forall_forall in Hb. destruct (Hb _ Hin).
    + discriminate Hin.
    + rewrite List.Forall_forall in Ha.
      destruct (Ha _ Hin) as [->| ->]; [right|now left].
      exists v, before, after. auto.
Qed.

Lemma update_is_against_rendered_tree_witness :
  Tree "<p>goodbye</p>" = Null
  \/ exists v before after,
       Tree "<p>goodbye</p>" = Tree v
       /\ effects (run markupOf always always2 everyHook mountThrowsOnce
                       mountedAtSecondTry initialize)
          = before ++ Rendered v :: after
       /\ forallb (fun e => negb (isRendered e)) after = true
       /\ Forall noUpdate before
       /\ In (Updated "<p>hello</p>" (Tree "<p>goodbye</p>")) after.
Proof.
  apply (update_is_against_rendered_tree markupOf always always2 everyHook
           mountThrowsOnce mountedAtSecondTry "<p>hello</p>").
  vm_compute. tauto.
Defined.



(** A pass that throws keeps the flags: a first render that failed is
    a first render again the next time. When the exception is not the
    one of a lifecycle method, no effect was made and the instance is
    as before, with one exception: when the library's [render] throws
    in the first pass, [vDOM] already holds the new tree. When the
    lifecycle method of the pass throws, the library call has been
    made before it (and, in the first pass, [vDOM] holds the new
    tree): the next pass renders again and calls [elementDidMount]
    again. *)
Theorem throwing_pass_keeps_first_render {VNode : Type}
    (create : string -> option VNode) (renderReturns : VNode -> bool)
    (updateReturns : VNode -> vdomField VNode -> bool) (class : extender)
    (hookReturns : lifecycle -> list (effect VNode) -> bool)
    (render : method) (this : instance VNode) (e : error) :
  fst (renderDOM create renderReturns updateReturns class hookReturns render this)
  = Threw e ->
  let this' :=
    snd (renderDOM create renderReturns updateReturns class hookReturns render this) in
  isFirstRender this' = isFirstRender this
  /\ isDisconnected this' = isDisconnected this
  /\ renderPending this' = renderPending this
  /\ ((forall name, e <> HookFailure name) ->
      effects this' = effects this
      /\ (this' = this
          \/ (isFirstRender this = true /\ e = LibraryFailure
              /\ exists v, vDOM this' = Tree v)))
  /\ (forall name, e = HookFailure name ->
        name = passHook this
        /\ exists v,
             effects this'
             = effects this ++ [passEffect v this; Called name; HookThrew name]
             /\ vDOM this' = if isFirstRender this then Tree v else vDOM this).
Proof.
  intros Hthrow this'. subst this'. revert Hthrow. rewrite renderDOM_spec.
  destruct (getVDOM create class render) as [e'|v] eqn:E.
  - cbn [fst snd]. intros H. inversion H; subst e'.
    split; [reflexivity|]. split; [reflexivity|]. split; [reflexivity|]. split.
    + intros _. split; [reflexivity|now left].
    + intros name ->. exfalso.
      unfold getVDOM, getDOMString, noRenderMethod, nonStringTemplate in E.
      destruct render as [|[]|]; simpl in E; try discriminate E;
        destruct (create _); discriminate E.
  - destruct (libraryReturns _ _ v this) eqn:El; cbn [fst snd].
    + destruct (hookThrows _ _ _ _ _) eqn:Ht; [|discriminate].
      intros H. inversion H; subst e.
      cbn [isFirstRender isDisconnected renderPending effects vDOM].
      rewrite andb_true_r.
      split; [reflexivity|]. split; [reflexivity|]. split; [reflexivity|]. split.
      * intros Hno. now contradiction (Hno (passHook this)).
      * intros name Hn. inversion Hn; subst name. split; [reflexivity|].
        exists v. split; [|reflexivity].
        rewrite hookThrows_effects, Ht.
        unfold hookThrows in Ht. apply andb_true_iff in Ht as [-> _].
        now rewrite <- app_assoc.
    + intros H. inversion H; subst e.
      cbn [isFirstRender isDisconnected renderPending effects vDOM].
      split; [reflexivity|]. split; [reflexivity|]. split; [reflexivity|]. split.
      * intros _. split; [reflexivity|].
        destruct (isFirstRender this) eqn:Hf; [right; eauto|left].
        destruct this; simpl in *; now subst.
      * intros name Hn. discriminate Hn.
Qed.

Lemma throwing_pass_keeps_first_render_witness :
  isFirstRender
    (snd (renderDOM markupOf always always2 everyHook mountThrows hello initialize))
  = true
  /\ effects
       (snd (renderDOM markupOf always always2 everyHook mountThrows hello initialize))
     = [Rendered "<p>hello</p>"; Called elementDidMount; HookThrew elementDidMount].
Proof.
  destruct (throwing_pass_keeps_first_render markupOf always always2 everyHook
              mountThrows hello initialize (HookFailure elementDidMount) eq_refl)
    as (H1 & _ & _ & _ & H2).
  split; [exact H1|].
  destruct (H2 elementDidMount eq_refl) as (_ & v & Heff & Hv).
  rewrite Heff. inversion Hv. reflexivity.
Defined.

(** One style tag and one render request per connect flow that gets
    past its hook, one more request per call of [requestRender]. For a
    class with styles and a connect hook, in any run after
    construction, the style tags appended to the shadow root are as
    many as the calls of [elementDidConnect] that returned (so an
    element that is adopted and attached again gets a second style
    tag), and the calls of the scheduler are as many as these plus the
    [requestRender] notifications: attribute changes, detaches,
    adoptions and passes request no render. A call of
    [elementDidConnect] that throws leaves no style tag and no
    request; when the hook never throws, there is none. *)
Theorem connect_flows_are_counted {VNode : Type} (create : string -> option VNode)
    (renderReturns : VNode -> bool) (updateReturns : VNode -> vdomField VNode -> bool)
    (class : extender) (hookReturns : lifecycle -> list (effect VNode) -> bool)
    (css : string) (ns : list notification) :
  defines class elementDidConnect = true ->
  styles class = Some css ->
  let this := run create renderReturns updateReturns class hookReturns ns initialize in
  (length (List.filter isStyleTag (effects this))
   + length (List.filter isConnectThrow (effects this))
   = length (List.filter isConnectCall (effects this)))%nat
  /\ (length (List.filter isScheduled (effects this))
      + length (List.filter isConnectThrow (effects this))
      = length (List.filter isConnectCall (effects this))
        + length (List.filter isRequest ns))%nat
  /\ ((forall h, hookReturns elementDidConnect h = true) ->
      length (List.filter isConnectThrow (effects this)) = 0%nat).
Proof.
  intros Hdef Hcss this.
  destruct (run_counts create renderReturns updateReturns class hookReturns css ns
              initialize Hdef Hcss) as (c & t & H1 & H2 & H3 & H4 & H5).
  subst this. rewrite H1, H2. simpl in *.
  split; [lia|]. split; [lia|]. intros Hall. now rewrite (H5 Hall).
Qed.

Lemma connect_flows_are_counted_witness :
  (length (List.filter isStyleTag
             (effects (run markupOf always always2 styledHooks connectThrowsOnce
                           [Attach true; Attach true; RequestRender] initialize)))
   + 1 = 2)%nat
  /\ (length (List.filter isScheduled
                (effects (run markupOf always always2 styledHooks connectThrowsOnce
                              [Attach true; Attach true; RequestRender] initialize)))
      + 1 = 2 + 1)%nat.
Proof.
  destruct (connect_flows_are_counted markupOf always always2 styledHooks
              connectThrowsOnce ":host { display: block; }"
              [Attach true; Attach true; RequestRender] eq_refl eq_refl)
    as (H1 & H2 & _).
  split; [exact H1|exact H2].
Defined.

(** A pass does not look at [isDisconnected] and does not change it:
    clearing the flag before the pass or after it gives the same
    result. A render that was requested before a detach still runs on
    the detached element. *)
Theorem pass_ignores_isDisconnected {VNode : Type} (create : string -> option VNode)
    (renderReturns : VNode -> bool) (updateReturns : VNode -> vdomField VNode -> bool)
    (class : extender) (hookReturns : lifecycle -> list (effect VNode) -> bool)
    (render : method) (this : instance VNode) :
  isDisconnected
    (snd (renderDOM create renderReturns updateReturns class hookReturns render this))
  = isDisconnected this
  /\ renderDOM create renderReturns updateReturns class hookReturns render
               (adoptedCallback this)
     = (fst (renderDOM create renderReturns updateReturns class hookReturns render this),
        adoptedCallback
          (snd (renderDOM create renderReturns updateReturns class hookReturns render
                  this))).
Proof.
  rewrite !renderDOM_spec.
  unfold libraryReturns, passHook, passEffect, adoptedCallback.
  destruct this as [f dc vd rp es]. cbn [isFirstRender isDisconnected vDOM renderPending
                                         effects].
  destruct (getVDOM create class render) as [e|v]; [split; reflexivity|].
  destruct (if f then renderReturns v else updateReturns v vd); [|split; reflexivity].
  destruct (hookThrows _ _ _ _ _); split; reflexivity.
Qed.

End LifecycleProperties.
